(** * gmane.py: the resumable mail-archive harvester of pg4e

    A shallow embedding of [src/code/gmane.py] and the properties of its
    resume cursor, fetch loop, header parser and insert statement.

    Conventions of the model.
    - A Python [str] is a [list ascii]; a character is a code point below 256.
      Whitespace, decimal digits and lower-casing follow Python's tables on
      that range.
    - The regular expressions are the source's own literals, read first as
      Python reads a (non-raw) string literal and then as [re] reads a pattern.
    - The network, the console and the two date parsers are the environment:
      the loop is a function of them.
    - The [messages] table is a list of rows in insertion order, the
      constraints it enforces are the ones its [CREATE TABLE] statement
      declares. The loop is followed through the runs in which the database
      takes each row the script inserts; what the database holds before the
      script starts is an input of [boot]. *)

From Stdlib Require Import List ZArith Lia Bool Ascii String Arith.
From Stdlib Require Import DecimalString DecimalZ.
Import ListNotations.

Local Open Scope Z_scope.

(* ================================================================== *)
(** ** Python strings *)

Definition str := list ascii.

(** A Rocq string literal as a list of characters, taken as it is written. *)
Definition chars (s : string) : str := list_ascii_of_string s.

Definition LF : ascii := ascii_of_nat 10.
Definition backslash : ascii := ascii_of_nat 92.

(** The value of a non-raw Python string literal whose source text is [s]:
    [\n] is a line feed and [\\] a backslash; an escape Python does not know
    ([\S], [\D], [\.]) keeps its backslash. *)
Fixpoint py_unescape (s : str) : str :=
  match s with
  | [] => []
  | c :: rest =>
      if Ascii.eqb c backslash then
        match rest with
        | [] => [c]
        | d :: rest' =>
            if Ascii.eqb d "n"%char then LF :: py_unescape rest'
            else if Ascii.eqb d backslash then backslash :: py_unescape rest'
            else c :: d :: py_unescape rest'
        end
      else c :: py_unescape rest
  end.

(** [py "..."] is the Python string written ['...'] in the source. *)
Definition py (s : string) : str := py_unescape (chars s).

Definition code (a : ascii) : N := N_of_ascii a.

(** [str.isspace] on one character (Python's whitespace table below 256). *)
Definition isspace (a : ascii) : bool :=
  let n := code a in
  ((9 <=? n) && (n <=? 13) || (28 <=? n) && (n <=? 32)
   || (n =? 133) || (n =? 160))%N.

(** Decimal digits, as [re]'s [\d] sees them below 256. *)
Definition isdigit (a : ascii) : bool :=
  let n := code a in ((48 <=? n) && (n <=? 57))%N.

(** [str.lower] on one character: A-Z, and the Latin-1 capitals. *)
Definition lower_char (a : ascii) : ascii :=
  let n := code a in
  if ((65 <=? n) && (n <=? 90)
      || (192 <=? n) && (n <=? 222) && negb (n =? 215))%N
  then ascii_of_N (n + 32) else a.

Definition lower (s : str) : str := map lower_char s.

Fixpoint lstrip (s : str) : str :=
  match s with
  | a :: s' => if isspace a then lstrip s' else s
  | [] => []
  end.

Definition rstrip (s : str) : str := rev (lstrip (rev s)).

(** [s.strip()] *)
Definition strip (s : str) : str := rstrip (lstrip s).

Fixpoint str_eqb (s t : str) : bool :=
  match s, t with
  | [], [] => true
  | a :: s', b :: t' => Ascii.eqb a b && str_eqb s' t'
  | _, _ => false
  end.

(** [s.startswith(p)] *)
Fixpoint startswith (s p : str) {struct p} : bool :=
  match p with
  | [] => true
  | b :: p' =>
      match s with
      | a :: s' => Ascii.eqb a b && startswith s' p'
      | [] => false
      end
  end.

(** [s.find(sub)]: the lowest index where [sub] occurs, or -1. *)
Fixpoint find_from (s sub : str) (i : Z) : Z :=
  if startswith s sub then i
  else match s with
       | [] => -1
       | _ :: s' => find_from s' sub (i + 1)
       end.

Definition find (s sub : str) : Z := find_from s sub 0.

(** Slices [s[:n]] and [s[n:]] for an index [n >= 0]. *)
Definition slice_to (s : str) (n : Z) : str := firstn (Z.to_nat n) s.
Definition slice_from (s : str) (n : Z) : str := skipn (Z.to_nat n) s.

(** [s.replace(old, new)] for a non-empty [old]; [skip] characters of the
    current occurrence are still to be dropped. *)
Fixpoint replace_go (old new s : str) (skip : nat) : str :=
  match s with
  | [] => []
  | a :: s' =>
      match skip with
      | S k => replace_go old new s' k
      | O =>
          if startswith s old
          then new ++ replace_go old new s' (Nat.pred (List.length old))
          else a :: replace_go old new s' O
      end
  end.

Definition replace (s old new : str) : str := replace_go old new s O.

(** [str(n)] for an [int]. *)
Definition str_of_int (n : Z) : str :=
  chars (NilZero.string_of_int (Z.to_int n)).

(** [int(s)] in base ten: blanks, an optional sign, digits with single
    underscores between them, blanks. [None] is [ValueError]. The blanks
    [int] drops are C's white space and the two Latin-1 spaces; the
    separators 28..31, which [str.strip] drops, it rejects. *)
Definition int_blank (a : ascii) : bool :=
  let n := code a in
  ((9 <=? n) && (n <=? 13) || (n =? 32) || (n =? 133) || (n =? 160))%N.

Fixpoint skip_blanks (s : str) : str :=
  match s with
  | a :: s' => if int_blank a then skip_blanks s' else s
  | [] => []
  end.

(** [after_digit] tells whether the character before [s] was a digit: only
    there may the literal end, and only there may an underscore stand. *)
Fixpoint digits_value (s : str) (acc : Z) (after_digit : bool) : option Z :=
  match s with
  | [] => if after_digit then Some acc else None
  | a :: s' =>
      if isdigit a
      then digits_value s' (10 * acc + Z.of_N (code a) - 48) true
      else if Ascii.eqb a "_"%char && after_digit
      then digits_value s' acc false
      else None
  end.

Definition unsigned_value (s : str) : option Z := digits_value s 0 false.

Definition py_int (s : str) : option Z :=
  match rev (skip_blanks (rev (skip_blanks s))) with
  | a :: s' =>
      if Ascii.eqb a "-"%char then option_map Z.opp (unsigned_value s')
      else if Ascii.eqb a "+"%char then unsigned_value s'
      else unsigned_value (a :: s')
  | [] => None
  end.

Definition blanks (l : str) : Prop := forall a, In a l -> isspace a = true.

(* ================================================================== *)
(** ** Regular expressions: the part of [re] the script uses *)

(** One-character matchers. *)
Inductive cclass : Type :=
| CLit (c : ascii)      (* the character itself *)
| CDot                  (* [.]: anything but a line feed *)
| CNonSpace             (* [\S] *)
| CNonDigit.            (* [\D] *)

Definition cmatch (c : cclass) (a : ascii) : bool :=
  match c with
  | CLit b => Ascii.eqb a b
  | CDot => negb (Ascii.eqb a LF)
  | CNonSpace => negb (isspace a)
  | CNonDigit => negb (isdigit a)
  end.

(** A compiled pattern is a sequence of items: a single character, a greedy
    repetition of a single character, or a bracket of the capturing group. *)
Inductive item : Type :=
| One (c : cclass)
| Star (c : cclass)     (* c*  greedy *)
| Plus (c : cclass)     (* c+  greedy *)
| Open                  (* (   *)
| Close.                (* )   *)

Definition pattern := list item.

Definition escape_class (d : ascii) : cclass :=
  if Ascii.eqb d "S"%char then CNonSpace
  else if Ascii.eqb d "D"%char then CNonDigit
  else CLit d.

Definition quantified (c : cclass) (rest : str) (k : str -> pattern) : pattern :=
  match rest with
  | q :: rest' =>
      if Ascii.eqb q "*"%char then Star c :: k rest'
      else if Ascii.eqb q "+"%char then Plus c :: k rest'
      else One c :: k rest
  | [] => [One c]
  end.

(** [re.compile]: reads a pattern made of literals, [.], [\S], [\D], [*], [+]
    and one pair of parentheses. *)
Fixpoint re_compile_go (fuel : nat) (s : str) : pattern :=
  match fuel with
  | O => []
  | S fuel' =>
      match s with
      | [] => []
      | a :: rest =>
          if Ascii.eqb a "("%char then Open :: re_compile_go fuel' rest
          else if Ascii.eqb a ")"%char then Close :: re_compile_go fuel' rest
          else if Ascii.eqb a backslash then
            match rest with
            | d :: rest' => quantified (escape_class d) rest' (re_compile_go fuel')
            | [] => []
            end
          else if Ascii.eqb a "."%char
          then quantified CDot rest (re_compile_go fuel')
          else quantified (CLit a) rest (re_compile_go fuel')
      end
  end.

Definition re_compile (s : str) : pattern := re_compile_go (List.length s) s.

(** The longest run of characters of class [c] at the head of [s]. *)
Fixpoint span (c : cclass) (s : str) : nat :=
  match s with
  | a :: s' => if cmatch c a then S (span c s') else O
  | [] => O
  end.

(** Greedy backtracking: try [n] repetitions, then [n-1], ... down to [lo];
    the first success wins. *)
Fixpoint greedy {R : Type} (f : nat -> option R) (lo n : nat) : option R :=
  if (n <? lo)%nat then None
  else match f n with
       | Some r => Some r
       | None =>
           match n with
           | O => None
           | S n' => greedy f lo n'
           end
       end.

(** [match_here p s opened grp]: match [p] at the head of [s]; [opened] is
    the text from the group's opening bracket on, [grp] the group captured
    so far. The result is the captured group and the text after the match. *)
Fixpoint match_here (p : pattern) (s opened grp : str) : option (str * str) :=
  match p with
  | [] => Some (grp, s)
  | One c :: p' =>
      match s with
      | a :: s' => if cmatch c a then match_here p' s' opened grp else None
      | [] => None
      end
  | Star c :: p' =>
      greedy (fun n => match_here p' (skipn n s) opened grp) 0 (span c s)
  | Plus c :: p' =>
      greedy (fun n => match_here p' (skipn n s) opened grp) 1 (span c s)
  | Open :: p' => match_here p' s s grp
  | Close :: p' =>
      match_here p' s opened
        (firstn (List.length opened - List.length s) opened)
  end.

(** [re.match] at the head of [s]. *)
Definition re_match (p : pattern) (s : str) : option (str * str) :=
  match_here p s s [].

(** The scan of [re.findall] for a pattern with one group: the groups of the
    successive non-overlapping matches, leftmost first. [skip] characters of
    the last match are still to be passed over. *)
Fixpoint scan (p : pattern) (s : str) (skip : nat) : list str :=
  match skip with
  | S k =>
      match s with
      | [] => []
      | _ :: s' => scan p s' k
      end
  | O =>
      match re_match p s with
      | Some (g, rest) =>
          g :: match s with
               | [] => []
               | _ :: s' =>
                   scan p s' (Nat.pred (List.length s - List.length rest))
               end
      | None =>
          match s with
          | [] => []
          | _ :: s' => scan p s' O
          end
      end
  end.

(** [re.findall(pat, s)], [pat] given as the source writes its literal. *)
Definition findall (pat : string) (s : str) : list str :=
  scan (re_compile (py pat)) s O.

(* ================================================================== *)
(** ** What a match is *)

(** A pattern of literal characters. *)
Definition lits (l : str) : pattern := map (fun c => One (CLit c)) l.

(** The matches of a pattern, without the order the matcher tries them in:
    [Matches p s opened grp (g, r)] when [p] can consume a prefix of [s],
    leaving [r], with [g] the text of the group. *)
Fixpoint Matches (p : pattern) (s opened grp : str) (res : str * str) : Prop :=
  match p with
  | [] => res = (grp, s)
  | One c :: p' =>
      exists a s', s = a :: s' /\ cmatch c a = true
                   /\ Matches p' s' opened grp res
  | Star c :: p' =>
      exists n, (n <= span c s)%nat /\ Matches p' (skipn n s) opened grp res
  | Plus c :: p' =>
      exists n, (1 <= n <= span c s)%nat
                /\ Matches p' (skipn n s) opened grp res
  | Open :: p' => Matches p' s s grp res
  | Close :: p' =>
      Matches p' s opened
              (firstn (List.length opened - List.length s) opened) res
  end.

Definition all_in (c : cclass) (x : str) : Prop :=
  Forall (fun a => cmatch c a = true) x.

(** The class tests as booleans, for hypotheses that can be computed. *)
Definition within (c : cclass) (x : str) : bool := forallb (cmatch c) x.

Definition has (c : ascii) (x : str) : bool := existsb (Ascii.eqb c) x.

(** Where [sub] occurs in [s]: the indices, in increasing order. *)
Fixpoint occurrences_from (sub s : str) (i : nat) : list nat :=
  (if startswith s sub then [i] else [])
  ++ match s with
     | [] => []
     | _ :: s' => occurrences_from sub s' (S i)
     end.

Definition occurrences (sub s : str) : list nat := occurrences_from sub s O.

(* ================================================================== *)
(** ** The messages table *)

(** A row of [messages]. [id] is the archive position the script assigns;
    [email], [sent_at] and [subject] may be NULL. *)
Record message : Type := mkMessage {
  id : Z;
  email : option str;
  sent_at : option str;
  subject : option str;
  headers : str;
  body : str
}.

Inductive column : Type :=
| Col_id | Col_email | Col_sent_at | Col_subject | Col_headers | Col_body.

Inductive sqltype : Type := SERIAL | TEXT | TIMESTAMPTZ.

Inductive constraint : Type := PRIMARY_KEY | UNIQUE.

(** A table definition: each column with its type and its constraints. *)
Definition table_def := list (column * sqltype * list constraint).

(** The statement the script runs at start-up:
    [CREATE TABLE IF NOT EXISTS messages
       (id SERIAL, email TEXT, sent_at TIMESTAMPTZ,
        subject TEXT, headers TEXT, body TEXT)]. *)
Definition messages_ddl : table_def :=
  [ (Col_id, SERIAL, []); (Col_email, TEXT, []);
    (Col_sent_at, TIMESTAMPTZ, []); (Col_subject, TEXT, []);
    (Col_headers, TEXT, []); (Col_body, TEXT, []) ].

(** The columns that carry a unique index: the ones declared PRIMARY KEY or
    UNIQUE. SERIAL gives a column a sequence default and NOT NULL, no index. *)
Definition unique_columns (ddl : table_def) : list column :=
  map (fun d => fst (fst d))
      (filter (fun d => match snd d with [] => false | _ => true end) ddl).

Inductive sqlval : Type :=
| SqlNull
| SqlInt (z : Z)
| SqlText (s : str).

Definition text_or_null (o : option str) : sqlval :=
  match o with
  | Some s => SqlText s
  | None => SqlNull
  end.

Definition value (c : column) (r : message) : sqlval :=
  match c with
  | Col_id => SqlInt (id r)
  | Col_email => text_or_null (email r)
  | Col_sent_at => text_or_null (sent_at r)
  | Col_subject => text_or_null (subject r)
  | Col_headers => SqlText (headers r)
  | Col_body => SqlText (body r)
  end.

(** Equality as a unique index sees it: NULL equals nothing. *)
Definition sql_same (v w : sqlval) : bool :=
  match v, w with
  | SqlInt a, SqlInt b => a =? b
  | SqlText a, SqlText b => str_eqb a b
  | _, _ => false
  end.

(** The new row [r] collides with the stored row [e] on some unique index. *)
Definition conflicts (ddl : table_def) (e r : message) : bool :=
  existsb (fun c => sql_same (value c e) (value c r)) (unique_columns ddl).

(** [INSERT INTO t (...) VALUES (...) ON CONFLICT DO NOTHING] on a table
    defined by [ddl]. *)
Definition insert_on_conflict_do_nothing
    (ddl : table_def) (tbl : list message) (r : message) : list message :=
  if existsb (fun e => conflicts ddl e r) tbl then tbl else tbl ++ [r].

(** The script's INSERT (lines 157-159), on the table its DDL creates, for a
    row the database takes. psycopg2 refuses a text that holds a NUL
    character, and the server an [id] beyond its four bytes or a [sent_at]
    it cannot read as a time: the call then raises at line 157, outside any
    [try], and the run ends there. The model follows the runs in which each
    row is taken. *)
Definition execute_insert (tbl : list message) (r : message) : list message :=
  insert_on_conflict_do_nothing messages_ddl tbl r.

(** What [cur.fetchone()] can do after a SELECT. *)
Inductive fetched (A : Type) : Type :=
| Row (v : A)           (* a row *)
| NoRow                 (* None: the result set is exhausted *)
| FetchRaises.          (* an exception *)
Arguments Row {A} v.
Arguments NoRow {A}.
Arguments FetchRaises {A}.

Definition ids (tbl : list message) : list Z := map id tbl.

Fixpoint sql_max (l : list Z) : option Z :=
  match l with
  | [] => None
  | z :: l' =>
      match sql_max l' with
      | None => Some z
      | Some m => Some (Z.max z m)
      end
  end.

(** [SELECT max(id) FROM messages]: always one row, NULL on an empty table. *)
Definition select_max_id (tbl : list message) : fetched (option Z) :=
  Row (sql_max (ids tbl)).

(** [SELECT id FROM messages WHERE id=%s]: the first matching row, if any. *)
Definition select_id (tbl : list message) (k : Z) : fetched Z :=
  match filter (fun r => id r =? k) tbl with
  | r :: _ => Row (id r)
  | [] => NoRow
  end.

(** How many rows of [tbl] carry the identifier [k]. *)
Definition rows_with_id (k : Z) (tbl : list message) : nat :=
  List.length (filter (fun r => id r =? k) tbl).

(** Lines 49-60: the resume cursor from the first row of [SELECT max(id)]. *)
Definition initial_start (row : fetched (option Z)) : Z :=
  match row with
  | NoRow => 0                  (* row is None *)
  | Row (Some m) => m           (* start = row[0] *)
  | Row None => 0               (* start is None *)
  | FetchRaises => 0            (* except: start = 0 *)
  end.

(* ================================================================== *)
(** ** Header fields *)

Definition baseurl : str := py "http://mbox.dr-chuck.net/sakai.devel/".

(** Line 81. *)
Definition url_of (start : Z) : str :=
  baseurl ++ str_of_int start ++ py "/" ++ str_of_int (start + 1).

(** Lines 127-128 and 133-134. *)
Definition clean_address (x : str) : str :=
  replace (lower (strip x)) (py "<") (py "").

(** Lines 123-134. *)
Definition extract_email (hdr : str) : option str :=
  match findall "\nFrom: .* <(\S+@\S+)>\n" hdr with
  | [x0] => Some (clean_address x0)
  | _ =>
      match findall "\nFrom: (\S+@\S+)\n" hdr with
      | [x0] => Some (clean_address x0)
      | _ => None
      end
  end.

(** Line 137 and 139-140: the text handed to the date parsers, if any. *)
Definition extract_tdate (hdr : str) : option str :=
  match findall "\Date: .*, (.*)\n" hdr with
  | [y0] => Some (slice_to y0 26)
  | _ => None
  end.

(** Lines 150-152. *)
Definition extract_subject (hdr : str) : option str :=
  match findall "\Subject: (.*)\n" hdr with
  | [z0] => Some (lower (strip z0))
  | _ => None
  end.

(** Lines 105-121: the header block and the body, or why there is none. *)
Inductive split_result : Type :=
| NoMarker                      (* "Did not find From " *)
| NoBoundary                    (* "Could not find break ..." *)
| Split (hdr body : str).

Definition split_message (text : str) : split_result :=
  if negb (startswith text (py "From ")) then NoMarker
  else
    let pos := find text (py "\n\n") in
    if pos >? 0 then Split (slice_to text pos) (slice_from text (pos + 2))
    else NoBoundary.

Definition subject_key : str := chars "ubject: ".
Definition date_key : str := chars "ate: ".
Definition from_key : str := LF :: chars "From: ".

(** The end of the Date and Subject patterns: a group of any characters,
    then a line feed. *)
Definition rest_of_line : pattern := [Open; Star CDot; Close; One (CLit LF)].

(* ================================================================== *)
(** ** The state of the loop *)

Inductive outcome (A : Type) : Type :=
| Returns (a : A)
| Raises.
Arguments Returns {A} a.
Arguments Raises {A}.

(** What the archive does with a request, redirects followed. *)
Inductive response : Type :=
| Answer (status : Z) (content : option str)
    (* a response; its body as text when it is valid UTF-8 *)
| NoAnswer                      (* time-out, refused connection, ... *)
| Interrupt.                    (* the user presses Ctrl-C meanwhile *)

(** What lines 86-88 can do for one address. *)
Inductive fetch_outcome : Type :=
| Document (text : str) (status : Z)   (* read and decoded; getcode() *)
| KeyboardInterrupt
| FetchException.                      (* any other Exception *)

(** [urllib.request.urlopen] with its default handlers, then
    [document.read().decode()]: a response is handed back when its status is
    in 200..299, any other status is raised as HTTPError; a body that is not
    UTF-8 raises UnicodeDecodeError. *)
Definition retrieve (r : response) : fetch_outcome :=
  match r with
  | Answer status content =>
      if (200 <=? status) && (status <? 300) then
        match content with
        | Some text => Document text status
        | None => FetchException
        end
      else FetchException
  | NoAnswer => FetchException
  | Interrupt => KeyboardInterrupt
  end.

(** What the run does that the outside can see. The trace of a state lists
    these, the latest first. *)
Inductive event : Type :=
| EvPrompt                      (* input('How many messages:') *)
| EvFetch (url : str)           (* urllib.request.urlopen(url, ...) *)
| EvCommit                      (* conn.commit() *)
| EvSleep.                      (* time.sleep(1) *)

Record state : Type := mkState {
  start : Z;
  many : Z;
  count : Z;
  fail : Z;
  messages : list message;      (* the table as the open transaction sees it *)
  committed : list message;     (* the table as of the last commit *)
  stdin : list str;             (* the lines the console will deliver *)
  trace : list event
}.

Definition set_start (st : state) (v : Z) : state :=
  mkState v (many st) (count st) (fail st) (messages st) (committed st)
          (stdin st) (trace st).
Definition set_many (st : state) (v : Z) : state :=
  mkState (start st) v (count st) (fail st) (messages st) (committed st)
          (stdin st) (trace st).
Definition set_count (st : state) (v : Z) : state :=
  mkState (start st) (many st) v (fail st) (messages st) (committed st)
          (stdin st) (trace st).
Definition set_fail (st : state) (v : Z) : state :=
  mkState (start st) (many st) (count st) v (messages st) (committed st)
          (stdin st) (trace st).
Definition set_messages (st : state) (v : list message) : state :=
  mkState (start st) (many st) (count st) (fail st) v (committed st)
          (stdin st) (trace st).
Definition set_stdin (st : state) (v : list str) : state :=
  mkState (start st) (many st) (count st) (fail st) (messages st)
          (committed st) v (trace st).
Definition emit (st : state) (e : event) : state :=
  mkState (start st) (many st) (count st) (fail st) (messages st)
          (committed st) (stdin st) (e :: trace st).

(** [conn.commit()] *)
Definition commit (st : state) : state :=
  mkState (start st) (many st) (count st) (fail st) (messages st)
          (messages st) (stdin st) (EvCommit :: trace st).

(** Lines 163-164, once the loop is left. *)
Definition shutdown (st : state) : state := commit st.

(** How one pass through the loop body ends. *)
Inductive control : Type :=
| Continue                      (* next iteration *)
| Break                         (* leaves the loop *)
| Uncaught.                     (* an exception nobody handles *)

(** [fail = fail + 1; if fail > 5 : break; continue] *)
Definition count_failure (st : state) : control * state :=
  let st := set_fail st (fail st + 1) in
  if fail st >? 5 then (Break, st) else (Continue, st).

(** Lines 66-70. *)
Definition ask_budget (st : state) : control * state :=
  if many st <? 1 then
    let st := commit st in
    match stdin st with
    | [] => (Uncaught, st)                        (* EOFError *)
    | sval :: rest =>
        let st := emit (set_stdin st rest) EvPrompt in
        if (List.length sval <? 1)%nat then (Break, st)
        else match py_int sval with
             | Some n => (Continue, set_many st n)
             | None => (Uncaught, st)             (* ValueError *)
             end
    end
  else (Continue, st).

(** Lines 160-161. *)
Definition housekeeping (st : state) : state :=
  let st := if count st mod 50 =? 0 then commit st else st in
  if count st mod 100 =? 0 then emit st EvSleep else st.

(** Lines 49-64: the state the loop starts in, where the query of line 50
    has returned; [boot] below has the other case. *)
Definition startup (tbl : list message) (console : list str) : state :=
  mkState (initial_start (select_max_id tbl)) 0 0 0 tbl tbl console [].

(** A table as the database holds it: its columns and its rows. An [id]
    column, where there is one, holds integers. *)
Record relation : Type := mkRelation {
  columns : table_def;
  rows : list message
}.

Definition column_eqb (a b : column) : bool :=
  match a, b with
  | Col_id, Col_id | Col_email, Col_email | Col_sent_at, Col_sent_at
  | Col_subject, Col_subject | Col_headers, Col_headers
  | Col_body, Col_body => true
  | _, _ => false
  end.

Definition has_column (c : column) (ddl : table_def) : bool :=
  existsb (fun d => column_eqb (fst (fst d)) c) ddl.

(** Lines 44-46: [CREATE TABLE IF NOT EXISTS messages ...] creates the table
    where the database has none of that name, and leaves a table of that
    name as it is. *)
Definition create_table_if_not_exists (db : option relation) : relation :=
  match db with
  | Some r => r
  | None => mkRelation messages_ddl []
  end.

(** Line 50: [cur.execute('SELECT max(id) FROM messages')]. The server
    refuses the statement on a table without a column [id], and the call
    raises. *)
Definition execute_select_max_id (r : relation)
  : outcome (fetched (option Z)) :=
  if has_column Col_id (columns r) then Returns (select_max_id (rows r))
  else Raises.

(** Lines 44-64 on the database [db]: the state the loop starts in, or
    [Raises] where line 50 raises: it stands outside the [try] of line 51,
    and nothing catches the error. *)
Definition boot (db : option relation) (console : list str) : outcome state :=
  let r := create_table_if_not_exists db in
  match execute_select_max_id r with
  | Returns row =>
      Returns (mkState (initial_start row) 0 0 0 (rows r) (rows r) console [])
  | Raises => Raises
  end.

(** The state once the retrieval of the identifier after the cursor is under
    way: cursor advanced, budget charged, address requested (lines 72-86). *)
Definition retrieving (st : state) : state :=
  emit (set_many (set_start st (start st + 1)) (many st - 1))
       (EvFetch (url_of (start st + 1))).

(** The state after [n] retrievals in a row that raised an error. *)
Fixpoint failed (n : nat) (st : state) : state :=
  match n with
  | O => st
  | S n' => failed n' (set_fail (retrieving st) (fail st + 1))
  end.

(* ================================================================== *)
(** ** What a run leaves in its trace *)

(** The addresses retrieved, the latest first. *)
Fixpoint fetches (tr : list event) : list str :=
  match tr with
  | EvFetch u :: tr' => u :: fetches tr'
  | _ :: tr' => fetches tr'
  | [] => []
  end.

(** How many times the console was read. *)
Fixpoint prompts (tr : list event) : nat :=
  match tr with
  | EvPrompt :: tr' => S (prompts tr')
  | _ :: tr' => prompts tr'
  | [] => O
  end.

(** Retrievals made so far. *)
Definition attempts (st : state) : Z := Z.of_nat (List.length (fetches (trace st))).

(** Rows whose identifier lies past the cursor [s]. *)
Definition rows_past (s : Z) (tbl : list message) : nat :=
  List.length (filter (fun r => s <? id r) tbl).

(** Identifiers in strictly increasing order, all of them above [lo]. *)
Fixpoint ascending (lo : Z) (l : list Z) : Prop :=
  match l with
  | [] => True
  | k :: l' => lo < k /\ ascending k l'
  end.

(* ================================================================== *)
(** ** Sample archives, parsers and states *)

(** A message as the archive serves it. *)
Definition sample_text : str :=
  py "From news Tue Mar  4 03:33:33 2003\nFrom: Name <Addr@Host>\nDate: Thu, 5 Jan 2006 12:00:00 -0500 (EST)\nSubject:  Hello World \nX-Mailer: none\n\nbody text\n".

Definition sample_hdr : str :=
  py "From news Tue Mar  4 03:33:33 2003\nFrom: Name <Addr@Host>\nDate: Thu, 5 Jan 2006 12:00:00 -0500 (EST)\nSubject:  Hello World \nX-Mailer: none".

Definition sample_body : str := py "body text\n".

(** An archive that serves the sample message at every address. *)
Definition archive_up : str -> response :=
  fun _ => Answer 200 (Some sample_text).

(** An archive no request reaches. *)
Definition archive_down : str -> response :=
  fun _ => NoAnswer.

(** An archive that answers every request with a page and status 404. *)
Definition archive_not_found : str -> response :=
  fun _ => Answer 404 (Some (py "Not Found")).

(** An archive that answers every request with status 204 and no content. *)
Definition archive_no_content : str -> response :=
  fun _ => Answer 204 (Some []).

(** An archive that answers every request with status 204 and a body that
    is no UTF-8. *)
Definition archive_garbled : str -> response :=
  fun _ => Answer 204 None.

(** An archive that answers with a page that is no message. *)
Definition archive_busy : str -> response :=
  fun _ => Answer 200 (Some (py "<html>busy</html>")).

(** A user who stops the first retrieval from the keyboard. *)
Definition archive_interrupted : str -> response :=
  fun _ => Interrupt.

(** An archive that is down for identifiers 1 to 5 and up from 6 on. *)
Definition archive_back_at_6 : str -> response :=
  fun u =>
    if existsb (fun k => str_eqb u (url_of k)) [1; 2; 3; 4; 5]
    then NoAnswer else Answer 200 (Some sample_text).

(** dateutil missing, or rejecting every text. *)
Definition dateutil_rejects : str -> outcome str := fun _ => Raises.

(** A first parser that accepts every text as it is. *)
Definition dateutil_accepts : str -> outcome str := fun s => Returns s.

(** A second parser that raises on every text. *)
Definition datecompat_rejects : str -> outcome (option str) := fun _ => Raises.

(** The state after the first prompt was answered with [reply]. *)
Definition session_of (tbl : list message) (reply : string) : state :=
  snd (ask_budget (startup tbl [py reply])).

Definition stored (k : Z) : message := mkMessage k None None None [] [].

(** A state left by a start-up whose query failed: the cursor at 0 over a
    table that holds identifiers 1 and 2, with a budget of 2. *)
Definition behind_the_table : state :=
  mkState 0 2 0 0 [stored 1; stored 2] [stored 1; stored 2] [] [].

(* ================================================================== *)
(** ** The loop *)

Section Harvester.

Set Default Proof Using "Type".

(** The archive: how it responds at each address. *)
Variable archive : str -> response.
(** [parser.parse(s).isoformat()] of dateutil. *)
Variable dateutil_parse : str -> outcome str.
(** [datecompat.parsemaildate], a module the script imports. *)
Variable datecompat_parsemaildate : str -> outcome (option str).

(** Lines 86-87 for the address [url]. *)
Definition urlopen (url : str) : fetch_outcome := retrieve (archive url).

(** Lines 24-30. The function reads the global [tdate] for the first parser
    and its argument [md] for the second. *)
Definition parsemaildate (tdate md : str) : outcome (option str) :=
  match dateutil_parse tdate with
  | Returns test_at => Returns (Some test_at)
  | Raises => datecompat_parsemaildate md
  end.

(** Lines 136-148: [sent_at], or [Raises] when line 143 catches. *)
Definition extract_sent_at (hdr : str) : outcome (option str) :=
  match extract_tdate hdr with
  | Some tdate => parsemaildate tdate tdate
  | None => Returns None
  end.

(** Lines 102-161: a document that came back with status 200. In the last
    case the INSERT is taken by the database; see [execute_insert]. *)
Definition process (st : state) (text : str) : control * state :=
  let st := set_count st (count st + 1) in
  match split_message text with
  | NoMarker => count_failure st
  | NoBoundary => count_failure st
  | Split hdr body =>
      let email := extract_email hdr in
      match extract_sent_at hdr with
      | Raises => count_failure st
      | Returns sent_at =>
          let subject := extract_subject hdr in
          let st := set_fail st 0 in
          let st :=
            set_messages st
              (execute_insert (messages st)
                 (mkMessage (start st) email sent_at subject hdr body)) in
          (Continue, housekeeping st)
      end
  end.

(** Lines 80-100: the retrieval of message [start st]. *)
Definition attempt (st : state) : control * state :=
  let st := set_many st (many st - 1) in
  let url := url_of (start st) in
  let st := emit st (EvFetch url) in
  match urlopen url with
  | Document text status =>
      if negb (status =? 200) then (Break, st) else process st text
  | KeyboardInterrupt => (Break, st)
  | FetchException => count_failure st
  end.

(** Lines 72-78: advance the cursor; go on unless that row is stored. *)
Definition advance (st : state) : control * state :=
  let st := set_start st (start st + 1) in
  match select_id (messages st) (start st) with
  | Row _ => (Continue, st)             (* row is not None: continue *)
  | NoRow => attempt st
  | FetchRaises => attempt st           (* except: row = None *)
  end.

(** One pass through the body of [while True] (lines 66-161). *)
Definition iteration (st : state) : control * state :=
  match ask_budget st with
  | (Continue, st) => advance st
  | stop => stop
  end.

(** At most [n] passes: the state where the loop stands after them, with
    [Continue] when it is still running. *)
Fixpoint iterate (n : nat) (st : state) : control * state :=
  match n with
  | O => (Continue, st)
  | S n' =>
      match iteration st with
      | (Continue, st') => iterate n' st'
      | stop => stop
      end
  end.

(** Brings concatenations to the right-nested form. *)
Ltac flatten_app :=
  repeat first [rewrite <- app_assoc | rewrite <- app_comm_cons];
  cbn [app chars list_ascii_of_string].

(** Brings the fields of a state built step by step into view. *)
Ltac look :=
  cbn [start many count fail messages committed stdin trace
       set_start set_many set_count set_fail set_messages set_stdin
       emit commit retrieving fetches prompts].

(* ================================================================== *)
(** ** Facts about the table *)

Lemma filter_app_id (k : Z) (a b : list message) :
  filter (fun r => id r =? k) (a ++ b)
  = filter (fun r => id r =? k) a ++ filter (fun r => id r =? k) b.
Proof.
  induction a as [|r a IH]; simpl; [reflexivity|].
  destruct (id r =? k); simpl; now rewrite IH.
Qed.

Lemma unique_columns_messages : unique_columns messages_ddl = [].
Proof. reflexivity. Qed.

Lemma no_conflict_in_messages (e r : message) : conflicts messages_ddl e r = false.
Proof. reflexivity. Qed.

(** On the table the script creates, the INSERT always adds its row. *)
Lemma execute_insert_appends (tbl : list message) (r : message) :
  execute_insert tbl r = tbl ++ [r].
Proof.
  unfold execute_insert, insert_on_conflict_do_nothing.
  replace (existsb (fun e => conflicts messages_ddl e r) tbl) with false;
    [reflexivity|].
  symmetry. induction tbl as [|e tbl IH]; [reflexivity|].
  cbn [existsb]. now rewrite no_conflict_in_messages.
Qed.

(** Had [id] been declared PRIMARY KEY, the same INSERT would leave a table
    that holds the identifier as it is. *)
Lemma insert_with_key_keeps_first (tbl : list message) (r : message) :
  In (id r) (ids tbl) ->
  insert_on_conflict_do_nothing [(Col_id, SERIAL, [PRIMARY_KEY])] tbl r = tbl.
Proof.
  intros Hin. unfold insert_on_conflict_do_nothing.
  replace (existsb _ tbl) with true; [reflexivity|].
  symmetry. apply existsb_exists.
  unfold ids in Hin. apply in_map_iff in Hin. destruct Hin as [e [He Hin]].
  exists e. split; [assumption|].
  unfold conflicts. simpl. rewrite He, Z.eqb_refl. reflexivity.
Qed.

Lemma rows_with_id_app (k : Z) (a b : list message) :
  rows_with_id k (a ++ b) = (rows_with_id k a + rows_with_id k b)%nat.
Proof. unfold rows_with_id. now rewrite filter_app_id, length_app. Qed.

Lemma rows_with_id_pos (k : Z) (tbl : list message) :
  In k (ids tbl) <-> (0 < rows_with_id k tbl)%nat.
Proof.
  unfold rows_with_id, ids. induction tbl as [|r tbl IH]; simpl.
  - split; [tauto | lia].
  - destruct (Z.eqb_spec (id r) k) as [E|E]; simpl.
    + split; [lia | auto].
    + rewrite <- IH. split; [intros [H|H]; [contradiction | assumption] | auto].
Qed.

Lemma select_id_present (tbl : list message) (k : Z) :
  In k (ids tbl) -> select_id tbl k = Row k.
Proof.
  intros H. apply rows_with_id_pos in H. unfold rows_with_id in H.
  unfold select_id.
  destruct (filter (fun r => id r =? k) tbl) as [|r l] eqn:E; simpl in H; [lia|].
  assert (Hr : In r (filter (fun r => id r =? k) tbl)) by (rewrite E; now left).
  apply filter_In in Hr. destruct Hr as [_ Hr]. apply Z.eqb_eq in Hr.
  now rewrite Hr.
Qed.

Lemma select_id_absent (tbl : list message) (k : Z) :
  ~ In k (ids tbl) -> select_id tbl k = NoRow.
Proof.
  intros H. unfold select_id.
  destruct (filter (fun r => id r =? k) tbl) as [|r l] eqn:E; [reflexivity|].
  exfalso. apply H. apply rows_with_id_pos. unfold rows_with_id.
  rewrite E. simpl. lia.
Qed.

Lemma select_id_returns (tbl : list message) (k : Z) :
  select_id tbl k <> FetchRaises.
Proof. unfold select_id. destruct (filter _ tbl); discriminate. Qed.

Lemma sql_max_none (l : list Z) : sql_max l = None <-> l = [].
Proof.
  destruct l as [|z l]; simpl; [tauto|].
  destruct (sql_max l); split; discriminate.
Qed.

Lemma sql_max_is_max (l : list Z) (m : Z) :
  sql_max l = Some m -> In m l /\ forall k, In k l -> k <= m.
Proof.
  revert m. induction l as [|z l IH]; simpl; intros m H; [discriminate|].
  destruct (sql_max l) as [m'|] eqn:E.
  - injection H as <-. destruct (IH m' eq_refl) as [Hin Hle]. split.
    + destruct (Z.max_spec z m') as [[_ ->]|[_ ->]]; auto.
    + intros k [<-|Hk]; [lia|]. specialize (Hle k Hk). lia.
  - injection H as <-. apply sql_max_none in E. subst l. split; [now left|].
    intros k [<-|[]]. lia.
Qed.

(** The cursor the script resumes from. *)
Lemma initial_start_empty : initial_start (select_max_id []) = 0.
Proof. reflexivity. Qed.

Lemma initial_start_max (tbl : list message) :
  tbl <> [] ->
  In (initial_start (select_max_id tbl)) (ids tbl)
  /\ forall k, In k (ids tbl) -> k <= initial_start (select_max_id tbl).
Proof.
  intros Hne. unfold select_max_id, initial_start.
  destruct (sql_max (ids tbl)) as [m|] eqn:E.
  - now apply sql_max_is_max.
  - apply sql_max_none in E. unfold ids in E. apply map_eq_nil in E.
    contradiction.
Qed.

Lemma next_of_cursor_is_absent (tbl : list message) :
  ~ In (initial_start (select_max_id tbl) + 1) (ids tbl).
Proof.
  destruct tbl as [|r tbl]; [simpl; tauto|].
  intros H. apply (initial_start_max (r :: tbl)) in H; [lia | discriminate].
Qed.

(* ================================================================== *)
(** ** Facts about addresses *)

Lemma chars_inj (s t : string) : chars s = chars t -> s = t.
Proof.
  intros H. rewrite <- (string_of_list_ascii_of_string s).
  rewrite <- (string_of_list_ascii_of_string t).
  unfold chars in H. now rewrite H.
Qed.

Lemma to_int_proper (z : Z) :
  Z.to_int z <> Decimal.Pos Decimal.Nil /\ Z.to_int z <> Decimal.Neg Decimal.Nil.
Proof.
  destruct z as [|p|p]; simpl; split; try discriminate;
    intros [= H]; now apply (DecimalPos.Unsigned.to_uint_nonnil p).
Qed.

Lemma str_of_int_inj (a b : Z) : str_of_int a = str_of_int b -> a = b.
Proof.
  intros H. apply chars_inj in H.
  apply DecimalZ.to_int_inj.
  destruct (to_int_proper a) as [Ha1 Ha2], (to_int_proper b) as [Hb1 Hb2].
  assert (E : Some (Z.to_int a) = Some (Z.to_int b)).
  { rewrite <- (NilZero.isi (Z.to_int a)), <- (NilZero.isi (Z.to_int b)) by assumption.
    now rewrite H. }
  now injection E.
Qed.

Lemma uint_has_no_slash (d : Decimal.uint) :
  ~ In "/"%char (chars (NilEmpty.string_of_uint d)).
Proof.
  induction d; simpl; intros H; try contradiction;
    destruct H as [H|H]; try discriminate; auto.
Qed.

Lemma str_of_int_has_no_slash (z : Z) : ~ In "/"%char (str_of_int z).
Proof.
  unfold str_of_int.
  assert (U : forall d, ~ In "/"%char (chars (NilZero.string_of_uint d))).
  { intros d. destruct d; try apply uint_has_no_slash.
    simpl. intros [H|[]]. discriminate. }
  destruct (Z.to_int z) as [d|d]; simpl.
  - apply U.
  - intros [H|H]; [discriminate | now apply (U d)].
Qed.

Lemma split_at_slash (a b x y : str) :
  ~ In "/"%char a -> ~ In "/"%char b ->
  a ++ "/"%char :: x = b ++ "/"%char :: y -> a = b.
Proof.
  revert b. induction a as [|c a IH]; intros [|d b] Ha Hb E;
    simpl in Ha, Hb, E |- *.
  - reflexivity.
  - injection E as E _. exfalso. apply Hb. now left.
  - injection E as E _. exfalso. apply Ha. now left.
  - injection E as -> E. f_equal. apply IH; auto.
Qed.

(** Two identifiers never share a retrieval address. *)
Lemma url_of_inj (a b : Z) : url_of a = url_of b -> a = b.
Proof.
  unfold url_of. intros H. apply app_inv_head in H.
  change (py "/") with ["/"%char] in H. simpl in H.
  apply str_of_int_inj.
  eapply split_at_slash; eauto using str_of_int_has_no_slash.
Qed.

(* ================================================================== *)
(** ** The matcher and the matches *)

Lemma greedy_sound {R : Type} (f : nat -> option R) (lo n : nat) (r : R) :
  greedy f lo n = Some r -> exists k, (lo <= k <= n)%nat /\ f k = Some r.
Proof.
  induction n as [|n IH]; cbn [greedy].
  - destruct (Nat.ltb_spec 0 lo) as [L|L]; [discriminate|].
    destruct (f O) eqn:E; [|discriminate].
    intros [= <-]. exists O. split; [lia | assumption].
  - destruct (Nat.ltb_spec (S n) lo) as [L|L]; [discriminate|].
    destruct (f (S n)) eqn:E.
    + intros [= <-]. exists (S n). split; [lia | assumption].
    + intros G. destruct (IH G) as (k & Hk & Hf). exists k. split; [lia | assumption].
Qed.

Lemma greedy_complete {R : Type} (f : nat -> option R) (lo n : nat) :
  greedy f lo n = None -> forall k, (lo <= k <= n)%nat -> f k = None.
Proof.
  induction n as [|n IH]; cbn [greedy]; intros G k Hk.
  - destruct (Nat.ltb_spec 0 lo) as [L|L]; [lia|].
    destruct (f O) eqn:E; [discriminate|].
    now replace k with O by lia.
  - destruct (Nat.ltb_spec (S n) lo) as [L|L]; [lia|].
    destruct (f (S n)) eqn:E; [discriminate|].
    destruct (Nat.eq_dec k (S n)) as [->|Hne]; [assumption|].
    apply IH; [assumption | lia].
Qed.

(** The matcher finds only matches. *)
Lemma match_here_sound (p : pattern) :
  forall s opened grp res,
    match_here p s opened grp = Some res -> Matches p s opened grp res.
Proof.
  induction p as [|[c|c|c| |] p IH]; intros s opened grp res H;
    cbn [match_here Matches] in H |- *.
  - now injection H as <-.
  - destruct s as [|a s']; [discriminate|].
    destruct (cmatch c a) eqn:E; [|discriminate].
    exists a, s'. auto.
  - apply greedy_sound in H. destruct H as (k & Hk & Hf).
    exists k. split; [lia | auto].
  - apply greedy_sound in H. destruct H as (k & Hk & Hf).
    exists k. split; [lia | auto].
  - auto.
  - auto.
Qed.

(** Where there is a match the matcher finds one. *)
Lemma match_here_complete (p : pattern) :
  forall s opened grp res,
    Matches p s opened grp res -> match_here p s opened grp <> None.
Proof.
  induction p as [|[c|c|c| |] p IH]; intros s opened grp res H;
    cbn [match_here Matches] in H |- *.
  - discriminate.
  - destruct H as (a & s' & -> & Hc & Hm). rewrite Hc. eauto.
  - destruct H as (n & Hn & Hm). intros G.
    apply (IH _ _ _ _ Hm). apply (greedy_complete _ _ _ G). lia.
  - destruct H as (n & Hn & Hm). intros G.
    apply (IH _ _ _ _ Hm). apply (greedy_complete _ _ _ G). lia.
  - eauto.
  - eauto.
Qed.

(** When all the matches of [p] at [s] agree, the matcher returns that one. *)
Lemma match_here_decided (p : pattern) (s opened grp : str) (res : str * str) :
  Matches p s opened grp res ->
  (forall res', Matches p s opened grp res' -> res' = res) ->
  match_here p s opened grp = Some res.
Proof.
  intros Hm Hu. destruct (match_here p s opened grp) as [res'|] eqn:E.
  - f_equal. apply Hu. now apply match_here_sound.
  - exfalso. now apply (match_here_complete _ _ _ _ _ Hm).
Qed.

Lemma match_here_fails (p : pattern) (s opened grp : str) :
  (forall res, ~ Matches p s opened grp res) ->
  match_here p s opened grp = None.
Proof.
  intros Hn. destruct (match_here p s opened grp) as [res|] eqn:E; [|reflexivity].
  exfalso. apply (Hn res). now apply match_here_sound.
Qed.

Lemma startswith_app (l s : str) : startswith (l ++ s) l = true.
Proof.
  induction l as [|a l IH]; [reflexivity|]. simpl.
  now rewrite Ascii.eqb_refl, IH.
Qed.

Lemma startswith_split (s l : str) :
  startswith s l = true -> exists s', s = l ++ s'.
Proof.
  revert s. induction l as [|b l IH]; intros s H.
  - now exists s.
  - destruct s as [|a s]; [discriminate|]. simpl in H.
    apply andb_true_iff in H. destruct H as [E H].
    apply Ascii.eqb_eq in E. subst b.
    destruct (IH _ H) as [s' ->]. now exists s'.
Qed.

Lemma Matches_lits (l : str) (p : pattern) (s opened grp : str) (res : str * str) :
  Matches (lits l ++ p) s opened grp res
  <-> exists s', s = l ++ s' /\ Matches p s' opened grp res.
Proof.
  revert s. induction l as [|b l IH]; intros s.
  - simpl. split; [intros H; now exists s | now intros (s' & -> & H)].
  - cbn [lits map app Matches]. split.
    + intros (a & s' & -> & Hc & Hm). simpl in Hc. apply Ascii.eqb_eq in Hc.
      subst a. apply IH in Hm. destruct Hm as (s'' & -> & Hm).
      exists s''. auto.
    + intros (s' & -> & Hm). exists b, (l ++ s'). repeat split.
      * simpl. apply Ascii.eqb_refl.
      * apply IH. now exists s'.
Qed.

Lemma span_prefix (c : cclass) (s : str) (n : nat) :
  (n <= span c s)%nat ->
  all_in c (firstn n s) /\ List.length (firstn n s) = n.
Proof.
  revert n. induction s as [|a s IH]; intros n H; simpl in H.
  - replace n with O by lia. split; [constructor | reflexivity].
  - destruct n as [|n]; [split; [constructor | reflexivity]|].
    destruct (cmatch c a) eqn:E; [|lia].
    destruct (IH n ltac:(lia)) as [I1 I2]. simpl. split.
    + now constructor.
    + now rewrite I2.
Qed.

Lemma span_app (c : cclass) (x s : str) :
  all_in c x -> (List.length x <= span c (x ++ s))%nat.
Proof.
  induction 1 as [|a x Ha Hx IH]; simpl; [lia|]. rewrite Ha. lia.
Qed.

Lemma Matches_star (c : cclass) (p : pattern) (s opened grp : str) (res : str * str) :
  Matches (Star c :: p) s opened grp res
  <-> exists x s', s = x ++ s' /\ all_in c x /\ Matches p s' opened grp res.
Proof.
  cbn [Matches]. split.
  - intros (n & Hn & Hm). destruct (span_prefix _ _ _ Hn) as [Ha _].
    exists (firstn n s), (skipn n s). now rewrite firstn_skipn.
  - intros (x & s' & -> & Ha & Hm). exists (List.length x). split.
    + now apply span_app.
    + now rewrite skipn_app, skipn_all, Nat.sub_diag.
Qed.

Lemma Matches_plus (c : cclass) (p : pattern) (s opened grp : str) (res : str * str) :
  Matches (Plus c :: p) s opened grp res
  <-> exists x s', s = x ++ s' /\ x <> [] /\ all_in c x
                   /\ Matches p s' opened grp res.
Proof.
  cbn [Matches]. split.
  - intros (n & Hn & Hm). destruct (span_prefix c s n ltac:(lia)) as [Ha Hl].
    exists (firstn n s), (skipn n s). rewrite firstn_skipn.
    repeat split; auto. intros E. rewrite E in Hl. simpl in Hl. lia.
  - intros (x & s' & -> & Hx & Ha & Hm). exists (List.length x). split.
    + split; [destruct x; [contradiction | simpl; lia] | now apply span_app].
    + now rewrite skipn_app, skipn_all, Nat.sub_diag.
Qed.

(* ================================================================== *)
(** ** The scan of [findall] *)

Lemma scan_drop (p : pattern) (a b : str) :
  scan p (a ++ b) (List.length a) = scan p b O.
Proof. induction a as [|x a IH]; [reflexivity | exact IH]. Qed.

Lemma scan_miss (p : pattern) (x : ascii) (s : str) :
  re_match p (x :: s) = None -> scan p (x :: s) O = scan p s O.
Proof. intros H. cbn [scan]. now rewrite H. Qed.

Lemma scan_hit (p : pattern) (x : ascii) (m r g : str) :
  re_match p (x :: m ++ r) = Some (g, r) ->
  scan p (x :: m ++ r) O = g :: scan p r O.
Proof.
  intros H. cbn [scan]. rewrite H. f_equal.
  replace (Nat.pred (List.length (x :: m ++ r) - List.length r))
    with (List.length m).
  - apply scan_drop.
  - cbn [List.length]. rewrite length_app. lia.
Qed.

Lemma scan_prefix_miss (p : pattern) (a b : str) :
  (forall i, (i < List.length a)%nat -> re_match p (skipn i (a ++ b)) = None) ->
  scan p (a ++ b) O = scan p b O.
Proof.
  induction a as [|x a IH]; intros H; [reflexivity|].
  change ((x :: a) ++ b) with (x :: a ++ b).
  rewrite scan_miss.
  - apply IH. intros i Hi. apply (H (S i)). simpl. lia.
  - apply (H O). simpl. lia.
Qed.

Lemma scan_all_miss (p : pattern) (s : str) :
  (forall i, re_match p (skipn i s) = None) -> scan p s O = [].
Proof.
  induction s as [|x s IH]; intros H.
  - pose proof (H O) as H0. cbn [skipn] in H0. cbn [scan]. now rewrite H0.
  - rewrite scan_miss by apply (H O). apply IH.
    intros i. apply (H (S i)).
Qed.

Lemma occurrences_from_spec (sub s : str) :
  forall k i,
    In i (occurrences_from sub s k)
    <-> exists j, i = (k + j)%nat /\ (j <= List.length s)%nat
                  /\ startswith (skipn j s) sub = true.
Proof.
  induction s as [|a s IH]; intros k i; cbn [occurrences_from].
  - rewrite app_nil_r. destruct (startswith [] sub) eqn:E; simpl.
    + split.
      * intros [<-|[]]. exists O. repeat split; auto; lia.
      * intros (j & -> & Hj & _). left. lia.
    + split; [intros []|]. intros (j & _ & Hj & Hs).
      replace j with O in Hs by lia. simpl in Hs. rewrite E in Hs.
      discriminate Hs.
  - rewrite in_app_iff, IH. split.
    + intros [H|(j & -> & Hj & Hs)].
      * destruct (startswith (a :: s) sub) eqn:E; [|contradiction].
        destruct H as [<-|[]]. exists O. repeat split; auto; simpl; lia.
      * exists (S j). repeat split; auto; simpl; lia.
    + intros (j & -> & Hj & Hs). destruct j as [|j].
      * left. simpl in Hs. rewrite Hs. left. lia.
      * right. exists j. simpl in Hj, Hs. repeat split; auto; lia.
Qed.

(** When [sub] occurs once, it occurs at no other index. *)
Lemma occurrences_only (sub s : str) (n : nat) :
  sub <> [] ->
  occurrences sub s = [n] ->
  forall i, i <> n -> startswith (skipn i s) sub = false.
Proof.
  intros Hne H i Hi.
  destruct (startswith (skipn i s) sub) eqn:E; [|reflexivity]. exfalso.
  destruct (Nat.le_gt_cases i (List.length s)) as [L|L].
  - assert (Hin : In i (occurrences sub s)).
    { apply occurrences_from_spec. exists i. auto. }
    rewrite H in Hin. destruct Hin as [<-|[]]. now apply Hi.
  - rewrite skipn_all2 in E by lia. destruct sub; [now apply Hne | discriminate].
Qed.

Lemma occurrences_none (sub s : str) :
  occurrences sub s = [] ->
  forall i, startswith (skipn i s) sub = false.
Proof.
  intros H i.
  destruct (startswith (skipn i s) sub) eqn:E; [|reflexivity]. exfalso.
  destruct (Nat.le_gt_cases i (List.length s)) as [L|L].
  - assert (Hin : In i (occurrences sub s)).
    { apply occurrences_from_spec. exists i. auto. }
    now rewrite H in Hin.
  - rewrite skipn_all2 in E by lia.
    assert (Hin : In (List.length s) (occurrences sub s)).
    { apply occurrences_from_spec. exists (List.length s).
      rewrite skipn_all. auto. }
    now rewrite H in Hin.
Qed.

(** A pattern that begins with literal text matches only where that text
    stands. *)
Lemma re_match_needs_lits (l : str) (p : pattern) (s : str) :
  startswith s l = false -> re_match (lits l ++ p) s = None.
Proof.
  intros H. apply match_here_fails. intros res Hm.
  apply Matches_lits in Hm. destruct Hm as (s' & -> & _).
  now rewrite startswith_app in H.
Qed.

(** The same for a pattern that begins with one character of a class and
    then literal text. *)
Lemma re_match_needs_lits_after (c : cclass) (l : str) (p : pattern) (s : str) :
  startswith (skipn 1 s) l = false ->
  re_match (One c :: lits l ++ p) s = None.
Proof.
  intros H. apply match_here_fails. intros res Hm. cbn [Matches] in Hm.
  destruct Hm as (a & s' & -> & _ & Hm).
  apply Matches_lits in Hm. destruct Hm as (s'' & -> & _).
  simpl in H. now rewrite startswith_app in H.
Qed.

(* ================================================================== *)
(** ** Cutting a text at a character *)

Lemma split_at_first (c : ascii) (a b x y : str) :
  ~ In c a -> ~ In c b ->
  a ++ c :: x = b ++ c :: y -> a = b /\ x = y.
Proof.
  revert b. induction a as [|d a IH]; intros [|e b] Ha Hb E;
    simpl in Ha, Hb, E |- *.
  - injection E as E. auto.
  - injection E as E _. exfalso. apply Hb. now left.
  - injection E as E _. exfalso. apply Ha. now left.
  - injection E as -> E. destruct (IH b) as [-> ->]; auto.
Qed.

Lemma split_at_last (c : ascii) (a b x y : str) :
  ~ In c x -> ~ In c y ->
  a ++ c :: x = b ++ c :: y -> a = b /\ x = y.
Proof.
  intros Hx Hy E. apply (f_equal (@rev ascii)) in E.
  rewrite !rev_app_distr in E. simpl in E. rewrite <- !app_assoc in E.
  simpl in E. apply split_at_first in E.
  - destruct E as [E1 E2]. split.
    + rewrite <- (rev_involutive a), <- (rev_involutive b). now rewrite E2.
    + rewrite <- (rev_involutive x), <- (rev_involutive y). now rewrite E1.
  - now rewrite <- in_rev.
  - now rewrite <- in_rev.
Qed.

Lemma all_in_app (c : cclass) (x y : str) :
  all_in c (x ++ y) <-> all_in c x /\ all_in c y.
Proof. apply Forall_app. Qed.

Lemma all_in_not (c : cclass) (x : str) (a : ascii) :
  all_in c x -> cmatch c a = false -> ~ In a x.
Proof.
  intros H Ha Hin. unfold all_in in H. rewrite Forall_forall in H.
  specialize (H _ Hin). rewrite Ha in H. discriminate H.
Qed.

Lemma dot_iff_no_newline (x : str) : all_in CDot x <-> ~ In LF x.
Proof.
  unfold all_in. rewrite Forall_forall. split.
  - intros H Hin. specialize (H _ Hin). discriminate H.
  - intros H a Hin. simpl. destruct (Ascii.eqb_spec a LF) as [->|]; auto.
Qed.

Lemma nonspace_is_dot (x : str) : all_in CNonSpace x -> all_in CDot x.
Proof.
  intros H. apply dot_iff_no_newline. now apply (all_in_not _ _ _ H).
Qed.

Lemma cons_eq (a b : ascii) (x y : str) : a :: x = b :: y -> a = b /\ x = y.
Proof. now intros [= -> ->]. Qed.

Lemma firstn_exact (x y : str) :
  firstn (List.length (x ++ y) - List.length y) (x ++ y) = x.
Proof.
  rewrite length_app, Nat.add_sub. rewrite firstn_app, Nat.sub_diag.
  simpl. now rewrite firstn_all, app_nil_r.
Qed.

(* ================================================================== *)
(** ** The three patterns of the script *)

Lemma subject_pattern_eq :
  re_compile (py "\Subject: (.*)\n")
  = One CNonSpace :: lits subject_key ++ rest_of_line.
Proof. reflexivity. Qed.

Lemma date_pattern_eq :
  re_compile (py "\Date: .*, (.*)\n")
  = One CNonDigit :: lits date_key ++ Star CDot :: lits (chars ", ")
    ++ rest_of_line.
Proof. reflexivity. Qed.

Lemma named_pattern_eq :
  re_compile (py "\nFrom: .* <(\S+@\S+)>\n")
  = lits from_key ++ Star CDot :: lits (chars " <")
    ++ Open :: Plus CNonSpace :: One (CLit "@") :: Plus CNonSpace
    :: Close :: lits [">"%char; LF].
Proof. reflexivity. Qed.

Lemma bare_pattern_eq :
  re_compile (py "\nFrom: (\S+@\S+)\n")
  = lits from_key ++ Open :: Plus CNonSpace :: One (CLit "@")
    :: Plus CNonSpace :: Close :: lits [LF].
Proof. reflexivity. Qed.

(** The end of such a pattern takes the text up to the first line feed as
    its group. *)
Lemma Matches_rest_of_line (s opened grp : str) (res : str * str) :
  Matches rest_of_line s opened grp res
  <-> exists v post, s = v ++ LF :: post /\ all_in CDot v /\ res = (v, post).
Proof.
  unfold rest_of_line.
  change (Matches [Open; Star CDot; Close; One (CLit LF)] s opened grp res)
    with (Matches [Star CDot; Close; One (CLit LF)] s s grp res).
  rewrite Matches_star. split.
  - intros (x & s' & -> & Hx & Hm). cbn [Matches] in Hm.
    destruct Hm as (a & s'' & -> & Ha & ->). simpl in Ha.
    apply Ascii.eqb_eq in Ha. subst a. exists x, s''.
    rewrite firstn_exact. auto.
  - intros (v & post & -> & Hv & ->). exists v, (LF :: post).
    repeat split; auto. cbn [Matches]. exists LF, post.
    rewrite firstn_exact. repeat split.
Qed.

Lemma rest_of_line_unique (v v' post post' : str) :
  all_in CDot v -> all_in CDot v' ->
  v ++ LF :: post = v' ++ LF :: post' -> v = v' /\ post = post'.
Proof.
  intros Hv Hv'. apply split_at_first; now apply dot_iff_no_newline.
Qed.

(** The Subject pattern at a line [?ubject: v], followed by a line feed. *)
Lemma re_match_subject_line (c : ascii) (v post : str) :
  cmatch CNonSpace c = true -> all_in CDot v ->
  re_match (re_compile (py "\Subject: (.*)\n"))
           (c :: subject_key ++ v ++ LF :: post)
  = Some (v, post).
Proof.
  intros Hc Hv. rewrite subject_pattern_eq. unfold re_match.
  apply match_here_decided.
  - cbn [Matches]. exists c, (subject_key ++ v ++ LF :: post).
    repeat split; auto. apply Matches_lits. exists (v ++ LF :: post).
    split; auto. apply Matches_rest_of_line. exists v, post. auto.
  - intros res' Hm. cbn [Matches] in Hm.
    destruct Hm as (a & s' & E & _ & Hm).
    apply cons_eq in E. destruct E as [<- <-].
    apply Matches_lits in Hm. destruct Hm as (s'' & E & Hm).
    apply app_inv_head in E. subst s''.
    apply Matches_rest_of_line in Hm. destruct Hm as (v' & post' & E & Hv' & ->).
    destruct (rest_of_line_unique _ _ _ _ Hv Hv' E) as [-> ->]. reflexivity.
Qed.

Lemma skipn_past (a b : str) (i : nat) :
  skipn (List.length a + i) (a ++ b) = skipn i b.
Proof.
  rewrite skipn_app. rewrite skipn_all2 by lia.
  simpl. f_equal. lia.
Qed.

(** A header block that holds the text [ubject: ] once, after a character
    that is no blank and before a line feed, yields that line's value. *)
Lemma findall_subject_line (pre post v : str) (c : ascii) :
  cmatch CNonSpace c = true -> all_in CDot v ->
  occurrences subject_key (pre ++ c :: subject_key ++ v ++ LF :: post)
  = [S (List.length pre)] ->
  findall "\Subject: (.*)\n" (pre ++ c :: subject_key ++ v ++ LF :: post)
  = [v].
Proof.
  intros Hc Hv Hocc. unfold findall.
  pose proof (occurrences_only subject_key _ _ ltac:(discriminate) Hocc) as Only.
  rewrite scan_prefix_miss.
  - replace (subject_key ++ v ++ LF :: post)
      with ((subject_key ++ v ++ [LF]) ++ post)
      by (now rewrite <- !app_assoc).
    rewrite (scan_hit _ c (subject_key ++ v ++ [LF]) post v).
    + f_equal. apply scan_all_miss. intros i.
      rewrite subject_pattern_eq. apply re_match_needs_lits_after.
      rewrite skipn_skipn.
      replace (skipn (1 + i) post)
        with (skipn (List.length (pre ++ c :: subject_key ++ v ++ [LF]) + (1 + i))
                    ((pre ++ c :: subject_key ++ v ++ [LF]) ++ post))
        by apply skipn_past.
      replace ((pre ++ c :: subject_key ++ v ++ [LF]) ++ post)
        with (pre ++ c :: subject_key ++ v ++ LF :: post)
        by (rewrite <- !app_assoc; simpl; now rewrite <- !app_assoc).
      apply Only. rewrite !length_app. simpl. rewrite !length_app. simpl. lia.
    + rewrite <- !app_assoc. simpl. now apply re_match_subject_line.
  - intros i Hi. rewrite subject_pattern_eq. apply re_match_needs_lits_after.
    rewrite skipn_skipn. apply Only. lia.
Qed.

(** A header block without the text [ubject: ] has no Subject match. *)
Lemma findall_subject_none (hdr : str) :
  occurrences subject_key hdr = [] ->
  findall "\Subject: (.*)\n" hdr = [].
Proof.
  intros Hocc. unfold findall. apply scan_all_miss. intros i.
  rewrite subject_pattern_eq. apply re_match_needs_lits_after.
  rewrite skipn_skipn. now apply occurrences_none.
Qed.

Lemma split_at_only (c : ascii) (w v x v' : str) :
  ~ In c w -> ~ In c v ->
  w ++ c :: v = x ++ c :: v' -> w = x /\ v = v'.
Proof.
  intros Hw Hv E.
  assert (Hx : ~ In c x).
  { apply (count_occ_not_In ascii_dec).
    apply (f_equal (fun l => count_occ ascii_dec l c)) in E.
    rewrite !count_occ_app, !count_occ_cons_eq in E by reflexivity.
    apply (count_occ_not_In ascii_dec) in Hw, Hv. lia. }
  now apply (split_at_first c).
Qed.

(** The Date pattern at a line [?ate: w, v] whose only comma is the one
    after the weekday, followed by a line feed. *)
Lemma re_match_date_line (c : ascii) (w v post : str) :
  cmatch CNonDigit c = true ->
  all_in CDot w -> all_in CDot v ->
  ~ In ","%char w -> ~ In ","%char v ->
  re_match (re_compile (py "\Date: .*, (.*)\n"))
           (c :: date_key ++ w ++ chars ", " ++ v ++ LF :: post)
  = Some (v, post).
Proof.
  intros Hc Hw Hv Cw Cv. rewrite date_pattern_eq. unfold re_match.
  apply match_here_decided.
  - cbn [Matches]. exists c, (date_key ++ w ++ chars ", " ++ v ++ LF :: post).
    repeat split; auto. apply Matches_lits.
    exists (w ++ chars ", " ++ v ++ LF :: post). split; auto.
    apply Matches_star. exists w, (chars ", " ++ v ++ LF :: post).
    repeat split; auto. apply Matches_lits. exists (v ++ LF :: post).
    split; auto. apply Matches_rest_of_line. exists v, post. auto.
  - intros res' Hm. cbn [Matches] in Hm.
    destruct Hm as (a & s' & E & _ & Hm).
    apply cons_eq in E. destruct E as [<- <-].
    apply Matches_lits in Hm. destruct Hm as (s1 & E & Hm).
    apply app_inv_head in E. subst s1.
    apply Matches_star in Hm. destruct Hm as (x & s2 & E & Hx & Hm).
    apply Matches_lits in Hm. destruct Hm as (s3 & -> & Hm).
    apply Matches_rest_of_line in Hm.
    destruct Hm as (v' & post' & -> & Hv' & ->).
    assert (E' : (w ++ chars ", " ++ v) ++ LF :: post
                 = (x ++ chars ", " ++ v') ++ LF :: post').
    { rewrite <- !app_assoc. exact E. }
    apply split_at_first in E'.
    + destruct E' as [E1 <-]. change (chars ", ") with [","%char; " "%char] in E1.
      simpl in E1. apply split_at_only in E1; auto.
      * destruct E1 as [_ E1]. now injection E1 as <-.
      * intros [H|H]; [discriminate | contradiction].
    + apply dot_iff_no_newline. apply all_in_app. split; auto.
      apply all_in_app. split; auto. repeat constructor.
    + apply dot_iff_no_newline. apply all_in_app. split; auto.
      apply all_in_app. split; auto. repeat constructor.
Qed.

(** A header block that holds the text [ate: ] once, after a character that
    is no digit and in a line with one comma, yields what follows the comma. *)
Lemma findall_date_line (pre post w v : str) (c : ascii) :
  cmatch CNonDigit c = true ->
  all_in CDot w -> all_in CDot v ->
  ~ In ","%char w -> ~ In ","%char v ->
  occurrences date_key
    (pre ++ c :: date_key ++ w ++ chars ", " ++ v ++ LF :: post)
  = [S (List.length pre)] ->
  findall "\Date: .*, (.*)\n"
    (pre ++ c :: date_key ++ w ++ chars ", " ++ v ++ LF :: post)
  = [v].
Proof.
  intros Hc Hw Hv Cw Cv Hocc. unfold findall.
  pose proof (occurrences_only date_key _ _ ltac:(discriminate) Hocc) as Only.
  rewrite scan_prefix_miss.
  - set (m := date_key ++ w ++ chars ", " ++ v ++ [LF]).
    assert (Em : date_key ++ w ++ chars ", " ++ v ++ LF :: post = m ++ post).
    { unfold m. now rewrite <- !app_assoc. }
    rewrite Em in *.
    rewrite (scan_hit _ c m post v).
    + f_equal. apply scan_all_miss. intros i.
      rewrite date_pattern_eq. apply re_match_needs_lits_after.
      rewrite skipn_skipn.
      replace (skipn (1 + i) post)
        with (skipn (List.length (pre ++ c :: m) + (1 + i))
                    ((pre ++ c :: m) ++ post))
        by apply skipn_past.
      replace ((pre ++ c :: m) ++ post) with (pre ++ c :: m ++ post)
        by (now rewrite <- app_assoc).
      apply Only. rewrite length_app. simpl. lia.
    + rewrite <- Em. now apply re_match_date_line.
  - intros i Hi. rewrite date_pattern_eq. apply re_match_needs_lits_after.
    rewrite skipn_skipn. apply Only. lia.
Qed.

Lemma findall_date_none (hdr : str) :
  occurrences date_key hdr = [] ->
  findall "\Date: .*, (.*)\n" hdr = [].
Proof.
  intros Hocc. unfold findall. apply scan_all_miss. intros i.
  rewrite date_pattern_eq. apply re_match_needs_lits_after.
  rewrite skipn_skipn. now apply occurrences_none.
Qed.

(** The group of the two From patterns, an address [u@w] of characters that
    are no blanks, followed by the literal text [tail]. *)
Lemma Matches_address (tail s opened grp : str) (res : str * str) :
  Matches (Open :: Plus CNonSpace :: One (CLit "@") :: Plus CNonSpace
           :: Close :: lits tail) s opened grp res
  <-> exists u w r,
        s = (u ++ "@"%char :: w) ++ tail ++ r
        /\ u <> [] /\ w <> []
        /\ all_in CNonSpace u /\ all_in CNonSpace w
        /\ res = (u ++ "@"%char :: w, r).
Proof.
  change (Matches (Open :: Plus CNonSpace :: One (CLit "@") :: Plus CNonSpace
                   :: Close :: lits tail) s opened grp res)
    with (Matches (Plus CNonSpace :: One (CLit "@") :: Plus CNonSpace
                   :: Close :: lits tail) s s grp res).
  rewrite Matches_plus. split.
  - intros (u & s1 & -> & Hu & Au & Hm).
    change (Matches (One (CLit "@") :: Plus CNonSpace :: Close :: lits tail)
                    s1 (u ++ s1) grp res)
      with (exists a s', s1 = a :: s' /\ cmatch (CLit "@") a = true
                         /\ Matches (Plus CNonSpace :: Close :: lits tail)
                                    s' (u ++ s1) grp res) in Hm.
    destruct Hm as (a & s2 & -> & Ha & Hm). simpl in Ha.
    apply Ascii.eqb_eq in Ha. subst a.
    apply Matches_plus in Hm. destruct Hm as (w & s3 & -> & Hw & Aw & Hm).
    change (Matches (Close :: lits tail) s3 (u ++ "@"%char :: w ++ s3) grp res)
      with (Matches (lits tail) s3 (u ++ "@"%char :: w ++ s3)
              (firstn (List.length (u ++ "@"%char :: w ++ s3) - List.length s3)
                      (u ++ "@"%char :: w ++ s3)) res) in Hm.
    rewrite <- (app_nil_r (lits tail)) in Hm.
    apply Matches_lits in Hm. destruct Hm as (r & -> & Hm). cbn [Matches] in Hm.
    exists u, w, r. repeat split; auto.
    + now rewrite <- app_assoc.
    + rewrite Hm. f_equal.
      replace (u ++ "@"%char :: w ++ tail ++ r)
        with ((u ++ "@"%char :: w) ++ tail ++ r) by now rewrite <- app_assoc.
      apply firstn_exact.
  - intros (u & w & r & -> & Hu & Hw & Au & Aw & ->).
    exists u, ("@"%char :: w ++ tail ++ r). split; [now rewrite <- app_assoc|].
    repeat split; auto.
    exists "@"%char, (w ++ tail ++ r). repeat split.
    apply Matches_plus. exists w, (tail ++ r). repeat split; auto.
    cbn [Matches]. rewrite <- (app_nil_r (lits tail)).
    apply Matches_lits. exists r. split; auto. cbn [Matches]. f_equal.
    symmetry. apply firstn_exact.
Qed.

Lemma nonspace_has_no_blank (x : str) : all_in CNonSpace x -> ~ In " "%char x.
Proof. intros H. now apply (all_in_not _ _ _ H). Qed.

Lemma nonspace_has_no_newline (x : str) : all_in CNonSpace x -> ~ In LF x.
Proof. intros H. now apply (all_in_not _ _ _ H). Qed.

Lemma address_nonspace (u w : str) :
  all_in CNonSpace u -> all_in CNonSpace w ->
  all_in CNonSpace (u ++ "@"%char :: w).
Proof.
  intros Hu Hw. apply all_in_app. split; [assumption|].
  constructor; [reflexivity | assumption].
Qed.

(** Two readings of one line [name <address>] agree on the address and on
    what follows the line. *)
Lemma named_line_unique (name x A B post r : str) :
  all_in CDot name -> all_in CDot x ->
  all_in CNonSpace A -> all_in CNonSpace B ->
  name ++ chars " <" ++ A ++ ">"%char :: LF :: post
  = x ++ chars " <" ++ B ++ ">"%char :: LF :: r ->
  A = B /\ post = r.
Proof.
  intros Hn Hx HA HB E.
  assert (E1 : (name ++ " "%char :: "<"%char :: A ++ [">"%char]) ++ LF :: post
               = (x ++ " "%char :: "<"%char :: B ++ [">"%char]) ++ LF :: r).
  { rewrite <- !app_assoc. simpl. rewrite <- !app_assoc. exact E. }
  assert (NL : forall n a, all_in CDot n -> all_in CNonSpace a ->
               ~ In LF (n ++ " "%char :: "<"%char :: a ++ [">"%char])).
  { intros n a H1 H2. apply dot_iff_no_newline. apply all_in_app. split; auto.
    constructor; [reflexivity|]. constructor; [reflexivity|].
    apply all_in_app. split; [now apply nonspace_is_dot | repeat constructor]. }
  apply split_at_first in E1; auto. destruct E1 as [E1 ->]. split; [|reflexivity].
  assert (E2 : (name ++ " "%char :: "<"%char :: A) ++ [">"%char]
               = (x ++ " "%char :: "<"%char :: B) ++ [">"%char]).
  { rewrite <- !app_assoc. exact E1. }
  apply app_inj_tail in E2. destruct E2 as [E2 _].
  apply split_at_last in E2.
  - destruct E2 as [_ E2]. now injection E2.
  - intros [H|H]; [discriminate | now apply (nonspace_has_no_blank A)].
  - intros [H|H]; [discriminate | now apply (nonspace_has_no_blank B)].
Qed.

(** The first From pattern at a line [From: name <local@domain>]. *)
Lemma re_match_named_line (name local domain post : str) :
  all_in CDot name ->
  local <> [] -> domain <> [] ->
  all_in CNonSpace local -> all_in CNonSpace domain ->
  re_match (re_compile (py "\nFrom: .* <(\S+@\S+)>\n"))
           (from_key ++ name ++ chars " <" ++ (local ++ "@"%char :: domain)
            ++ ">"%char :: LF :: post)
  = Some (local ++ "@"%char :: domain, post).
Proof.
  intros Hn Hl Hd Al Ad. rewrite named_pattern_eq. unfold re_match.
  apply match_here_decided.
  - apply Matches_lits. eexists. split; [reflexivity|].
    apply Matches_star. exists name. eexists. split; [reflexivity|].
    split; [assumption|]. apply Matches_lits. eexists. split; [reflexivity|].
    apply Matches_address. exists local, domain, post. repeat split; auto.
  - intros res' Hm.
    apply Matches_lits in Hm. destruct Hm as (s1 & E & Hm).
    apply app_inv_head in E. subst s1.
    apply Matches_star in Hm. destruct Hm as (x & s2 & E & Hx & Hm).
    apply Matches_lits in Hm. destruct Hm as (s3 & -> & Hm).
    apply Matches_address in Hm.
    destruct Hm as (u & w & r & -> & Hu & Hw & Au & Aw & ->).
    apply named_line_unique in E; auto using address_nonspace.
    now destruct E as [-> ->].
Qed.

(** The second From pattern at a line [From: local@domain]. *)
Lemma re_match_bare_line (local domain post : str) :
  local <> [] -> domain <> [] ->
  all_in CNonSpace local -> all_in CNonSpace domain ->
  re_match (re_compile (py "\nFrom: (\S+@\S+)\n"))
           (from_key ++ (local ++ "@"%char :: domain) ++ LF :: post)
  = Some (local ++ "@"%char :: domain, post).
Proof.
  intros Hl Hd Al Ad. rewrite bare_pattern_eq. unfold re_match.
  apply match_here_decided.
  - apply Matches_lits. eexists. split; [reflexivity|].
    apply (Matches_address [LF]). exists local, domain, post.
    repeat split; auto.
  - intros res' Hm.
    apply Matches_lits in Hm. destruct Hm as (s1 & E & Hm).
    apply app_inv_head in E. subst s1.
    apply (Matches_address [LF]) in Hm.
    destruct Hm as (u & w & r & E & Hu & Hw & Au & Aw & ->).
    simpl in E. apply split_at_first in E.
    + now destruct E as [-> ->].
    + apply nonspace_has_no_newline. now apply address_nonspace.
    + apply nonspace_has_no_newline. now apply address_nonspace.
Qed.

(** The first From pattern does not match a line that holds no blank after
    [From: ]. *)
Lemma re_match_named_on_bare (addr post : str) :
  all_in CNonSpace addr ->
  re_match (re_compile (py "\nFrom: .* <(\S+@\S+)>\n"))
           (from_key ++ addr ++ LF :: post)
  = None.
Proof.
  intros Ha. rewrite named_pattern_eq. unfold re_match.
  apply match_here_fails. intros res Hm.
  apply Matches_lits in Hm. destruct Hm as (s1 & E & Hm).
  apply app_inv_head in E. subst s1.
  apply Matches_star in Hm. destruct Hm as (x & s2 & E & Hx & Hm).
  apply Matches_lits in Hm. destruct Hm as (s3 & -> & Hm).
  apply Matches_address in Hm.
  destruct Hm as (u & w & r & -> & Hu & Hw & Au & Aw & ->).
  assert (E1 : addr ++ LF :: post
               = (x ++ " "%char :: "<"%char :: (u ++ "@"%char :: w) ++ [">"%char])
                 ++ LF :: r).
  { rewrite E. now flatten_app. }
  apply split_at_first in E1.
  - destruct E1 as [E1 _]. apply (nonspace_has_no_blank addr Ha).
    rewrite E1. apply in_or_app. right. now left.
  - now apply nonspace_has_no_newline.
  - apply dot_iff_no_newline. apply all_in_app. split; auto.
    constructor; [reflexivity|]. constructor; [reflexivity|].
    apply all_in_app. split; [|repeat constructor].
    apply nonspace_is_dot. now apply address_nonspace.
Qed.

(** A pattern that needs [key] where it starts, on a text that holds [key]
    once, at a place where the pattern matches up to [post]: one match. *)
Lemma scan_single (pat : pattern) (key pre m post g : str) (x : ascii) :
  key <> [] ->
  (forall s, startswith s key = false -> re_match pat s = None) ->
  occurrences key (pre ++ x :: m ++ post) = [List.length pre] ->
  re_match pat (x :: m ++ post) = Some (g, post) ->
  scan pat (pre ++ x :: m ++ post) O = [g].
Proof.
  intros Hk Need Hocc Hit.
  pose proof (occurrences_only key _ _ Hk Hocc) as Only.
  rewrite scan_prefix_miss.
  - rewrite (scan_hit _ x m post g Hit). f_equal.
    apply scan_all_miss. intros i. apply Need.
    replace (skipn i post)
      with (skipn (List.length (pre ++ x :: m) + i) ((pre ++ x :: m) ++ post))
      by apply skipn_past.
    replace ((pre ++ x :: m) ++ post) with (pre ++ x :: m ++ post)
      by (now rewrite <- app_assoc).
    apply Only. rewrite length_app. simpl. lia.
  - intros i Hi. apply Need. apply Only. lia.
Qed.

(** The same text where the pattern does not match at [key]: no match. *)
Lemma scan_nowhere (pat : pattern) (key pre rest : str) :
  key <> [] ->
  (forall s, startswith s key = false -> re_match pat s = None) ->
  occurrences key (pre ++ rest) = [List.length pre] ->
  re_match pat rest = None ->
  scan pat (pre ++ rest) O = [].
Proof.
  intros Hk Need Hocc Miss.
  pose proof (occurrences_only key _ _ Hk Hocc) as Only.
  apply scan_all_miss. intros i.
  destruct (Nat.eq_dec i (List.length pre)) as [->|Hne].
  - rewrite skipn_app, skipn_all, Nat.sub_diag. exact Miss.
  - apply Need. now apply Only.
Qed.

Lemma named_needs_key (s : str) :
  startswith s from_key = false ->
  re_match (re_compile (py "\nFrom: .* <(\S+@\S+)>\n")) s = None.
Proof. rewrite named_pattern_eq. apply re_match_needs_lits. Qed.

Lemma bare_needs_key (s : str) :
  startswith s from_key = false ->
  re_match (re_compile (py "\nFrom: (\S+@\S+)\n")) s = None.
Proof. rewrite bare_pattern_eq. apply re_match_needs_lits. Qed.

Lemma from_key_nonempty : from_key <> [].
Proof. discriminate. Qed.

(** A header block whose only [From: ] line reads [name <local@domain>] and
    is followed by a line feed. *)
Lemma findall_named_line (pre name local domain post : str) :
  all_in CDot name ->
  local <> [] -> domain <> [] ->
  all_in CNonSpace local -> all_in CNonSpace domain ->
  occurrences from_key
    (pre ++ from_key ++ name ++ chars " <" ++ (local ++ "@"%char :: domain)
     ++ ">"%char :: LF :: post)
  = [List.length pre] ->
  findall "\nFrom: .* <(\S+@\S+)>\n"
    (pre ++ from_key ++ name ++ chars " <" ++ (local ++ "@"%char :: domain)
     ++ ">"%char :: LF :: post)
  = [local ++ "@"%char :: domain].
Proof.
  intros Hn Hl Hd Al Ad Hocc. unfold findall.
  set (m := chars "From: " ++ name ++ chars " <"
            ++ (local ++ "@"%char :: domain) ++ [">"%char; LF]).
  assert (Em : from_key ++ name ++ chars " <" ++ (local ++ "@"%char :: domain)
               ++ ">"%char :: LF :: post = LF :: m ++ post).
  { unfold m, from_key. now flatten_app. }
  rewrite Em in *.
  apply (scan_single _ from_key); auto using from_key_nonempty, named_needs_key.
  rewrite <- Em. now apply re_match_named_line.
Qed.

(** A header block whose only [From: ] line reads [local@domain] and is
    followed by a line feed. *)
Lemma findall_bare_line (pre local domain post : str) :
  local <> [] -> domain <> [] ->
  all_in CNonSpace local -> all_in CNonSpace domain ->
  occurrences from_key
    (pre ++ from_key ++ (local ++ "@"%char :: domain) ++ LF :: post)
  = [List.length pre] ->
  findall "\nFrom: .* <(\S+@\S+)>\n"
    (pre ++ from_key ++ (local ++ "@"%char :: domain) ++ LF :: post) = []
  /\ findall "\nFrom: (\S+@\S+)\n"
       (pre ++ from_key ++ (local ++ "@"%char :: domain) ++ LF :: post)
     = [local ++ "@"%char :: domain].
Proof.
  intros Hl Hd Al Ad Hocc. unfold findall. split.
  - apply (scan_nowhere _ from_key); auto using from_key_nonempty, named_needs_key.
    apply re_match_named_on_bare. now apply address_nonspace.
  - set (m := chars "From: " ++ (local ++ "@"%char :: domain) ++ [LF]).
    assert (Em : from_key ++ (local ++ "@"%char :: domain) ++ LF :: post
                 = LF :: m ++ post).
    { unfold m, from_key. now flatten_app. }
    rewrite Em in *.
    apply (scan_single _ from_key); auto using from_key_nonempty, bare_needs_key.
    rewrite <- Em. now apply re_match_bare_line.
Qed.

(** Neither From pattern matches a [From: ] line that no line feed ends. *)
Lemma from_line_needs_newline (t : str) :
  ~ In LF t ->
  re_match (re_compile (py "\nFrom: .* <(\S+@\S+)>\n")) (from_key ++ t) = None
  /\ re_match (re_compile (py "\nFrom: (\S+@\S+)\n")) (from_key ++ t) = None.
Proof.
  intros Ht. split.
  - rewrite named_pattern_eq. apply match_here_fails. intros res Hm.
    apply Matches_lits in Hm. destruct Hm as (s1 & E & Hm).
    apply app_inv_head in E. subst s1.
    apply Matches_star in Hm. destruct Hm as (x & s2 & -> & Hx & Hm).
    apply Matches_lits in Hm. destruct Hm as (s3 & -> & Hm).
    apply Matches_address in Hm.
    destruct Hm as (u & w & r & -> & _). apply Ht.
    do 3 (apply in_or_app; right). right. now left.
  - rewrite bare_pattern_eq. apply match_here_fails. intros res Hm.
    apply Matches_lits in Hm. destruct Hm as (s1 & E & Hm).
    apply app_inv_head in E. subst s1.
    apply (Matches_address [LF]) in Hm.
    destruct Hm as (u & w & r & -> & _). apply Ht.
    apply in_or_app. right. now left.
Qed.

(* ================================================================== *)
(** ** Trimming, lower-casing and deleting a character *)

Lemma lstrip_spec (s : str) :
  exists l, s = l ++ lstrip s /\ blanks l
            /\ forall a t, lstrip s = a :: t -> isspace a = false.
Proof.
  induction s as [|a s (l & E & Hl & Hh)].
  - exists []. repeat split; [intros a []|discriminate].
  - simpl. destruct (isspace a) eqn:Sa.
    + exists (a :: l). simpl. rewrite <- E. repeat split; auto.
      intros b [<-|Hb]; auto.
    + exists []. repeat split; [intros b []|]. intros b t [= <- _]. exact Sa.
Qed.

(** [s.strip()] is [s] without the blanks at its two ends. *)
Lemma strip_spec (s : str) :
  exists l r,
    s = l ++ strip s ++ r /\ blanks l /\ blanks r
    /\ (forall a t, strip s = a :: t -> isspace a = false)
    /\ (forall a t, strip s = t ++ [a] -> isspace a = false).
Proof.
  unfold strip, rstrip.
  destruct (lstrip_spec s) as (l & E & Hl & Hh).
  destruct (lstrip_spec (rev (lstrip s))) as (r & E' & Hr & Hh').
  set (y := lstrip s) in *. set (z := lstrip (rev y)) in *.
  assert (Ey : y = rev z ++ rev r).
  { rewrite <- (rev_involutive y), E'. now rewrite rev_app_distr. }
  exists l, (rev r). repeat split.
  - now rewrite <- Ey.
  - exact Hl.
  - intros a Ha. apply Hr. now apply in_rev.
  - intros a t Et. rewrite Et in Ey. simpl in Ey. now apply (Hh a _ Ey).
  - intros a t Et. apply (Hh' a (rev t)).
    rewrite <- (rev_involutive z). fold (rev z). rewrite Et.
    now rewrite rev_app_distr.
Qed.

Lemma lstrip_nonspace (x : str) : all_in CNonSpace x -> lstrip x = x.
Proof.
  intros H. destruct x as [|a x]; [reflexivity|]. inversion H as [|? ? Ha _].
  simpl in Ha |- *. now destruct (isspace a).
Qed.

Lemma strip_nonspace (x : str) : all_in CNonSpace x -> strip x = x.
Proof.
  intros H. unfold strip, rstrip. rewrite (lstrip_nonspace x H).
  rewrite lstrip_nonspace; [apply rev_involutive|].
  unfold all_in in H |- *. rewrite Forall_forall in H |- *. intros a Ha.
  apply H. now apply in_rev.
Qed.

Lemma lower_char_idem (a : ascii) : lower_char (lower_char a) = lower_char a.
Proof. destruct a as [[] [] [] [] [] [] [] []]; reflexivity. Qed.

Lemma lower_idem (s : str) : lower (lower s) = lower s.
Proof.
  unfold lower. rewrite map_map. apply map_ext. apply lower_char_idem.
Qed.

Lemma lower_char_keeps_angle (a : ascii) :
  Ascii.eqb (lower_char a) "<" = Ascii.eqb a "<".
Proof. destruct a as [[] [] [] [] [] [] [] []]; reflexivity. Qed.

(** Deleting one character: [s.replace(c, "")]. *)
Lemma replace_deletes (s : str) (c : ascii) :
  replace s [c] [] = filter (fun a => negb (Ascii.eqb a c)) s.
Proof.
  unfold replace. induction s as [|a s IH]; [reflexivity|].
  cbn [replace_go startswith filter List.length Nat.pred].
  rewrite andb_true_r. destruct (Ascii.eqb a c); simpl; now rewrite IH.
Qed.

Lemma filter_all {A : Type} (f : A -> bool) (l : list A) :
  forallb f l = true -> filter f l = l.
Proof.
  induction l as [|a l IH]; simpl; [reflexivity|].
  intros H. apply andb_true_iff in H. destruct H as [-> H]. now rewrite IH.
Qed.

(** What lines 127-128 make of a matched address: for an address without
    blanks, its lower-case form with every [<] deleted. *)
Lemma clean_address_nonspace (x : str) :
  all_in CNonSpace x ->
  clean_address x = filter (fun a => negb (Ascii.eqb a "<")) (lower x).
Proof.
  intros H. unfold clean_address. rewrite (strip_nonspace x H).
  change (py "<") with ["<"%char]. change (py "") with (@nil ascii).
  apply replace_deletes.
Qed.

Lemma clean_address_plain (x : str) :
  all_in CNonSpace x ->
  forallb (fun a => negb (Ascii.eqb a "<")) x = true ->
  clean_address x = lower x.
Proof.
  intros H Hx. rewrite (clean_address_nonspace x H). apply filter_all.
  unfold lower. rewrite forallb_forall in Hx |- *. intros a Ha.
  apply in_map_iff in Ha. destruct Ha as (b & <- & Hb).
  rewrite lower_char_keeps_angle. now apply Hx.
Qed.

Lemma within_all_in (c : cclass) (x : str) : within c x = true -> all_in c x.
Proof.
  unfold within, all_in. rewrite forallb_forall, Forall_forall. auto.
Qed.

Lemma has_not_in (c : ascii) (x : str) : has c x = false -> ~ In c x.
Proof.
  unfold has. intros H Hin.
  assert (T : existsb (Ascii.eqb c) x = true).
  { apply existsb_exists. exists c. split; [assumption | apply Ascii.eqb_refl]. }
  rewrite H in T. discriminate T.
Qed.

Lemma nonempty_length (x : str) : (1 <= List.length x)%nat -> x <> [].
Proof. destruct x; simpl; [lia | discriminate]. Qed.

(* ================================================================== *)
(** ** The header block and the body *)

(** [s.find(sub)] is -1 exactly when [sub] occurs nowhere in [s]. *)
Lemma find_from_absent (s sub : str) (i : Z) :
  find_from s sub i = -1 -> 0 <= i ->
  forall n, startswith (skipn n s) sub = false.
Proof.
  revert i. induction s as [|a s IH]; intros i H Hi n;
    cbn [find_from] in H.
  - destruct (startswith [] sub) eqn:E; [lia|]. now destruct n.
  - destruct (startswith (a :: s) sub) eqn:E; [lia|].
    destruct n as [|n]; [assumption|]. simpl. apply (IH (i + 1)); [assumption|lia].
Qed.

Lemma find_from_found (s sub : str) (i : Z) :
  0 <= i -> find_from s sub i <> -1 ->
  i <= find_from s sub i
  /\ startswith (skipn (Z.to_nat (find_from s sub i - i)) s) sub = true.
Proof.
  revert i. induction s as [|a s IH]; intros i Hi H;
    cbn [find_from] in H |- *.
  - destruct (startswith [] sub) eqn:E; [|contradiction].
    rewrite Z.sub_diag. simpl. split; [lia | assumption].
  - destruct (startswith (a :: s) sub) eqn:E.
    + rewrite Z.sub_diag. simpl. split; [lia | assumption].
    + destruct (IH (i + 1) ltac:(lia) H) as [Hle Hst]. split; [lia|].
      replace (Z.to_nat (find_from s sub (i + 1) - i))
        with (S (Z.to_nat (find_from s sub (i + 1) - (i + 1)))) by lia.
      exact Hst.
Qed.

Lemma find_absent (s sub : str) :
  find s sub = -1 <-> forall n, startswith (skipn n s) sub = false.
Proof.
  split.
  - intros H. now apply (find_from_absent s sub 0).
  - intros H. destruct (Z.eq_dec (find s sub) (-1)) as [E|E]; [assumption|].
    destruct (find_from_found s sub 0 ltac:(lia) E) as [_ Hst].
    unfold find in H. now rewrite H in Hst.
Qed.

(** A text without the marker, or without a blank line, has no parsed form. *)
Lemma split_message_rejects (text : str) :
  startswith text (py "From ") = false \/ find text (py "\n\n") = -1 ->
  split_message text = NoMarker \/ split_message text = NoBoundary.
Proof.
  unfold split_message. intros [H|H].
  - rewrite H. now left.
  - destruct (startswith text (py "From ")); simpl; [|now left].
    rewrite H. now right.
Qed.

(* ================================================================== *)
(** ** Facts about the trace *)

Lemma count_failure_eq (st : state) :
  count_failure st
  = (if fail st + 1 >? 5 then Break else Continue, set_fail st (fail st + 1)).
Proof. unfold count_failure. simpl. now destruct (fail st + 1 >? 5). Qed.

Lemma housekeeping_keeps (st : state) :
  let st' := housekeeping st in
  start st' = start st /\ many st' = many st /\ count st' = count st
  /\ fail st' = fail st /\ messages st' = messages st
  /\ stdin st' = stdin st /\ fetches (trace st') = fetches (trace st)
  /\ prompts (trace st') = prompts (trace st).
Proof.
  unfold housekeeping.
  destruct (count st mod 50 =? 0); simpl;
    match goal with |- context [if ?b then _ else _] => destruct b end;
    simpl; repeat split; reflexivity.
Qed.

Lemma ask_budget_with_budget (st : state) :
  1 <= many st -> ask_budget st = (Continue, st).
Proof.
  intros H. unfold ask_budget.
  destruct (Z.ltb_spec (many st) 1); [lia | reflexivity].
Qed.

(** The prompt leaves the cursor, the counters, the table and the
    retrievals as they are. *)
Lemma ask_budget_keeps (st st1 : state) (c : control) :
  ask_budget st = (c, st1) ->
  start st1 = start st /\ count st1 = count st /\ fail st1 = fail st
  /\ messages st1 = messages st /\ fetches (trace st1) = fetches (trace st)
  /\ (prompts (trace st) <= prompts (trace st1))%nat.
Proof.
  unfold ask_budget. intros H.
  destruct (many st <? 1).
  - simpl in H. destruct (stdin st) as [|sval rest].
    + injection H as <- <-. simpl. repeat split; auto.
    + simpl in H. destruct (List.length sval <? 1)%nat.
      * injection H as <- <-. simpl. repeat split; auto.
      * destruct (py_int sval); injection H as <- <-; simpl;
          repeat split; auto.
  - injection H as <- <-. repeat split; auto.
Qed.

(* ================================================================== *)
(** ** One pass through the loop *)

(** A failure leaves everything but the counter as it is. *)
Lemma count_failure_effect (st st' : state) (c : control) :
  count_failure st = (c, st') ->
  st' = set_fail st (fail st + 1)
  /\ c = (if fail st + 1 >? 5 then Break else Continue).
Proof. rewrite count_failure_eq. intros [= <- <-]. auto. Qed.

(** What handling a retrieved document does to the state: either it counts
    one failure and stores nothing, or it stores one row under the cursor
    and clears the failure counter. *)
Lemma process_effect (st st' : state) (text : str) (c : control) :
  process st text = (c, st') ->
  start st' = start st /\ many st' = many st /\ count st' = count st + 1
  /\ stdin st' = stdin st
  /\ fetches (trace st') = fetches (trace st)
  /\ prompts (trace st') = prompts (trace st)
  /\ ((messages st' = messages st /\ fail st' = fail st + 1
       /\ c = (if fail st + 1 >? 5 then Break else Continue))
      \/ (exists r, id r = start st /\ messages st' = messages st ++ [r]
          /\ fail st' = 0 /\ c = Continue)).
Proof.
  unfold process. intros H.
  assert (F : forall s, s = set_count st (count st + 1) ->
              count_failure s = (c, st') ->
              start st' = start st /\ many st' = many st
              /\ count st' = count st + 1 /\ stdin st' = stdin st
              /\ fetches (trace st') = fetches (trace st)
              /\ prompts (trace st') = prompts (trace st)
              /\ ((messages st' = messages st /\ fail st' = fail st + 1
                   /\ c = (if fail st + 1 >? 5 then Break else Continue))
                  \/ (exists r, id r = start st
                      /\ messages st' = messages st ++ [r]
                      /\ fail st' = 0 /\ c = Continue))).
  { intros s -> Hc. apply count_failure_effect in Hc. destruct Hc as [-> ->].
    simpl. repeat split; auto. }
  destruct (split_message text) as [| |hdr bdy];
    [now apply (F _ eq_refl) | now apply (F _ eq_refl) |].
  destruct (extract_sent_at hdr) as [sent|]; [|now apply (F _ eq_refl)].
  injection H as <- <-.
  match goal with |- context [housekeeping ?s] =>
    destruct (housekeeping_keeps s) as (H1 & H2 & H3 & H4 & H5 & H6 & H7 & H8)
  end.
  cbv zeta in *. rewrite H1, H2, H3, H4, H5, H6, H7, H8. simpl.
  repeat split; auto. right. eexists. rewrite execute_insert_appends.
  repeat split; reflexivity.
Qed.

(** What one retrieval does to the state. *)
Lemma attempt_effect (st st' : state) (c : control) :
  attempt st = (c, st') ->
  c <> Uncaught
  /\ start st' = start st /\ many st' = many st - 1
  /\ stdin st' = stdin st
  /\ fetches (trace st') = url_of (start st) :: fetches (trace st)
  /\ prompts (trace st') = prompts (trace st)
  /\ (messages st' = messages st
      \/ exists r, id r = start st /\ messages st' = messages st ++ [r]).
Proof.
  unfold attempt. intros H.
  destruct (urlopen (url_of (start (set_many st (many st - 1)))))
    as [text status| |] eqn:E.
  - destruct (status =? 200); simpl in H.
    + apply process_effect in H. simpl in H.
      destruct H as (H1 & H2 & H3 & H4 & H5 & H6 & H7).
      repeat split; auto.
      * destruct H7 as [(_ & _ & ->)|(r & _ & _ & _ & ->)];
          [destruct (fail st + 1 >? 5)|]; discriminate.
      * destruct H7 as [(Hm & _)|(r & Hr & Hm & _)]; [now left|right; eauto].
    + injection H as <- <-. simpl. repeat split; auto. discriminate.
  - injection H as <- <-. simpl. repeat split; auto. discriminate.
  - apply count_failure_effect in H. destruct H as [-> ->]. simpl.
    repeat split; auto. destruct (fail st + 1 >? 5); discriminate.
Qed.

(** A stored identifier is passed over: only the cursor moves. *)
Lemma advance_skips (st : state) :
  In (start st + 1) (ids (messages st)) ->
  advance st = (Continue, set_start st (start st + 1)).
Proof.
  intros H. unfold advance. simpl. now rewrite (select_id_present _ _ H).
Qed.

(** An identifier that is not stored is retrieved. *)
Lemma advance_attempts (st : state) :
  ~ In (start st + 1) (ids (messages st)) ->
  advance st = attempt (set_start st (start st + 1)).
Proof.
  intros H. unfold advance. simpl. now rewrite (select_id_absent _ _ H).
Qed.

Lemma in_ids_dec (k : Z) (tbl : list message) :
  {In k (ids tbl)} + {~ In k (ids tbl)}.
Proof. apply in_dec. apply Z.eq_dec. Qed.

(** With budget left there is no prompt: the pass is the cursor's advance. *)
Lemma iteration_with_budget (st : state) :
  1 <= many st -> iteration st = advance st.
Proof.
  intros H. unfold iteration. now rewrite (ask_budget_with_budget _ H).
Qed.

(** One pass either retrieves nothing and stores nothing, or retrieves the
    identifier after the cursor, which was not stored, and stores at most one
    row under it. *)
Lemma iteration_effect (st st' : state) (c : control) :
  iteration st = (c, st') ->
  (start st' = start st \/ start st' = start st + 1)
  /\ ((fetches (trace st') = fetches (trace st)
       /\ messages st' = messages st)
      \/ (~ In (start st + 1) (ids (messages st))
          /\ start st' = start st + 1
          /\ fetches (trace st') = url_of (start st + 1) :: fetches (trace st)
          /\ (messages st' = messages st
              \/ exists r, id r = start st + 1
                           /\ messages st' = messages st ++ [r]))).
Proof.
  unfold iteration. intros H.
  destruct (ask_budget st) as [c1 st1] eqn:A.
  apply ask_budget_keeps in A. destruct A as (A1 & A2 & A3 & A4 & A5 & A6).
  destruct c1; try (injection H as <- <-; split; [now left | left; now split]).
  destruct (in_ids_dec (start st1 + 1) (messages st1)) as [Hin|Hout].
  - rewrite (advance_skips _ Hin) in H. injection H as <- <-. simpl.
    split; [right; lia | left; now split].
  - rewrite (advance_attempts _ Hout) in H. apply attempt_effect in H.
    simpl in H. destruct H as (_ & H1 & _ & _ & H4 & _ & H6).
    rewrite A1 in *. rewrite A4 in *. rewrite A5 in *.
    split; [now right | right]. repeat split; auto.
Qed.

Lemma in_ids_app (k : Z) (a b : list message) :
  In k (ids (a ++ b)) <-> In k (ids a) \/ In k (ids b).
Proof. unfold ids. rewrite map_app. apply in_app_iff. Qed.

(** Any number of passes: the stored identifiers stay stored with the rows
    they had, and every retrieval made is for an identifier past the cursor
    that was not stored. *)
Lemma iterate_effect (n : nat) :
  forall (st st' : state) (c : control),
  iterate n st = (c, st') ->
  start st <= start st'
  /\ (forall k, In k (ids (messages st)) -> In k (ids (messages st')))
  /\ (forall k, In k (ids (messages st)) ->
        rows_with_id k (messages st') = rows_with_id k (messages st))
  /\ exists new,
       fetches (trace st') = new ++ fetches (trace st)
       /\ Forall (fun u => exists k, u = url_of k
                                     /\ start st < k <= start st'
                                     /\ ~ In k (ids (messages st))) new.
Proof.
  induction n as [|n IH]; intros st st' c H; simpl in H.
  - injection H as <- <-. repeat split; auto; try lia.
    exists []. split; [reflexivity | constructor].
  - destruct (iteration st) as [c1 st1] eqn:E.
    assert (Step :
      start st <= start st1
      /\ (forall k, In k (ids (messages st)) -> In k (ids (messages st1)))
      /\ (forall k, In k (ids (messages st)) ->
            rows_with_id k (messages st1) = rows_with_id k (messages st))
      /\ exists new,
           fetches (trace st1) = new ++ fetches (trace st)
           /\ Forall (fun u => exists k, u = url_of k
                                         /\ start st < k <= start st1
                                         /\ ~ In k (ids (messages st))) new).
    { apply iteration_effect in E. destruct E as [Hs [[Hf Hm]|(Hout & Hs1 & Hf & Hm)]].
      - rewrite Hm. repeat split; auto; [lia|].
        exists []. split; [assumption | constructor].
      - split; [lia|]. split; [|split].
        + intros k Hk. destruct Hm as [->|(r & _ & ->)]; auto.
          apply in_ids_app. now left.
        + intros k Hk. destruct Hm as [->|(r & Hr & ->)]; auto.
          rewrite rows_with_id_app. unfold rows_with_id at 2. simpl.
          destruct (Z.eqb_spec (id r) k) as [Ek|Ek]; simpl; [|lia].
          exfalso. apply Hout. now rewrite <- Hr, Ek.
        + exists [url_of (start st + 1)]. split; [assumption|].
          constructor; [|constructor]. exists (start st + 1).
          repeat split; auto; lia. }
    destruct c1; try (injection H as <- <-; exact Step).
    destruct Step as (S1 & S2 & S3 & new1 & S4 & S5).
    destruct (IH _ _ _ H) as (I1 & I2 & I3 & new2 & I4 & I5).
    split; [lia|]. split; [auto|]. split.
    + intros k Hk. rewrite (I3 k (S2 k Hk)). auto.
    + exists (new2 ++ new1). split.
      * rewrite I4, S4. now rewrite app_assoc.
      * apply Forall_app. split.
        -- eapply Forall_impl; [|exact I5]. simpl.
           intros u (k & Hu & Hk & Hn). exists k. repeat split; auto; try lia.
        -- eapply Forall_impl; [|exact S5]. simpl.
           intros u (k & Hu & Hk & Hn). exists k. repeat split; auto; lia.
Qed.

Lemma attempt_next (st : state) :
  attempt (set_start st (start st + 1))
  = match urlopen (url_of (start st + 1)) with
    | Document text status =>
        if negb (status =? 200) then (Break, retrieving st)
        else process (retrieving st) text
    | KeyboardInterrupt => (Break, retrieving st)
    | FetchException => count_failure (retrieving st)
    end.
Proof. reflexivity. Qed.

(** A pass whose prompt (if any) is answered and whose next identifier is
    not stored is the retrieval of that identifier. *)
Lemma iteration_retrieves (st st1 : state) :
  ask_budget st = (Continue, st1) ->
  ~ In (start st + 1) (ids (messages st)) ->
  iteration st = attempt (set_start st1 (start st1 + 1)).
Proof.
  intros A Hout. unfold iteration. rewrite A.
  apply ask_budget_keeps in A. destruct A as (A1 & _ & _ & A4 & _).
  apply advance_attempts. now rewrite A1, A4.
Qed.

(** C9. For every identifier already present in the store, the loop never
    re-fetches it and never re-inserts it: a pass whose next identifier is
    stored requests nothing, stores nothing and, when the loop goes on, leaves
    the cursor on that identifier, so that the following pass looks at the
    one after it; and over any number of passes an identifier that is stored
    keeps exactly the rows it had and no new request carries its address. *)
Theorem stored_identifiers_are_skipped :
  (forall (st st' : state) (c : control),
      In (start st + 1) (ids (messages st)) ->
      iteration st = (c, st') ->
      messages st' = messages st
      /\ fetches (trace st') = fetches (trace st)
      /\ (c = Continue -> start st' = start st + 1)
      /\ (1 <= many st -> c = Continue /\ st' = set_start st (start st + 1)))
  /\ (forall (n : nat) (st st' : state) (c : control) (k : Z),
      In k (ids (messages st)) ->
      iterate n st = (c, st') ->
      rows_with_id k (messages st') = rows_with_id k (messages st)
      /\ exists new, fetches (trace st') = new ++ fetches (trace st)
                     /\ ~ In (url_of k) new).
Proof.
  split.
  - intros st st' c Hin H.
    assert (G : messages st' = messages st
                /\ fetches (trace st') = fetches (trace st)
                /\ (c = Continue -> start st' = start st + 1)).
    { unfold iteration in H. destruct (ask_budget st) as [c1 st1] eqn:A.
      apply ask_budget_keeps in A. destruct A as (A1 & _ & _ & A4 & A5 & _).
      destruct c1; try (injection H as <- <-; repeat split; auto; discriminate).
      rewrite advance_skips in H by now rewrite A1, A4.
      injection H as <- <-. simpl. repeat split; auto. intros _. lia. }
    destruct G as (G1 & G2 & G3).
    split; [assumption|]. split; [assumption|]. split; [assumption|].
    intros Hm.
    rewrite (iteration_with_budget _ Hm), (advance_skips _ Hin) in H.
    now injection H as <- <-.
  - intros n st st' c k Hin H.
    destruct (iterate_effect n _ _ _ H) as (_ & _ & I3 & new & I4 & I5).
    split; [now apply I3|]. exists new. split; [assumption|].
    intros Hu. rewrite Forall_forall in I5.
    destruct (I5 _ Hu) as (k' & E & _ & Hout).
    apply url_of_inj in E. subst k'. contradiction.
Qed.

(** C7, at the input where the code parts from it. Line 50 runs the query
    outside the [try] of line 51: on a database whose table [messages] has
    no column [id] the query fails and the script ends there with an error
    nothing catches, where the claim has a cursor of 0; so it does wherever
    line 50 raises. Where the query returns, on the table the script
    creates or on one an earlier run left, the loop starts with the cursor
    on the largest stored identifier, or on 0 when the table is empty; the
    branches of lines 53 and 57 give 0 as well. A pass that goes beyond the
    prompt moves the cursor to cursor+1 and requests no address but that of
    cursor+1; the first request after start-up is for the identifier after
    the largest stored one; and the address of an identifier is the base
    location followed by the identifier, a slash and the identifier plus
    one. *)
Theorem a_failing_query_is_uncaught_and_the_cursor_resumes :
  (forall console,
      boot (Some (mkRelation [(Col_email, TEXT, [])] [])) console = Raises)
  /\ (forall db console,
        has_column Col_id (columns (create_table_if_not_exists db)) = false ->
        boot db console = Raises)
  /\ (forall console, boot None console = Returns (startup [] console))
  /\ (forall tbl console,
        boot (Some (mkRelation messages_ddl tbl)) console
        = Returns (startup tbl console))
  /\ initial_start (select_max_id []) = 0
  /\ initial_start NoRow = 0
  /\ initial_start FetchRaises = 0
  /\ (forall tbl, tbl <> [] ->
        In (initial_start (select_max_id tbl)) (ids tbl)
        /\ forall k, In k (ids tbl) -> k <= initial_start (select_max_id tbl))
  /\ (forall tbl console,
        start (startup tbl console) = initial_start (select_max_id tbl))
  /\ (forall st st1, ask_budget st = (Continue, st1) ->
        start (snd (iteration st)) = start st + 1)
  /\ (forall st, fetches (trace (snd (iteration st))) = fetches (trace st)
                 \/ fetches (trace (snd (iteration st)))
                    = url_of (start st + 1) :: fetches (trace st))
  /\ (forall tbl sval rest n,
        (1 <= List.length sval)%nat -> py_int sval = Some n ->
        fetches (trace (snd (iteration (startup tbl (sval :: rest)))))
        = [url_of (initial_start (select_max_id tbl) + 1)])
  /\ (forall k, url_of k = baseurl ++ str_of_int k ++ py "/" ++ str_of_int (k + 1))
  /\ url_of 6 = py "http://mbox.dr-chuck.net/sakai.devel/6/7".
Proof.
  split; [reflexivity|].
  split; [intros db console H; unfold boot, execute_select_max_id; cbv zeta;
          now rewrite H|].
  split; [reflexivity|]. split; [reflexivity|].
  split; [reflexivity|]. split; [reflexivity|]. split; [reflexivity|].
  split; [exact initial_start_max|]. split; [reflexivity|].
  split; [|split; [|split; [|split; [reflexivity | reflexivity]]]].
  - intros st st1 A. unfold iteration. rewrite A.
    apply ask_budget_keeps in A. destruct A as (A1 & _).
    destruct (in_ids_dec (start st1 + 1) (messages st1)) as [Hin|Hout].
    + rewrite (advance_skips _ Hin). simpl. lia.
    + rewrite (advance_attempts _ Hout).
      destruct (attempt _) as [c st'] eqn:E. apply attempt_effect in E.
      simpl in *. destruct E as (_ & -> & _). lia.
  - intros st. destruct (iteration st) as [c st'] eqn:E.
    apply iteration_effect in E. simpl.
    destruct E as [_ [[-> _]|(_ & _ & -> & _)]]; auto.
  - intros tbl sval rest n Hlen Hint.
    assert (A : ask_budget (startup tbl (sval :: rest))
                = (Continue,
                   set_many (emit (set_stdin (commit (startup tbl (sval :: rest))) rest)
                                  EvPrompt) n)).
    { unfold ask_budget. simpl.
      destruct (Nat.ltb_spec (List.length sval) 1); [lia|]. now rewrite Hint. }
    rewrite (iteration_retrieves _ _ A) by apply next_of_cursor_is_absent.
    destruct (attempt _) as [c st'] eqn:E. apply attempt_effect in E.
    simpl in *. destruct E as (_ & _ & _ & _ & -> & _). reflexivity.
Qed.

(** C2, as the code has it. A response whose status lies outside 200..299
    is raised by the library as an error, and so are a request that gets no
    answer and a body that cannot be read and decoded, under whatever
    status: the identifier is given up, the failure counter goes up by one,
    the table is untouched, and the loop goes on to the next identifier
    unless the counter is now above 5, in which case the run ends. A
    response handed back with a status in 201..299 whose body decodes ends
    the run there and then, and the counter stays as it is. *)
Theorem failed_status_is_counted_odd_status_ends_run :
  forall (st st1 : state),
    ask_budget st = (Continue, st1) ->
    ~ In (start st + 1) (ids (messages st)) ->
    (forall status content,
        archive (url_of (start st + 1)) = Answer status content ->
        status < 200 \/ 300 <= status ->
        iteration st
        = (if fail st + 1 >? 5 then Break else Continue,
           set_fail (retrieving st1) (fail st + 1))
        /\ messages (set_fail (retrieving st1) (fail st + 1)) = messages st
        /\ start (set_fail (retrieving st1) (fail st + 1)) = start st + 1)
    /\ (archive (url_of (start st + 1)) = NoAnswer ->
        iteration st
        = (if fail st + 1 >? 5 then Break else Continue,
           set_fail (retrieving st1) (fail st + 1)))
    /\ (forall status text,
        archive (url_of (start st + 1)) = Answer status (Some text) ->
        200 < status < 300 ->
        iteration st = (Break, retrieving st1)
        /\ fail (retrieving st1) = fail st
        /\ messages (retrieving st1) = messages st)
    /\ (forall status,
        archive (url_of (start st + 1)) = Answer status None ->
        iteration st
        = (if fail st + 1 >? 5 then Break else Continue,
           set_fail (retrieving st1) (fail st + 1))
        /\ messages (set_fail (retrieving st1) (fail st + 1)) = messages st).
Proof.
  intros st st1 A Hout.
  rewrite (iteration_retrieves _ _ A Hout), attempt_next.
  apply ask_budget_keeps in A. destruct A as (A1 & _ & A3 & A4 & _).
  rewrite A1. unfold urlopen. split; [|split; [|split]].
  - intros status content E Hs. rewrite E. unfold retrieve.
    replace ((200 <=? status) && (status <? 300)) with false.
    + rewrite count_failure_eq. simpl. rewrite A1, A3. auto.
    + symmetry. apply andb_false_iff.
      destruct Hs; [left; apply Z.leb_gt | right; apply Z.ltb_ge]; lia.
  - intros E. rewrite E. unfold retrieve.
    rewrite count_failure_eq. simpl. now rewrite A3.
  - intros status text E Hs. rewrite E. unfold retrieve.
    replace ((200 <=? status) && (status <? 300)) with true.
    + destruct (Z.eqb_spec status 200); [lia|]. simpl. auto.
    + symmetry. apply andb_true_iff.
      split; [apply Z.leb_le | apply Z.ltb_lt]; lia.
  - intros status E. rewrite E. unfold retrieve.
    destruct ((200 <=? status) && (status <? 300));
      rewrite count_failure_eq; simpl; rewrite A3, A4; auto.
Qed.

(** C8, as the code has it. A retrieved text that does not begin with
    ["From "], or that holds no blank line, has no parsed form; handling it
    raises nothing and stores nothing, and counts one failure: the loop goes
    on when the counter is still at most 5 and ends when it is above. So a
    pass with budget left that retrieves such a text under status 200 leaves
    the table as it was, with the counter one higher. *)
Theorem malformed_text_is_counted :
  (forall (st : state) (text : str),
    startswith text (py "From ") = false \/ find text (py "\n\n") = -1 ->
    (split_message text = NoMarker \/ split_message text = NoBoundary)
    /\ process st text
       = (if fail st + 1 >? 5 then Break else Continue,
          set_fail (set_count st (count st + 1)) (fail st + 1))
    /\ fst (process st text) <> Uncaught
    /\ messages (snd (process st text)) = messages st
    /\ fail (snd (process st text)) = fail st + 1
    /\ (fail st < 5 -> fst (process st text) = Continue)
    /\ (5 <= fail st -> fst (process st text) = Break))
  /\ (forall (st : state) (text : str),
        1 <= many st ->
        ~ In (start st + 1) (ids (messages st)) ->
        archive (url_of (start st + 1)) = Answer 200 (Some text) ->
        startswith text (py "From ") = false \/ find text (py "\n\n") = -1 ->
        iteration st
        = (if fail st + 1 >? 5 then Break else Continue,
           set_fail (set_count (retrieving st) (count st + 1)) (fail st + 1))).
Proof.
  assert (P : forall (st : state) (text : str),
             startswith text (py "From ") = false
             \/ find text (py "\n\n") = -1 ->
             process st text
             = (if fail st + 1 >? 5 then Break else Continue,
                set_fail (set_count st (count st + 1)) (fail st + 1))).
  { intros st text H. apply split_message_rejects in H.
    unfold process. destruct H as [-> | ->]; now rewrite count_failure_eq. }
  split.
  - intros st text H. split; [now apply split_message_rejects|].
    rewrite (P st text H). simpl. repeat split; auto.
    + destruct (fail st + 1 >? 5); discriminate.
    + intros Hf. destruct (Z.gtb_spec (fail st + 1) 5); [lia | reflexivity].
    + intros Hf. destruct (Z.gtb_spec (fail st + 1) 5); [reflexivity | lia].
  - intros st text Hm Hout E H.
    rewrite (iteration_with_budget _ Hm), (advance_attempts _ Hout), attempt_next.
    unfold urlopen. rewrite E. simpl. now rewrite (P _ text H).
Qed.

(* ================================================================== *)
(** ** Runs of failures *)

Lemma failed_fields (n : nat) :
  forall st,
    start (failed n st) = start st + Z.of_nat n
    /\ many (failed n st) = many st - Z.of_nat n
    /\ fail (failed n st) = fail st + Z.of_nat n
    /\ count (failed n st) = count st
    /\ messages (failed n st) = messages st
    /\ attempts (failed n st) = attempts st + Z.of_nat n.
Proof.
  induction n as [|n IH]; intros st.
  - simpl. repeat split; lia.
  - cbn [failed]. destruct (IH (set_fail (retrieving st) (fail st + 1)))
      as (H1 & H2 & H3 & H4 & H5 & H6).
    rewrite H1, H2, H3, H4, H5, H6. unfold attempts, retrieving.
    cbn [start many fail count messages trace set_fail emit set_many
         set_start fetches List.length].
    rewrite !Nat2Z.inj_succ. repeat split; lia.
Qed.

Lemma failed_last (n : nat) (st : state) :
  failed (S n) st
  = set_fail (retrieving (failed n st)) (fail (failed n st) + 1).
Proof.
  revert st. induction n as [|n IH]; intros st; [reflexivity|].
  change (failed (S (S n)) st)
    with (failed (S n) (set_fail (retrieving st) (fail st + 1))).
  now rewrite IH.
Qed.

Lemma iterate_add (n m : nat) (st : state) :
  iterate (n + m) st
  = match iterate n st with
    | (Continue, st') => iterate m st'
    | stop => stop
    end.
Proof.
  revert st. induction n as [|n IH]; intros st; simpl; [reflexivity|].
  destruct (iteration st) as [[| |] st1]; auto.
Qed.

Lemma iterate_one (st : state) : iterate 1 st = iteration st.
Proof. cbn [iterate]. now destruct (iteration st) as [[| |] s]. Qed.

(** A pass with budget left whose next identifier is absent and whose
    retrieval raises an error. *)
Lemma iteration_fetch_error (st : state) :
  1 <= many st ->
  ~ In (start st + 1) (ids (messages st)) ->
  urlopen (url_of (start st + 1)) = FetchException ->
  iteration st
  = (if fail st + 1 >? 5 then Break else Continue,
     set_fail (retrieving st) (fail st + 1)).
Proof.
  intros Hm Hout E.
  rewrite (iteration_with_budget _ Hm), (advance_attempts _ Hout), attempt_next.
  now rewrite E, count_failure_eq.
Qed.

(** While the counter stays at most 5, errors in a row keep the loop going. *)
Lemma iterate_failures (n : nat) :
  forall st,
    Z.of_nat n <= many st ->
    fail st + Z.of_nat n <= 5 ->
    (forall k, 1 <= k <= Z.of_nat n ->
        ~ In (start st + k) (ids (messages st))
        /\ urlopen (url_of (start st + k)) = FetchException) ->
    iterate n st = (Continue, failed n st).
Proof.
  induction n as [|n IH]; intros st Hm Hf Hk; [reflexivity|].
  cbn [iterate failed].
  destruct (Hk 1 ltac:(lia)) as [Hout E].
  rewrite (iteration_fetch_error st ltac:(lia) Hout E).
  destruct (Z.gtb_spec (fail st + 1) 5); [lia|].
  apply IH; simpl; try lia.
  intros k Hk'. replace (start st + 1 + k) with (start st + (k + 1)) by lia.
  apply Hk. lia.
Qed.

(** A pass with budget left, a next identifier that is absent and a document
    that came back with status 200: the pass is the handling of the text. *)
Lemma iteration_document (st : state) (text : str) :
  1 <= many st ->
  ~ In (start st + 1) (ids (messages st)) ->
  urlopen (url_of (start st + 1)) = Document text 200 ->
  iteration st = process (retrieving st) text.
Proof.
  intros Hm Hout E.
  rewrite (iteration_with_budget _ Hm), (advance_attempts _ Hout), attempt_next.
  now rewrite E.
Qed.

Lemma process_failure (st : state) (text : str) :
  split_message text = NoMarker \/ split_message text = NoBoundary
  \/ (exists hdr bdy, split_message text = Split hdr bdy
                      /\ extract_sent_at hdr = Raises) ->
  process st text = count_failure (set_count st (count st + 1)).
Proof.
  unfold process. intros [-> | [-> | (hdr & bdy & -> & ->)]]; reflexivity.
Qed.

Lemma process_success (st : state) (text hdr bdy : str) (sent : option str) :
  split_message text = Split hdr bdy ->
  extract_sent_at hdr = Returns sent ->
  fst (process st text) = Continue /\ fail (snd (process st text)) = 0.
Proof.
  intros Hs Hx. unfold process. rewrite Hs, Hx. cbv zeta. simpl fst. simpl snd.
  match goal with |- context [housekeeping ?s] =>
    destruct (housekeeping_keeps s) as (_ & _ & _ & H4 & _)
  end.
  cbv zeta in H4. split; [reflexivity | now rewrite H4].
Qed.

(** C3, as the code has it. With budget left and a next identifier that is
    not stored, a retrieval that raises an error, a text without marker or
    blank line, and a date both parsers reject each add one to the failure
    counter, and a message that parses sets it back to zero; a failure ends
    the run exactly when it lifts the counter above 5, that is when the
    counter stood at 5 or more. So after five retrievals in a row that raised
    an error the loop is still running with the counter at 5; the sixth pass
    requests its address like any other; the run ends there if that
    retrieval fails too, and goes on with the counter at zero if it yields a
    message that parses. *)
Theorem failure_counter_and_threshold :
  (forall st,
      1 <= many st -> ~ In (start st + 1) (ids (messages st)) ->
      (urlopen (url_of (start st + 1)) = FetchException ->
       iteration st = count_failure (retrieving st))
      /\ (forall text,
            urlopen (url_of (start st + 1)) = Document text 200 ->
            split_message text = NoMarker \/ split_message text = NoBoundary
            \/ (exists hdr bdy, split_message text = Split hdr bdy
                                /\ extract_sent_at hdr = Raises) ->
            iteration st
            = count_failure (set_count (retrieving st) (count st + 1)))
      /\ (forall text hdr bdy sent,
            urlopen (url_of (start st + 1)) = Document text 200 ->
            split_message text = Split hdr bdy ->
            extract_sent_at hdr = Returns sent ->
            fst (iteration st) = Continue /\ fail (snd (iteration st)) = 0))
  /\ (forall s, fail (snd (count_failure s)) = fail s + 1
                /\ messages (snd (count_failure s)) = messages s
                /\ (fst (count_failure s) = Break <-> 5 <= fail s)
                /\ (fst (count_failure s) = Continue <-> fail s < 5))
  /\ (forall st,
        fail st = 0 -> 6 <= many st ->
        (forall k, 1 <= k <= 6 -> ~ In (start st + k) (ids (messages st))) ->
        (forall k, 1 <= k <= 5 ->
            urlopen (url_of (start st + k)) = FetchException) ->
        iterate 5 st = (Continue, failed 5 st)
        /\ fail (failed 5 st) = 5
        /\ attempts (failed 5 st) = attempts st + 5
        /\ fetches (trace (snd (iterate 6 st)))
           = url_of (start st + 6) :: fetches (trace (failed 5 st))
        /\ (urlopen (url_of (start st + 6)) = FetchException ->
            iterate 6 st = (Break, failed 6 st) /\ fail (failed 6 st) = 6)
        /\ (forall text hdr bdy sent,
              urlopen (url_of (start st + 6)) = Document text 200 ->
              split_message text = Split hdr bdy ->
              extract_sent_at hdr = Returns sent ->
              fst (iterate 6 st) = Continue
              /\ fail (snd (iterate 6 st)) = 0)).
Proof.
  split; [|split].
  - intros st Hm Hout. split; [|split].
    + intros E. rewrite (iteration_fetch_error _ Hm Hout E).
      now rewrite count_failure_eq.
    + intros text E Hbad. rewrite (iteration_document _ _ Hm Hout E).
      now rewrite (process_failure _ _ Hbad).
    + intros text hdr bdy sent E Hs Hx.
      rewrite (iteration_document _ _ Hm Hout E).
      now apply (process_success _ _ _ _ _ Hs Hx).
  - intros s. rewrite count_failure_eq. simpl.
    destruct (Z.gtb_spec (fail s + 1) 5); repeat split; auto;
      try discriminate; try lia.
  - intros st Hf Hm Hout Herr.
    assert (I5 : iterate 5 st = (Continue, failed 5 st)).
    { apply iterate_failures; try (simpl; lia).
      intros k Hk. split; [apply Hout | apply Herr]; simpl in Hk; lia. }
    destruct (failed_fields 5 st) as (F1 & F2 & F3 & F4 & F5 & F6).
    assert (Hm5 : 1 <= many (failed 5 st)) by (rewrite F2; simpl; lia).
    assert (Hout5 : ~ In (start (failed 5 st) + 1) (ids (messages (failed 5 st)))).
    { rewrite F1, F5. replace (start st + Z.of_nat 5 + 1) with (start st + 6)
        by (simpl; lia). apply Hout. lia. }
    assert (U : start (failed 5 st) + 1 = start st + 6) by (rewrite F1; simpl; lia).
    assert (I6 : iterate 6 st = iteration (failed 5 st)).
    { change 6%nat with (5 + 1)%nat. rewrite iterate_add, I5.
      apply iterate_one. }
    split; [assumption|]. split; [rewrite F3, Hf; reflexivity|].
    split; [rewrite F6; reflexivity|]. split; [|split].
    + rewrite I6, (iteration_with_budget _ Hm5), (advance_attempts _ Hout5).
      destruct (attempt _) as [c s] eqn:E. apply attempt_effect in E.
      simpl in *. destruct E as (_ & _ & _ & _ & -> & _). now rewrite U.
    + intros E. rewrite <- U in E.
      destruct (failed_fields 6 st) as (_ & _ & G3 & _).
      split; [|rewrite G3, Hf; reflexivity].
      rewrite I6, (iteration_fetch_error _ Hm5 Hout5 E), <- failed_last.
      destruct (Z.gtb_spec (fail (failed 5 st) + 1) 5) as [_|Hle];
        [reflexivity|].
      rewrite F3, Hf in Hle. simpl in Hle. lia.
    + intros text hdr bdy sent E Hs Hx. rewrite <- U in E.
      rewrite I6, (iteration_document _ _ Hm5 Hout5 E).
      now apply (process_success _ _ _ _ _ Hs Hx).
Qed.

(* ================================================================== *)
(** ** The budget of a session *)

Lemma rows_past_app (s : Z) (a b : list message) :
  rows_past s (a ++ b) = (rows_past s a + rows_past s b)%nat.
Proof. unfold rows_past. now rewrite filter_app, length_app. Qed.

Lemma rows_past_next (s : Z) (tbl : list message) :
  (rows_past (s + 1) tbl <= rows_past s tbl)%nat.
Proof.
  unfold rows_past. induction tbl as [|r tbl IH]; simpl; [lia|].
  destruct (Z.ltb_spec (s + 1) (id r)), (Z.ltb_spec s (id r)); simpl; lia.
Qed.

Lemma rows_past_skip (s : Z) (tbl : list message) :
  In (s + 1) (ids tbl) -> (rows_past (s + 1) tbl < rows_past s tbl)%nat.
Proof.
  unfold rows_past, ids. induction tbl as [|r tbl IH]; simpl; [tauto|].
  intros [E|Hin].
  - pose proof (rows_past_next s tbl) as M. unfold rows_past in M.
    destruct (Z.ltb_spec (s + 1) (id r)), (Z.ltb_spec s (id r)); simpl; lia.
  - specialize (IH Hin).
    destruct (Z.ltb_spec (s + 1) (id r)), (Z.ltb_spec s (id r)); simpl; lia.
Qed.

(** A pass made with budget left asks nothing of the console, raises
    nothing, and charges the budget exactly when it makes a retrieval. *)
Lemma iteration_budget (st st' : state) (c : control) :
  1 <= many st ->
  iteration st = (c, st') ->
  c <> Uncaught
  /\ prompts (trace st') = prompts (trace st)
  /\ 0 <= many st'
  /\ many st' + attempts st' = many st + attempts st
  /\ (c = Continue ->
      (Z.to_nat (many st') + rows_past (start st') (messages st')
       < Z.to_nat (many st) + rows_past (start st) (messages st))%nat).
Proof.
  intros Hm H. rewrite (iteration_with_budget _ Hm) in H.
  destruct (in_ids_dec (start st + 1) (messages st)) as [Hin|Hout].
  - rewrite (advance_skips _ Hin) in H. injection H as <- <-.
    unfold attempts. simpl. repeat split; try lia; try discriminate.
    intros _. pose proof (rows_past_skip _ _ Hin). lia.
  - rewrite (advance_attempts _ Hout) in H. apply attempt_effect in H.
    simpl in H. destruct H as (H0 & H1 & H2 & _ & H4 & H5 & H6).
    unfold attempts. rewrite H4, H2, H1. cbn [List.length].
    rewrite Nat2Z.inj_succ. repeat split; auto; try lia.
    intros _.
    assert (R : (rows_past (start st + 1) (messages st')
                 <= rows_past (start st) (messages st))%nat).
    { pose proof (rows_past_next (start st) (messages st)) as M.
      destruct H6 as [->|(r & Hr & ->)]; [assumption|].
      rewrite rows_past_app. unfold rows_past at 2. simpl.
      destruct (Z.ltb_spec (start st + 1) (id r)); simpl; lia. }
    lia.
Qed.

Lemma iteration_prompts (st st' : state) (c : control) :
  iteration st = (c, st') ->
  (prompts (trace st) <= prompts (trace st'))%nat.
Proof.
  unfold iteration. intros H. destruct (ask_budget st) as [c1 st1] eqn:A.
  apply ask_budget_keeps in A. destruct A as (_ & _ & _ & _ & _ & A6).
  destruct c1; try (injection H as <- <-; assumption).
  destruct (in_ids_dec (start st1 + 1) (messages st1)) as [Hin|Hout].
  - rewrite (advance_skips _ Hin) in H. now injection H as <- <-.
  - rewrite (advance_attempts _ Hout) in H. apply attempt_effect in H.
    simpl in H. destruct H as (_ & _ & _ & _ & _ & H5 & _). lia.
Qed.

Lemma iterate_prompts (n : nat) :
  forall st st' c, iterate n st = (c, st') ->
                   (prompts (trace st) <= prompts (trace st'))%nat.
Proof.
  induction n as [|n IH]; intros st st' c H; simpl in H.
  - injection H as <- <-. lia.
  - destruct (iteration st) as [c1 st1] eqn:E. apply iteration_prompts in E.
    destruct c1; try (injection H as <- <-; assumption).
    apply IH in H. lia.
Qed.

(** A pass made with no budget left reads the console, or dies on a closed
    console without touching budget or retrievals. *)
Lemma iteration_without_budget (st st' : state) (c : control) :
  many st < 1 ->
  iteration st = (c, st') ->
  (c = Uncaught /\ many st' = many st /\ attempts st' = attempts st)
  \/ (prompts (trace st) < prompts (trace st'))%nat.
Proof.
  intros Hm H. unfold iteration, ask_budget in H.
  destruct (Z.ltb_spec (many st) 1); [|lia].
  cbv zeta in H. destruct (stdin (commit st)) as [|sval rest] eqn:Hcon.
  - injection H as <- <-. left. repeat split.
  - right.
    set (asked := emit (set_stdin (commit st) rest) EvPrompt) in *.
    assert (P : prompts (trace asked) = S (prompts (trace st))) by reflexivity.
    destruct (List.length sval <? 1)%nat.
    + injection H as <- <-. lia.
    + destruct (py_int sval) as [n|].
      * assert (Q : (prompts (trace (set_many asked n))
                     <= prompts (trace st'))%nat).
        { destruct (in_ids_dec (start (set_many asked n) + 1)
                      (messages (set_many asked n))) as [Hin|Hout].
          - rewrite (advance_skips _ Hin) in H. now injection H as <- <-.
          - rewrite (advance_attempts _ Hout) in H. apply attempt_effect in H.
            destruct H as (_ & _ & _ & _ & _ & H5 & _). simpl in *. lia. }
        simpl in Q. lia.
      * injection H as <- <-. lia.
Qed.

(** Between two prompts the budget pays for the retrievals, one each. *)
Lemma iterate_budget (n : nat) :
  forall st st' c,
    0 <= many st ->
    iterate n st = (c, st') ->
    prompts (trace st') = prompts (trace st) ->
    0 <= many st' /\ many st' + attempts st' = many st + attempts st.
Proof.
  induction n as [|n IH]; intros st st' c Hm H Hp; simpl in H.
  - injection H as <- <-. auto.
  - destruct (iteration st) as [c1 st1] eqn:E.
    pose proof (iteration_prompts _ _ _ E) as P1.
    destruct (Z.ltb_spec (many st) 1) as [Hlt|Hge].
    + destruct (iteration_without_budget _ _ _ Hlt E) as [(-> & M & A)|P].
      * injection H as <- <-. rewrite M, A. auto.
      * exfalso. destruct c1.
        -- apply iterate_prompts in H. lia.
        -- injection H as <- <-. lia.
        -- injection H as <- <-. lia.
    + destruct (iteration_budget _ _ _ Hge E) as (_ & B2 & B3 & B4 & _).
      destruct c1; try (injection H as <- <-; split; assumption).
      destruct (IH _ _ _ B3 H ltac:(lia)) as [I1 I2]. split; lia.
Qed.

(** A session comes to its end: within as many passes as the budget plus the
    rows stored past the cursor, the loop has left or the budget is used up,
    and the console was not read in between. *)
Lemma session_ends (m : nat) :
  forall st,
    1 <= many st ->
    (Z.to_nat (many st) + rows_past (start st) (messages st) <= m)%nat ->
    exists n st' c,
      (n <= m)%nat
      /\ iterate n st = (c, st')
      /\ prompts (trace st') = prompts (trace st)
      /\ (c = Break \/ (c = Continue /\ many st' = 0)).
Proof.
  induction m as [|m IH]; intros st Hm Hmu; [lia|].
  destruct (iteration st) as [c1 st1] eqn:E.
  destruct (iteration_budget _ _ _ Hm E) as (B1 & B2 & B3 & B4 & B5).
  destruct c1; [| |contradiction].
  - destruct (Z.eq_dec (many st1) 0) as [Z0|NZ].
    + exists 1%nat, st1, Continue. rewrite iterate_one.
      repeat split; auto; lia.
    + specialize (B5 eq_refl).
      destruct (IH st1 ltac:(lia) ltac:(lia)) as (n & st' & c & Hn & Hi & Hp & Hc).
      exists (S n), st', c. cbn [iterate]. rewrite E.
      repeat split; auto; try lia.
  - exists 1%nat, st1, Break. rewrite iterate_one. repeat split; auto; lia.
Qed.

(** C10, as the code has it. Passing over a stored identifier changes the
    cursor and nothing else: budget, processed count, failure counter,
    table, console and trace stay as they were. So between two prompts a
    budget of N >= 1 pays for one retrieval each, all of them at identifiers
    that were not stored: at most N of them, and exactly N when the loop has
    not been left before the budget is used up; and every session comes to
    one of these two ends. *)
Theorem skipping_is_free_and_budget_pays_retrievals :
  (forall st,
      In (start st + 1) (ids (messages st)) ->
      advance st = (Continue, set_start st (start st + 1))
      /\ (1 <= many st ->
          iteration st = (Continue, set_start st (start st + 1))))
  /\ (forall st v,
        many (set_start st v) = many st
        /\ count (set_start st v) = count st
        /\ fail (set_start st v) = fail st
        /\ messages (set_start st v) = messages st
        /\ committed (set_start st v) = committed st
        /\ stdin (set_start st v) = stdin st
        /\ trace (set_start st v) = trace st)
  /\ (forall n st st' c,
        1 <= many st ->
        iterate n st = (c, st') ->
        prompts (trace st') = prompts (trace st) ->
        0 <= many st'
        /\ attempts st' - attempts st = many st - many st'
        /\ exists new,
             fetches (trace st') = new ++ fetches (trace st)
             /\ Forall (fun u => exists k, u = url_of k
                                           /\ ~ In k (ids (messages st))) new)
  /\ (forall st,
        1 <= many st ->
        exists n st' c,
          iterate n st = (c, st')
          /\ prompts (trace st') = prompts (trace st)
          /\ (c = Break
              \/ (c = Continue /\ many st' = 0
                  /\ attempts st' - attempts st = many st))).
Proof.
  split; [|split; [|split]].
  - intros st Hin. split; [now apply advance_skips|].
    intros Hm. rewrite (iteration_with_budget _ Hm). now apply advance_skips.
  - intros st v. repeat split.
  - intros n st st' c Hm H Hp.
    assert (Hm0 : 0 <= many st) by lia.
    destruct (iterate_budget n _ _ _ Hm0 H Hp) as [B1 B2].
    split; [assumption|]. split; [lia|].
    destruct (iterate_effect n _ _ _ H) as (_ & _ & _ & new & I4 & I5).
    exists new. split; [assumption|].
    eapply Forall_impl; [|exact I5]. simpl.
    intros u (k & Hu & _ & Hk). now exists k.
  - intros st Hm.
    destruct (session_ends _ st Hm (Nat.le_refl _))
      as (n & st' & c & _ & Hi & Hp & Hc).
    exists n, st', c. split; [assumption|]. split; [assumption|].
    destruct Hc as [->|[-> Z0]]; [now left | right].
    assert (Hm0 : 0 <= many st) by lia.
    destruct (iterate_budget n _ _ _ Hm0 Hi Hp) as [_ B2].
    repeat split; auto. lia.
Qed.

(* ================================================================== *)
(** ** Where the header block ends *)

(** [s.find(sub)] is the lowest index where [sub] occurs. *)
Lemma find_from_first (s sub : str) (i : Z) :
  0 <= i -> find_from s sub i <> -1 ->
  forall j, (j < Z.to_nat (find_from s sub i - i))%nat ->
            startswith (skipn j s) sub = false.
Proof.
  revert i. induction s as [|a s IH]; intros i Hi H j Hj;
    cbn [find_from] in H, Hj.
  - destruct (startswith [] sub) eqn:E; [|contradiction].
    rewrite Z.sub_diag in Hj. simpl in Hj. lia.
  - destruct (startswith (a :: s) sub) eqn:E.
    + rewrite Z.sub_diag in Hj. simpl in Hj. lia.
    + destruct j as [|j]; [exact E|]. simpl.
      destruct (find_from_found s sub (i + 1) ltac:(lia) H) as [Hle _].
      apply (IH (i + 1)); [lia | assumption | lia].
Qed.

Lemma find_from_is (sub : str) (n : nat) :
  forall (s : str) (i : Z),
    (n <= List.length s)%nat ->
    startswith (skipn n s) sub = true ->
    (forall j, (j < n)%nat -> startswith (skipn j s) sub = false) ->
    find_from s sub i = i + Z.of_nat n.
Proof.
  induction n as [|n IH]; intros s i Hn Hs Hj.
  - simpl in Hs. destruct s; cbn [find_from]; rewrite Hs; lia.
  - destruct s as [|a s]; [simpl in Hn; lia|].
    pose proof (Hj O ltac:(lia)) as H0. cbn [skipn] in H0.
    cbn [find_from]. rewrite H0.
    rewrite (IH s (i + 1)).
    + lia.
    + simpl in Hn. lia.
    + exact Hs.
    + intros j Hlt. apply (Hj (S j)). lia.
Qed.

Lemma startswith_two (a b : ascii) (s : str) :
  startswith s [a; b] = true <-> exists r, s = a :: b :: r.
Proof.
  split.
  - intros H. apply startswith_split in H. destruct H as [r ->]. now exists r.
  - intros [r ->]. apply (startswith_app [a; b] r).
Qed.

(** The text from index [n] on, in a text that goes on after [x]. *)
Lemma skipn_in_front (x y : str) (n : nat) :
  (n <= List.length x)%nat -> skipn n (x ++ y) = skipn n x ++ y.
Proof.
  intros H. rewrite skipn_app. replace (n - List.length x)%nat with O by lia.
  reflexivity.
Qed.

(** A blank line that begins inside [x] shows in [x] followed by one line
    feed, whatever comes after. *)
Lemma blank_line_inside (x y : str) (n : nat) :
  (n < List.length x)%nat ->
  startswith (skipn n (x ++ LF :: y)) [LF; LF]
  = startswith (skipn n (x ++ [LF])) [LF; LF].
Proof.
  intros H. rewrite !skipn_in_front by lia.
  destruct (skipn n x) as [|a [|b t]] eqn:E.
  - apply (f_equal (@List.length ascii)) in E. rewrite length_skipn in E.
    simpl in E. lia.
  - reflexivity.
  - reflexivity.
Qed.

Lemma marker_before_blank_line (t : str) (p : nat) :
  startswith t (py "From ") = true ->
  startswith (skipn p t) [LF; LF] = true ->
  startswith (firstn p t) (py "From ") = true.
Proof.
  intros Hm Hp. apply startswith_split in Hm. destruct Hm as [t' ->].
  do 5 (destruct p as [|p]; [discriminate Hp|]). reflexivity.
Qed.

(** Lines 105-121 as a whole: a text is cut into a header block and a body
    exactly when it begins with the marker and the header block is what
    stands before its first blank line. *)
Theorem header_block_ends_at_the_first_blank_line (text hdr bdy : str) :
  split_message text = Split hdr bdy
  <-> text = hdr ++ py "\n\n" ++ bdy
      /\ startswith hdr (py "From ") = true
      /\ find (hdr ++ py "\n") (py "\n\n") = -1.
Proof.
  unfold split_message. cbv zeta.
  change (py "\n\n") with [LF; LF]. change (py "\n") with [LF]. split.
  - destruct (startswith text (py "From ")) eqn:Hm; [|discriminate].
    cbn [negb]. destruct (Z.gtb_spec (find text [LF; LF]) 0) as [Hpos|];
      [|discriminate].
    intros [= <- <-]. unfold slice_to, slice_from.
    set (p := Z.to_nat (find text [LF; LF])).
    assert (Hne : find_from text [LF; LF] 0 <> -1) by (unfold find in Hpos; lia).
    destruct (find_from_found text [LF; LF] 0 ltac:(lia) Hne) as [_ Hat].
    pose proof (find_from_first text [LF; LF] 0 ltac:(lia) Hne) as Hfirst.
    rewrite Z.sub_0_r in Hat, Hfirst. fold (find text [LF; LF]) in Hat, Hfirst.
    fold p in Hat, Hfirst.
    pose proof Hat as Hat'. apply startswith_two in Hat'.
    destruct Hat' as [r Er].
    assert (Et : text = firstn p text ++ LF :: LF :: r).
    { rewrite <- Er. symmetry. apply firstn_skipn. }
    assert (Lp : List.length (firstn p text) = p).
    { apply firstn_length_le.
      apply (f_equal (@List.length ascii)) in Er. rewrite length_skipn in Er.
      simpl in Er. lia. }
    split; [|split].
    + replace (Z.to_nat (find text [LF; LF] + 2)) with (2 + p)%nat
        by (unfold p; lia).
      rewrite <- skipn_skipn, Er. exact Et.
    + now apply marker_before_blank_line.
    + apply find_absent. intros n.
      destruct (startswith (skipn n (firstn p text ++ [LF])) [LF; LF]) eqn:E;
        [exfalso | reflexivity].
      assert (Hn : (n < p)%nat).
      { apply startswith_two in E. destruct E as [r' E].
        apply (f_equal (@List.length ascii)) in E.
        rewrite length_skipn, length_app, Lp in E. simpl in E. lia. }
      rewrite <- blank_line_inside with (y := LF :: r) in E by lia.
      rewrite <- Et in E. rewrite (Hfirst n Hn) in E. discriminate E.
  - intros (-> & Hm & Hno).
    assert (Hm' : startswith (hdr ++ [LF; LF] ++ bdy) (py "From ") = true).
    { apply startswith_split in Hm. destruct Hm as [h ->].
      rewrite <- app_assoc. apply startswith_app. }
    rewrite Hm'. cbn [negb].
    assert (Hlen : (5 <= List.length hdr)%nat).
    { apply startswith_split in Hm. destruct Hm as [h ->].
      rewrite length_app. simpl. lia. }
    assert (Hf : find (hdr ++ [LF; LF] ++ bdy) [LF; LF]
                 = Z.of_nat (List.length hdr)).
    { unfold find. rewrite (find_from_is [LF; LF] (List.length hdr)).
      - lia.
      - rewrite length_app. lia.
      - rewrite skipn_app, skipn_all, Nat.sub_diag. reflexivity.
      - intros j Hj. cbn [app].
        rewrite blank_line_inside by assumption.
        now apply find_absent. }
    rewrite Hf. destruct (Z.gtb_spec (Z.of_nat (List.length hdr)) 0); [|lia].
    unfold slice_to, slice_from. f_equal.
    + rewrite Nat2Z.id, firstn_app, firstn_all, Nat.sub_diag. simpl.
      apply app_nil_r.
    + replace (Z.to_nat (Z.of_nat (List.length hdr) + 2))
        with (List.length hdr + 2)%nat by lia.
      rewrite skipn_app, skipn_all2 by lia.
      replace (List.length hdr + 2 - List.length hdr)%nat with 2%nat by lia.
      reflexivity.
Qed.

(* ================================================================== *)
(** ** What a match can hold *)

(** Every group [findall] returns is the group of a match somewhere in the
    text. *)
Lemma scan_sound (p : pattern) :
  forall (s : str) (k : nat) (g : str),
    In g (scan p s k) ->
    exists i r, re_match p (skipn i s) = Some (g, r).
Proof.
  induction s as [|a s IH]; intros k g H; destruct k as [|k];
    cbn [scan] in H.
  - destruct (re_match p []) as [[g' r]|] eqn:E; [|contradiction].
    destruct H as [<-|[]]. now exists O, r.
  - contradiction.
  - destruct (re_match p (a :: s)) as [[g' r]|] eqn:E.
    + destruct H as [<-|H]; [now exists O, r|].
      destruct (IH _ _ H) as (i & r' & Hi). now exists (S i), r'.
    + destruct (IH _ _ H) as (i & r' & Hi). now exists (S i), r'.
  - destruct (IH _ _ H) as (i & r' & Hi). now exists (S i), r'.
Qed.

(** Greedy repetition settles on the longest run that lets the rest of the
    pattern match. *)
Lemma greedy_first {R : Type} (f : nat -> option R) (lo n : nat) (r : R) :
  greedy f lo n = Some r ->
  exists k, (lo <= k <= n)%nat /\ f k = Some r
            /\ forall j, (k < j <= n)%nat -> f j = None.
Proof.
  induction n as [|n IH]; cbn [greedy].
  - destruct (Nat.ltb_spec 0 lo) as [L|L]; [discriminate|].
    destruct (f O) eqn:E; [|discriminate].
    intros [= <-]. exists O. repeat split; [lia | lia | assumption | lia].
  - destruct (Nat.ltb_spec (S n) lo) as [L|L]; [discriminate|].
    destruct (f (S n)) eqn:E.
    + intros [= <-]. exists (S n). repeat split; [lia | lia | assumption | lia].
    + intros G. destruct (IH G) as (k & Hk & Hf & Hj). exists k.
      repeat split; [lia | lia | assumption |].
      intros j Hlt. destruct (Nat.eq_dec j (S n)) as [->|Hne]; [assumption|].
      apply Hj. lia.
Qed.

Lemma match_here_lits (l : str) (p : pattern) :
  forall (s opened grp : str) (res : str * str),
    match_here (lits l ++ p) s opened grp = Some res ->
    exists s', s = l ++ s' /\ match_here p s' opened grp = Some res.
Proof.
  induction l as [|b l IH]; intros s opened grp res H.
  - now exists s.
  - cbn [lits map app match_here] in H. destruct s as [|a s]; [discriminate|].
    simpl in H. destruct (Ascii.eqb_spec a b) as [->|]; [|discriminate].
    destruct (IH _ _ _ _ H) as (s' & -> & Hm). now exists s'.
Qed.

(** The groups of the Subject pattern hold no line feed. *)
Lemma subject_group_is_one_line (hdr z : str) :
  In z (findall "\Subject: (.*)\n" hdr) -> ~ In LF z.
Proof.
  unfold findall. intros H. apply scan_sound in H. destruct H as (i & r & H).
  rewrite subject_pattern_eq in H. apply match_here_sound in H.
  cbn [Matches] in H. destruct H as (a & s' & _ & _ & H).
  apply Matches_lits in H. destruct H as (s'' & _ & H).
  apply Matches_rest_of_line in H. destruct H as (v & post & _ & Hv & [= -> _]).
  now apply dot_iff_no_newline.
Qed.

(** The groups of the Date pattern hold no line feed and no comma followed
    by a blank: the group is what stands after the last one of the line. *)
Lemma date_group_follows_last_comma (hdr y : str) :
  In y (findall "\Date: .*, (.*)\n" hdr) ->
  ~ In LF y /\ forall a b, y <> a ++ chars ", " ++ b.
Proof.
  unfold findall. intros H. apply scan_sound in H. destruct H as (i & r & H).
  rewrite date_pattern_eq in H. unfold re_match in H.
  set (opened := skipn i hdr) in H at 2. clearbody opened.
  cbn [match_here] in H. destruct (skipn i hdr) as [|c s1]; [discriminate|].
  destruct (cmatch CNonDigit c); [|discriminate].
  apply match_here_lits in H. destruct H as (s2 & _ & H).
  cbn [match_here] in H. apply greedy_first in H.
  destruct H as (k & Hk & Hf & Hlong).
  pose proof Hf as Hm. apply match_here_sound in Hm.
  apply Matches_lits in Hm. destruct Hm as (s3 & E3 & Hm).
  apply Matches_rest_of_line in Hm.
  destruct Hm as (v & post & -> & Hv & [= Ey Er]). subst y r.
  split; [now apply dot_iff_no_newline|].
  intros a b Ev. subst v.
  apply all_in_app in Hv. destruct Hv as [Ha Hv].
  apply all_in_app in Hv. destruct Hv as [_ Hb].
  assert (Hx : all_in CDot (chars ", " ++ a)).
  { apply all_in_app. split; [repeat constructor | assumption]. }
  assert (Es2 : s2 = firstn k s2 ++ (chars ", " ++ a)
                     ++ chars ", " ++ b ++ LF :: post).
  { rewrite <- (firstn_skipn k s2) at 1. rewrite E3.
    now rewrite <- !app_assoc. }
  destruct (span_prefix CDot s2 k ltac:(lia)) as [_ Lk].
  assert (Hspan : (k + List.length (chars ", " ++ a) <= span CDot s2)%nat).
  { rewrite Es2 at 1. rewrite app_assoc.
    pose proof (span_app CDot (firstn k s2 ++ chars ", " ++ a)
                  (chars ", " ++ b ++ LF :: post)) as Hsp.
    rewrite length_app, Lk in Hsp. apply Hsp.
    apply all_in_app. split; [|assumption].
    destruct (span_prefix CDot s2 k ltac:(lia)) as [Hd _]. exact Hd. }
  specialize (Hlong (k + List.length (chars ", " ++ a))%nat).
  cbv beta in Hlong.
  assert (Hskip : skipn (k + List.length (chars ", " ++ a)) s2
                  = chars ", " ++ b ++ LF :: post).
  { rewrite Es2 at 1. rewrite app_assoc.
    replace (k + List.length (chars ", " ++ a))%nat
      with (List.length (firstn k s2 ++ chars ", " ++ a) + 0)%nat
      by (rewrite length_app, Lk; lia).
    apply skipn_past. }
  rewrite Hskip in Hlong.
  eapply match_here_complete; [|apply Hlong].
  - apply Matches_lits. exists (b ++ LF :: post). split; [reflexivity|].
    apply Matches_rest_of_line. exists b, post. repeat split. exact Hb.
  - rewrite length_app in Hspan |- *. simpl in Hspan |- *. lia.
Qed.

(** The groups of the two From patterns: an address without blanks around
    its [@]. *)
Lemma from_group_is_an_address (hdr x : str) :
  In x (findall "\nFrom: .* <(\S+@\S+)>\n" hdr)
  \/ In x (findall "\nFrom: (\S+@\S+)\n" hdr) ->
  exists u w, x = u ++ "@"%char :: w /\ u <> [] /\ w <> []
              /\ all_in CNonSpace u /\ all_in CNonSpace w.
Proof.
  unfold findall. intros [H|H].
  - apply scan_sound in H. destruct H as (i & r & H).
    rewrite named_pattern_eq in H. apply match_here_sound in H.
    apply Matches_lits in H. destruct H as (s1 & _ & H).
    apply Matches_star in H. destruct H as (n & s2 & _ & _ & H).
    apply Matches_lits in H. destruct H as (s3 & _ & H).
    apply Matches_address in H.
    destruct H as (u & w & r' & _ & Hu & Hw & Au & Aw & E).
    injection E as -> _. exists u, w. repeat split; assumption.
  - apply scan_sound in H. destruct H as (i & r & H).
    rewrite bare_pattern_eq in H. apply match_here_sound in H.
    apply Matches_lits in H. destruct H as (s1 & _ & H).
    apply (Matches_address [LF]) in H.
    destruct H as (u & w & r' & _ & Hu & Hw & Au & Aw & E).
    injection E as -> _. exists u, w. repeat split; assumption.
Qed.

Lemma isspace_lower_char (a : ascii) : isspace (lower_char a) = isspace a.
Proof. destruct a as [[] [] [] [] [] [] [] []]; reflexivity. Qed.

Lemma lower_char_line_feed (a : ascii) : lower_char a = LF -> a = LF.
Proof.
  destruct a as [[] [] [] [] [] [] [] []]; intros H;
    try reflexivity; discriminate H.
Qed.

Lemma lstrip_fixed (s : str) :
  (forall a t, s = a :: t -> isspace a = false) -> lstrip s = s.
Proof.
  intros H. destruct s as [|a s]; [reflexivity|]. simpl.
  now rewrite (H a s eq_refl).
Qed.

(** A text with no blank at either end is its own [strip]. *)
Lemma strip_fixed (s : str) :
  (forall a t, s = a :: t -> isspace a = false) ->
  (forall a t, s = t ++ [a] -> isspace a = false) ->
  strip s = s.
Proof.
  intros Hh Hl. unfold strip, rstrip. rewrite (lstrip_fixed s Hh).
  rewrite lstrip_fixed; [apply rev_involutive|].
  intros a t E. apply (Hl a (rev t)).
  rewrite <- (rev_involutive s), E. reflexivity.
Qed.

Lemma strip_is_inside (s : str) (a : ascii) : In a (strip s) -> In a s.
Proof.
  intros H. destruct (strip_spec s) as (l & r & E & _). rewrite E.
  apply in_or_app. right. apply in_or_app. now left.
Qed.

(** Lines 150-152, for every header block: a subject, when there is one, is
    one line without blanks at its ends, and lower-casing or trimming it
    again changes nothing. *)
Theorem a_subject_is_one_trimmed_line_in_lower_case (hdr s : str) :
  extract_subject hdr = Some s ->
  ~ In LF s /\ strip s = s /\ lower s = s
  /\ exists z, In z (findall "\Subject: (.*)\n" hdr) /\ s = lower (strip z).
Proof.
  unfold extract_subject.
  destruct (findall "\Subject: (.*)\n" hdr) as [|z0 [|z1 l]] eqn:E;
    try discriminate.
  intros [= <-].
  assert (Hz : ~ In LF z0).
  { apply (subject_group_is_one_line hdr). rewrite E. now left. }
  destruct (strip_spec z0) as (l & r & _ & _ & _ & Hhead & Hlast).
  split; [|split; [|split]].
  - intros Hin. unfold lower in Hin. apply in_map_iff in Hin.
    destruct Hin as (b & Hb & Hin). apply lower_char_line_feed in Hb.
    subst b. apply Hz. now apply strip_is_inside.
  - apply strip_fixed.
    + intros a t Ea. unfold lower in Ea. apply map_eq_cons in Ea.
      destruct Ea as (a0 & t0 & E0 & <- & _).
      rewrite isspace_lower_char. now apply (Hhead a0 t0).
    + intros a t Ea. unfold lower in Ea. apply map_eq_app in Ea.
      destruct Ea as (t0 & l0 & E0 & _ & E1).
      apply map_eq_cons in E1. destruct E1 as (a0 & n0 & -> & <- & E2).
      apply map_eq_nil in E2. subst n0.
      rewrite isspace_lower_char. now apply (Hlast a0 t0).
  - apply lower_idem.
  - exists z0. split; [now left | reflexivity].
Qed.

(** Lines 123-134, for every header block: an email, when there is one,
    holds an [@], holds no [<] and no blank, and is in lower case. *)
Theorem an_email_is_a_lower_case_address (hdr e : str) :
  extract_email hdr = Some e ->
  In "@"%char e /\ ~ In "<"%char e
  /\ (forall a, In a e -> isspace a = false)
  /\ lower e = e.
Proof.
  intros H.
  assert (G : exists x, e = clean_address x
                /\ (In x (findall "\nFrom: .* <(\S+@\S+)>\n" hdr)
                    \/ In x (findall "\nFrom: (\S+@\S+)\n" hdr))).
  { unfold extract_email in H.
    destruct (findall "\nFrom: .* <(\S+@\S+)>\n" hdr) as [|x0 [|x1 l]] eqn:E1.
    - destruct (findall "\nFrom: (\S+@\S+)\n" hdr) as [|x0 [|x1 l]] eqn:E2;
        try discriminate.
      injection H as <-. exists x0. split; [reflexivity | right; now left].
    - injection H as <-. exists x0. split; [reflexivity | left; now left].
    - destruct (findall "\nFrom: (\S+@\S+)\n" hdr) as [|y0 [|y1 l']] eqn:E2;
        try discriminate.
      injection H as <-. exists y0. split; [reflexivity | right; now left]. }
  destruct G as (x & -> & Hx). apply from_group_is_an_address in Hx.
  destruct Hx as (u & w & -> & _ & _ & Au & Aw).
  pose proof (address_nonspace u w Au Aw) as Ax.
  rewrite (clean_address_nonspace _ Ax).
  set (x := u ++ "@"%char :: w) in *.
  assert (Low : forall a, In a (filter (fun a => negb (Ascii.eqb a "<")) (lower x)) ->
                  exists b, In b x /\ a = lower_char b
                            /\ Ascii.eqb a "<" = false).
  { intros a Ha. apply filter_In in Ha. destruct Ha as [Ha Hn].
    unfold lower in Ha. apply in_map_iff in Ha. destruct Ha as (b & <- & Hb).
    exists b. repeat split; auto. now destruct (Ascii.eqb (lower_char b) "<"). }
  split; [|split; [|split]].
  - apply filter_In. split; [|reflexivity].
    unfold lower. apply in_map_iff. exists "@"%char. split; [reflexivity|].
    unfold x. apply in_or_app. right. now left.
  - intros Hin. destruct (Low _ Hin) as (b & _ & _ & Hn). discriminate Hn.
  - intros a Ha. destruct (Low _ Ha) as (b & Hb & -> & _).
    rewrite isspace_lower_char.
    unfold all_in in Ax. rewrite Forall_forall in Ax.
    specialize (Ax b Hb). simpl in Ax. now destruct (isspace b).
  - unfold lower at 1. rewrite <- (map_id (filter _ (lower x))) at 2.
    apply map_ext_in. intros a Ha. destruct (Low _ Ha) as (b & _ & -> & _).
    apply lower_char_idem.
Qed.

(** Lines 137-140, for every header block: the text handed to the date
    parsers is at most 26 characters of one line, cut from what follows the
    last comma-and-blank of the matched line. *)
Theorem a_date_text_is_short_and_follows_the_last_comma (hdr t : str) :
  extract_tdate hdr = Some t ->
  (List.length t <= 26)%nat /\ ~ In LF t
  /\ (forall a b, t <> a ++ chars ", " ++ b)
  /\ exists y, In y (findall "\Date: .*, (.*)\n" hdr) /\ t = firstn 26 y.
Proof.
  unfold extract_tdate.
  destruct (findall "\Date: .*, (.*)\n" hdr) as [|y0 [|y1 l]] eqn:E;
    try discriminate.
  intros [= <-]. unfold slice_to. change (Z.to_nat 26) with 26%nat.
  destruct (date_group_follows_last_comma hdr y0) as [Hlf Hcomma];
    [rewrite E; now left|].
  split; [apply firstn_le_length|]. split; [|split].
  - intros Hin. apply Hlf. rewrite <- (firstn_skipn 26 y0).
    apply in_or_app. now left.
  - intros a b Et. apply (Hcomma a (b ++ skipn 26 y0)).
    rewrite <- (firstn_skipn 26 y0) at 1. rewrite Et.
    now rewrite <- !app_assoc.
  - exists y0. split; [now left | reflexivity].
Qed.

(** The Date pattern asks for a comma and a blank after [ate: ]. *)
Lemma date_needs_comma (hdr : str) :
  occurrences (chars ", ") hdr = [] ->
  findall "\Date: .*, (.*)\n" hdr = [].
Proof.
  intros Hocc. unfold findall. apply scan_all_miss. intros i.
  rewrite date_pattern_eq. apply match_here_fails. intros res Hm.
  cbn [Matches] in Hm. destruct Hm as (a & s' & E & _ & Hm).
  apply Matches_lits in Hm. destruct Hm as (s1 & -> & Hm).
  apply Matches_star in Hm. destruct Hm as (x & s2 & -> & _ & Hm).
  apply Matches_lits in Hm. destruct Hm as (s3 & -> & _).
  pose proof (occurrences_none _ _ Hocc
                (List.length (a :: date_key ++ x) + 0 + i)) as Hno.
  rewrite <- skipn_skipn, E in Hno.
  replace (a :: date_key ++ x ++ chars ", " ++ s3)
    with ((a :: date_key ++ x) ++ chars ", " ++ s3) in Hno
    by (rewrite <- app_comm_cons, <- app_assoc; reflexivity).
  rewrite skipn_past in Hno. cbn [skipn] in Hno.
  now rewrite startswith_app in Hno.
Qed.

(** Line 81: two identifiers never share an address. *)
Theorem distinct_identifiers_have_distinct_addresses (j k : Z) :
  j <> k -> url_of j <> url_of k.
Proof. intros Hne E. apply Hne. now apply url_of_inj. Qed.

(* ================================================================== *)
(** ** What one pass is made of *)

(** The prompt of lines 66-70 in full. *)
Lemma ask_budget_cases (st st1 : state) (c : control) :
  ask_budget st = (c, st1) ->
  (1 <= many st /\ c = Continue /\ st1 = st)
  \/ (many st < 1
      /\ ((stdin st = [] /\ c = Uncaught /\ st1 = commit st)
          \/ exists sval rest,
               stdin st = sval :: rest
               /\ ((sval = [] /\ c = Break
                    /\ st1 = emit (set_stdin (commit st) rest) EvPrompt)
                   \/ (sval <> [] /\ py_int sval = None /\ c = Uncaught
                       /\ st1 = emit (set_stdin (commit st) rest) EvPrompt)
                   \/ (sval <> []
                       /\ exists n,
                            py_int sval = Some n /\ c = Continue
                            /\ st1 = set_many
                                       (emit (set_stdin (commit st) rest) EvPrompt)
                                       n)))).
Proof.
  unfold ask_budget. intros H.
  destruct (Z.ltb_spec (many st) 1) as [Hlt|Hge].
  - right. split; [assumption|]. cbv zeta in H.
    change (stdin (commit st)) with (stdin st) in H.
    destruct (stdin st) as [|sval rest].
    + left. injection H as <- <-. auto.
    + right. exists sval, rest. split; [reflexivity|].
      destruct sval as [|a sval].
      * left. injection H as <- <-. auto.
      * right. cbn [List.length Nat.ltb Nat.leb] in H.
        destruct (py_int (a :: sval)) as [n|].
        -- right. split; [discriminate|]. exists n. injection H as <- <-. auto.
        -- left. injection H as <- <-. repeat split; auto. discriminate.
  - left. injection H as <- <-. auto.
Qed.

(** Lines 102-161 in full: a document counts one failure, or becomes one
    row. *)
Lemma process_cases (st st' : state) (text : str) (c : control) :
  process st text = (c, st') ->
  (c = (if fail st + 1 >? 5 then Break else Continue)
   /\ st' = set_fail (set_count st (count st + 1)) (fail st + 1))
  \/ (exists hdr bdy sent,
        split_message text = Split hdr bdy
        /\ extract_sent_at hdr = Returns sent
        /\ c = Continue
        /\ st' = housekeeping
                   (set_messages (set_fail (set_count st (count st + 1)) 0)
                      (messages st
                       ++ [mkMessage (start st) (extract_email hdr) sent
                                     (extract_subject hdr) hdr bdy]))).
Proof.
  unfold process. intros H.
  destruct (split_message text) as [| |hdr bdy] eqn:Hs.
  - left. rewrite count_failure_eq in H. injection H as <- <-. auto.
  - left. rewrite count_failure_eq in H. injection H as <- <-. auto.
  - destruct (extract_sent_at hdr) as [sent|] eqn:Hx.
    + right. exists hdr, bdy, sent. cbv zeta in H.
      rewrite execute_insert_appends in H. injection H as <- <-. auto.
    + left. rewrite count_failure_eq in H. injection H as <- <-. auto.
Qed.

(** What line 160 commits and what line 161 waits for. *)
Lemma housekeeping_eq (st : state) :
  housekeeping st
  = if count st mod 100 =? 0 then emit (commit st) EvSleep
    else if count st mod 50 =? 0 then commit st
    else st.
Proof.
  unfold housekeeping.
  destruct (Z.eqb_spec (count st mod 100) 0) as [H100|H100].
  - assert (H50 : count st mod 50 = 0).
    { apply Z.mod_divide; [lia|]. apply Z.mod_divide in H100; [|lia].
      apply Z.divide_trans with 100; [now exists 2 | assumption]. }
    rewrite H50. simpl. now rewrite H100.
  - destruct (count st mod 50 =? 0); simpl;
      destruct (Z.eqb_spec (count st mod 100) 0); try contradiction; reflexivity.
Qed.

(** One pass in full: it stops at the prompt, passes over a stored
    identifier, or requests the next one and deals with the answer. *)
Lemma iteration_cases (st st' : state) (c : control) :
  iteration st = (c, st') ->
  exists c1 st1,
    ask_budget st = (c1, st1)
    /\ ((c1 <> Continue /\ c = c1 /\ st' = st1)
        \/ (c1 = Continue /\ In (start st + 1) (ids (messages st))
            /\ c = Continue /\ st' = set_start st1 (start st + 1))
        \/ (c1 = Continue /\ ~ In (start st + 1) (ids (messages st))
            /\ ((archive (url_of (start st + 1)) = Interrupt
                 /\ c = Break /\ st' = retrieving st1)
                \/ (exists status text,
                      archive (url_of (start st + 1))
                      = Answer status (Some text)
                      /\ 200 < status < 300
                      /\ c = Break /\ st' = retrieving st1)
                \/ (urlopen (url_of (start st + 1)) = FetchException
                    /\ c = (if fail st + 1 >? 5 then Break else Continue)
                    /\ st' = set_fail (retrieving st1) (fail st + 1))
                \/ (exists text,
                      archive (url_of (start st + 1)) = Answer 200 (Some text)
                      /\ process (retrieving st1) text = (c, st'))))).
Proof.
  unfold iteration. intros H. destruct (ask_budget st) as [c1 st1] eqn:A.
  exists c1, st1. split; [reflexivity|].
  destruct (ask_budget_keeps _ _ _ A) as (A1 & _ & A3 & A4 & _).
  destruct c1.
  2: { left. injection H as <- <-. repeat split. discriminate. }
  2: { left. injection H as <- <-. repeat split. discriminate. }
  right. rewrite <- A1, <- A3, <- A4.
  destruct (in_ids_dec (start st1 + 1) (messages st1)) as [Hin|Hout].
  - left. rewrite (advance_skips _ Hin) in H. injection H as <- <-. auto.
  - right. split; [reflexivity|]. split; [assumption|].
    rewrite (advance_attempts _ Hout), attempt_next in H.
    unfold urlopen in H |- *.
    destruct (archive (url_of (start st1 + 1))) as [status content| |] eqn:E;
      cbn [retrieve] in H |- *.
    + destruct ((200 <=? status) && (status <? 300)) eqn:B.
      * destruct content as [text|].
        -- destruct (Z.eqb_spec status 200) as [->|Hne]; cbn [negb] in H.
           ++ right. right. right. exists text. auto.
           ++ right. left. exists status, text. injection H as <- <-.
              apply andb_true_iff in B. destruct B as [B1 B2].
              apply Z.leb_le in B1. apply Z.ltb_lt in B2.
              repeat split; auto; lia.
        -- right. right. left. rewrite count_failure_eq in H.
           injection H as <- <-. auto.
      * right. right. left. rewrite count_failure_eq in H.
        injection H as <- <-. auto.
    + right. right. left. rewrite count_failure_eq in H.
      injection H as <- <-. auto.
    + left. injection H as <- <-. auto.
Qed.

(** A property of two states that holds from a state to itself, follows
    through, and holds across one pass, holds across any number of them. *)
Lemma iterate_rel (R : state -> state -> Prop) :
  (forall st, R st st) ->
  (forall a b c, R a b -> R b c -> R a c) ->
  (forall st c st', iteration st = (c, st') -> R st st') ->
  forall n st, R st (snd (iterate n st)).
Proof.
  intros Rrefl Rtrans Rstep. induction n as [|n IH]; intros st;
    cbn [iterate].
  - apply Rrefl.
  - destruct (iteration st) as [c1 st1] eqn:E. apply Rstep in E.
    destruct c1; simpl; auto. eapply Rtrans; [exact E | apply IH].
Qed.

Lemma housekeeping_fields (st : state) :
  start (housekeeping st) = start st
  /\ many (housekeeping st) = many st
  /\ count (housekeeping st) = count st
  /\ fail (housekeeping st) = fail st
  /\ messages (housekeeping st) = messages st
  /\ stdin (housekeeping st) = stdin st
  /\ fetches (trace (housekeeping st)) = fetches (trace st)
  /\ (committed (housekeeping st) = committed st
      \/ committed (housekeeping st) = messages st).
Proof.
  rewrite housekeeping_eq.
  destruct (count st mod 100 =? 0); [|destruct (count st mod 50 =? 0)];
    look; repeat split; auto.
Qed.

Lemma ask_budget_committed (st st1 : state) (c : control) :
  ask_budget st = (c, st1) ->
  (c = Continue /\ committed st1 = committed st)
  \/ committed st1 = messages st.
Proof.
  intros A. apply ask_budget_cases in A.
  destruct A as [(_ & -> & ->)|(_ & [(_ & _ & ->)|(sval & rest & _ & A)])];
    [left; auto | right; reflexivity |].
  destruct A as [(_ & _ & ->)|[(_ & _ & _ & ->)|(_ & n & _ & _ & ->)]];
    right; reflexivity.
Qed.

(** The prompt takes one line off the console, and nothing else does. *)
Lemma ask_budget_stdin (st st1 : state) (c : control) :
  ask_budget st = (c, st1) ->
  (List.length (stdin st1) <= List.length (stdin st))%nat
  /\ (many st < 1 -> c = Continue ->
      (List.length (stdin st1) < List.length (stdin st))%nat).
Proof.
  intros A. apply ask_budget_cases in A.
  destruct A as [(Hm & -> & ->)|(_ & [(E & -> & ->)|(sval & rest & E & A)])].
  - split; [lia|]. intros Hlt. lia.
  - split; [look; lia|]. discriminate.
  - destruct A as [(_ & _ & ->)|[(_ & _ & _ & ->)|(_ & n & _ & _ & ->)]];
      look; rewrite E; simpl; split; lia.
Qed.

Lemma ascending_weaken (lo mid : Z) (l : list Z) :
  lo <= mid -> ascending mid l -> ascending lo l.
Proof. destruct l as [|k l]; simpl; [auto|]. intros H [H1 H2]. split; [lia | auto]. Qed.

Lemma ascending_app (a b : list Z) :
  forall lo mid,
    ascending lo a -> Forall (fun k => k <= mid) a -> lo <= mid ->
    ascending mid b -> ascending lo (a ++ b).
Proof.
  induction a as [|k a IH]; intros lo mid Ha Hb Hlo Hm; simpl.
  - now apply (ascending_weaken lo mid).
  - destruct Ha as [H1 H2]. inversion Hb as [|? ? Hk Hb']. subst.
    split; [assumption|]. now apply (IH k mid).
Qed.

Lemma ascending_above (l : list Z) :
  forall lo, ascending lo l -> Forall (fun k => lo < k) l.
Proof.
  induction l as [|k l IH]; intros lo H; [constructor|].
  destruct H as [H1 H2]. constructor; [assumption|].
  eapply Forall_impl; [|apply (IH k H2)]. simpl. intros j Hj. lia.
Qed.

Lemma ascending_NoDup (l : list Z) : forall lo, ascending lo l -> NoDup l.
Proof.
  induction l as [|k l IH]; intros lo H; [constructor|].
  destruct H as [H1 H2]. constructor; [|now apply (IH k)].
  intros Hin. pose proof (ascending_above l k H2) as Ha.
  rewrite Forall_forall in Ha. specialize (Ha k Hin). lia.
Qed.

Lemma NoDup_addresses (ks : list Z) : NoDup ks -> NoDup (map url_of ks).
Proof.
  induction 1 as [|k ks Hk Hks IH]; simpl; constructor; [|assumption].
  intros Hin. apply in_map_iff in Hin. destruct Hin as (j & E & Hj).
  apply url_of_inj in E. now subst j.
Qed.

(** Lines 136-148 on a header block that holds no comma followed by a
    blank: the Date pattern has no match, so no text reaches the parsers,
    the timestamp is absent and the date step raises nothing. *)
Theorem a_date_without_a_comma_gives_no_timestamp (hdr : str) :
  occurrences (chars ", ") hdr = [] ->
  findall "\Date: .*, (.*)\n" hdr = []
  /\ extract_tdate hdr = None
  /\ extract_sent_at hdr = Returns None.
Proof.
  intros Hocc. pose proof (date_needs_comma hdr Hocc) as F.
  assert (T : extract_tdate hdr = None).
  { unfold extract_tdate. now rewrite F. }
  split; [assumption|]. split; [assumption|].
  unfold extract_sent_at. now rewrite T.
Qed.

(* ================================================================== *)
(** ** Counters *)

Lemma pass_counts (st st' : state) (c : control) :
  iteration st = (c, st') ->
  0 <= Z.of_nat (List.length (messages st'))
       - Z.of_nat (List.length (messages st))
    <= count st' - count st
  /\ count st' - count st <= attempts st' - attempts st
  /\ attempts st' - attempts st <= 1.
Proof.
  intros H. destruct (iteration_cases _ _ _ H) as (c1 & st1 & A & Cases).
  destruct (ask_budget_keeps _ _ _ A) as (A1 & A2 & A3 & A4 & A5 & _).
  unfold attempts.
  destruct Cases as [(_ & _ & ->)|[(_ & _ & _ & ->)|(_ & _ & Cases)]].
  - rewrite A2, A4, A5. lia.
  - look. rewrite A2, A4, A5. lia.
  - destruct Cases
      as [(_ & _ & ->)|[(s & t & _ & _ & _ & ->)|[(_ & _ & ->)|(t & _ & P)]]].
    + look. rewrite A2, A4, A5. cbn [List.length]. lia.
    + look. rewrite A2, A4, A5. cbn [List.length]. lia.
    + look. rewrite A2, A4, A5. cbn [List.length]. lia.
    + apply process_cases in P.
      destruct P as [(_ & ->)|(hdr & bdy & sent & _ & _ & _ & ->)].
      * look. rewrite A2, A4, A5. cbn [List.length]. lia.
      * match goal with |- context [housekeeping ?s] =>
          destruct (housekeeping_fields s) as (_ & _ & K3 & _ & K5 & _ & K7 & _)
        end.
        rewrite K3, K5, K7. look. rewrite A2, A4, A5, length_app.
        cbn [List.length]. lia.
Qed.

(** Lines 80-159, over a whole run: no row without a document received, no
    document without a request made, and at most one request in a pass. *)
Theorem rows_documents_requests (n : nat) (st : state) :
  0 <= Z.of_nat (List.length (messages (snd (iterate n st))))
       - Z.of_nat (List.length (messages st))
    <= count (snd (iterate n st)) - count st
  /\ count (snd (iterate n st)) - count st
     <= attempts (snd (iterate n st)) - attempts st
  /\ attempts (snd (iterate n st)) - attempts st <= Z.of_nat n.
Proof.
  revert st. induction n as [|n IH]; intros st; cbn [iterate].
  - simpl. lia.
  - destruct (iteration st) as [c1 st1] eqn:E. apply pass_counts in E.
    specialize (IH st1). destruct c1; cbn [snd]; lia.
Qed.

(* ================================================================== *)
(** ** The failure counter *)

Lemma pass_fail (st st' : state) (c : control) :
  0 <= fail st <= 5 ->
  iteration st = (c, st') ->
  0 <= fail st' <= 6
  /\ (c = Continue -> fail st' <= 5)
  /\ (fail st' = 6 -> c = Break).
Proof.
  intros Hf H. destruct (iteration_cases _ _ _ H) as (c1 & st1 & A & Cases).
  destruct (ask_budget_keeps _ _ _ A) as (_ & _ & A3 & _).
  assert (Count : forall b : control,
             b = (if fail st + 1 >? 5 then Break else Continue) ->
             0 <= fail st + 1 <= 6
             /\ (b = Continue -> fail st + 1 <= 5)
             /\ (fail st + 1 = 6 -> b = Break)).
  { intros b ->. destruct (Z.gtb_spec (fail st + 1) 5);
      repeat split; auto; try lia; discriminate. }
  destruct Cases as [(_ & _ & ->)|[(_ & _ & _ & ->)|(_ & _ & Cases)]].
  - rewrite A3. repeat split; lia.
  - look. rewrite A3. repeat split; lia.
  - destruct Cases
      as [(_ & -> & ->)|[(s & t & _ & _ & -> & ->)|[(_ & Hc & ->)|(t & _ & P)]]].
    + look. rewrite A3. repeat split; auto; lia.
    + look. rewrite A3. repeat split; auto; lia.
    + look. now apply Count.
    + apply process_cases in P.
      destruct P as [(Hc & ->)|(hdr & bdy & sent & _ & _ & -> & ->)].
      * cbn [fail retrieving emit set_many set_start] in Hc.
        rewrite A3 in Hc. look. rewrite A3. now apply Count.
      * match goal with |- context [housekeeping ?s] =>
          destruct (housekeeping_fields s) as (_ & _ & _ & K4 & _)
        end.
        rewrite K4. look. repeat split; auto; lia.
Qed.

(** Lines 98-99, 108-109, 119-120, 146-147 and 155, over a whole run that
    starts with the counter between 0 and 5: the counter is in that range
    while the loop goes on and reaches 6 only in the pass that leaves the
    loop. *)
Theorem failure_counter_stays_in_bounds (n : nat) (st : state) :
  0 <= fail st <= 5 ->
  0 <= fail (snd (iterate n st)) <= 6
  /\ (fst (iterate n st) = Continue -> fail (snd (iterate n st)) <= 5)
  /\ (fail (snd (iterate n st)) = 6 -> fst (iterate n st) = Break).
Proof.
  revert st. induction n as [|n IH]; intros st Hf; cbn [iterate].
  - simpl. repeat split; auto; lia.
  - destruct (iteration st) as [c1 st1] eqn:E.
    destruct (pass_fail _ _ _ Hf E) as (P1 & P2 & P3).
    destruct c1; cbn [fst snd].
    + apply IH. specialize (P2 eq_refl). lia.
    + repeat split; auto; lia.
    + repeat split; auto; lia.
Qed.

(* ================================================================== *)
(** ** Requests and rows of a run *)

Lemma pass_continue_advances (st st' : state) :
  iteration st = (Continue, st') -> start st' = start st + 1.
Proof.
  intros H. destruct (iteration_cases _ _ _ H) as (c1 & st1 & A & Cases).
  destruct (ask_budget_keeps _ _ _ A) as (A1 & _).
  destruct Cases as [(N & E & _)|[(_ & _ & _ & ->)|(_ & _ & Cases)]].
  - exfalso. apply N. now symmetry.
  - reflexivity.
  - destruct Cases
      as [(_ & E & _)|[(s & t & _ & _ & E & _)|[(_ & _ & ->)|(t & _ & P)]]];
      try discriminate E.
    + look. lia.
    + apply process_effect in P. destruct P as (P1 & _). rewrite P1. look. lia.
Qed.

(** The cursor moves up by one in each pass that goes on. *)
Lemma iterate_cursor (n : nat) :
  forall st,
    start st <= start (snd (iterate n st)) <= start st + Z.of_nat n
    /\ (fst (iterate n st) = Continue ->
        start (snd (iterate n st)) = start st + Z.of_nat n).
Proof.
  induction n as [|n IH]; intros st; cbn [iterate].
  - simpl. lia.
  - destruct (iteration st) as [c1 st1] eqn:E.
    pose proof (iteration_effect _ _ _ E) as [Hs _].
    destruct c1; cbn [fst snd].
    + apply pass_continue_advances in E. destruct (IH st1) as [I1 I2].
      rewrite Nat2Z.inj_succ. split; [lia|].
      intros Hc. rewrite (I2 Hc). lia.
    + split; [lia | discriminate].
    + split; [lia | discriminate].
Qed.

(** What a run adds: [ks] are the identifiers it requests, in the order of
    the requests, [added] the rows it stores, in the order of the inserts. *)
Lemma run_summary (n : nat) (st : state) :
  start st <= start (snd (iterate n st))
  /\ exists ks added,
       fetches (trace (snd (iterate n st)))
       = rev (map url_of ks) ++ fetches (trace st)
       /\ ascending (start st) ks
       /\ Forall (fun k => k <= start (snd (iterate n st))
                           /\ ~ In k (ids (messages st))) ks
       /\ messages (snd (iterate n st)) = messages st ++ added
       /\ ascending (start st) (ids added)
       /\ incl (ids added) ks
       /\ Forall (fun r =>
            exists text,
              archive (url_of (id r)) = Answer 200 (Some text)
              /\ split_message text = Split (headers r) (body r)
              /\ email r = extract_email (headers r)
              /\ extract_sent_at (headers r) = Returns (sent_at r)
              /\ subject r = extract_subject (headers r)) added.
Proof.
  revert st.
  apply (iterate_rel (fun st st' =>
    start st <= start st'
    /\ exists ks added,
         fetches (trace st') = rev (map url_of ks) ++ fetches (trace st)
         /\ ascending (start st) ks
         /\ Forall (fun k => k <= start st' /\ ~ In k (ids (messages st))) ks
         /\ messages st' = messages st ++ added
         /\ ascending (start st) (ids added)
         /\ incl (ids added) ks
         /\ Forall (fun r =>
              exists text,
                archive (url_of (id r)) = Answer 200 (Some text)
                /\ split_message text = Split (headers r) (body r)
                /\ email r = extract_email (headers r)
                /\ extract_sent_at (headers r) = Returns (sent_at r)
                /\ subject r = extract_subject (headers r)) added)).
  - intros st. split; [lia|]. exists [], []. rewrite app_nil_r.
    repeat split; auto. intros k [].
  - intros a b c (S1 & ks1 & ad1 & F1 & K1 & B1 & M1 & I1 & J1 & P1)
                 (S2 & ks2 & ad2 & F2 & K2 & B2 & M2 & I2 & J2 & P2).
    split; [lia|]. exists (ks1 ++ ks2), (ad1 ++ ad2).
    assert (Low1 : Forall (fun k => k <= start b) ks1).
    { eapply Forall_impl; [|exact B1]. simpl. tauto. }
    split; [|split; [|split; [|split; [|split; [|split]]]]].
    + rewrite F2, F1, map_app, rev_app_distr. now rewrite app_assoc.
    + now apply (ascending_app ks1 ks2 (start a) (start b)).
    + apply Forall_app. split.
      * eapply Forall_impl; [|exact B1]. simpl. intros k [Hk Hn]. split; [lia | assumption].
      * eapply Forall_impl; [|exact B2]. simpl. intros k [Hk Hn].
        split; [assumption|]. intros Hin. apply Hn. rewrite M1.
        apply in_ids_app. now left.
    + rewrite M2, M1. now rewrite app_assoc.
    + unfold ids. rewrite map_app.
      apply (ascending_app _ _ (start a) (start b)); auto.
      rewrite Forall_forall in Low1 |- *. intros k Hk. apply Low1. now apply J1.
    + unfold ids. rewrite map_app. intros k Hk. apply in_app_iff in Hk.
      apply in_or_app. destruct Hk as [Hk|Hk]; [left; now apply J1 | right; now apply J2].
    + apply Forall_app. now split.
  - intros st c st' H.
    destruct (iteration_cases _ _ _ H) as (c1 & st1 & A & Cases).
    destruct (ask_budget_keeps _ _ _ A) as (A1 & _ & _ & A4 & A5 & _).
    assert (Quiet : forall s,
               start st <= start s -> fetches (trace s) = fetches (trace st) ->
               messages s = messages st ->
               start st <= start s
               /\ exists ks added,
                    fetches (trace s) = rev (map url_of ks) ++ fetches (trace st)
                    /\ ascending (start st) ks
                    /\ Forall (fun k => k <= start s
                                        /\ ~ In k (ids (messages st))) ks
                    /\ messages s = messages st ++ added
                    /\ ascending (start st) (ids added)
                    /\ incl (ids added) ks
                    /\ Forall (fun r =>
                         exists text,
                           archive (url_of (id r)) = Answer 200 (Some text)
                           /\ split_message text = Split (headers r) (body r)
                           /\ email r = extract_email (headers r)
                           /\ extract_sent_at (headers r) = Returns (sent_at r)
                           /\ subject r = extract_subject (headers r)) added).
    { intros s Hs Hf Hm. split; [assumption|]. exists [], [].
      rewrite app_nil_r. repeat split; auto. intros k []. }
    assert (Asked : forall s,
               ~ In (start st + 1) (ids (messages st)) ->
               start s = start st + 1 ->
               fetches (trace s) = url_of (start st + 1) :: fetches (trace st) ->
               messages s = messages st ->
               start st <= start s
               /\ exists ks added,
                    fetches (trace s) = rev (map url_of ks) ++ fetches (trace st)
                    /\ ascending (start st) ks
                    /\ Forall (fun k => k <= start s
                                        /\ ~ In k (ids (messages st))) ks
                    /\ messages s = messages st ++ added
                    /\ ascending (start st) (ids added)
                    /\ incl (ids added) ks
                    /\ Forall (fun r =>
                         exists text,
                           archive (url_of (id r)) = Answer 200 (Some text)
                           /\ split_message text = Split (headers r) (body r)
                           /\ email r = extract_email (headers r)
                           /\ extract_sent_at (headers r) = Returns (sent_at r)
                           /\ subject r = extract_subject (headers r)) added).
    { intros s Hout Hs Hf Hm. split; [lia|]. exists [start st + 1], [].
      rewrite app_nil_r. repeat split; auto.
      - simpl. lia.
      - constructor; [|constructor]. split; [lia | assumption].
      - intros k []. }
    destruct Cases as [(_ & _ & ->)|[(_ & _ & _ & ->)|(_ & Hout & Cases)]].
    + apply Quiet; auto. lia.
    + apply Quiet; auto. look. lia.
    + destruct Cases
        as [(_ & _ & ->)|[(s & t & _ & _ & _ & ->)|[(_ & _ & ->)|(t & Ht & P)]]].
      * apply Asked; auto; look; rewrite ?A1, ?A4, ?A5; reflexivity.
      * apply Asked; auto; look; rewrite ?A1, ?A4, ?A5; reflexivity.
      * apply Asked; auto; look; rewrite ?A1, ?A4, ?A5; reflexivity.
      * apply process_cases in P.
        destruct P as [(_ & ->)|(hdr & bdy & sent & Hs & Hx & _ & ->)].
        -- apply Asked; auto; look; rewrite ?A1, ?A4, ?A5; reflexivity.
        -- match goal with |- context [housekeeping ?s] =>
             destruct (housekeeping_fields s) as (K1 & _ & _ & _ & K5 & _ & K7 & _)
           end.
           rewrite K1, K5, K7. look. rewrite A1, A4, A5.
           split; [lia|].
           exists [start st + 1],
                  [mkMessage (start st + 1) (extract_email hdr) sent
                             (extract_subject hdr) hdr bdy].
           split; [reflexivity|]. split; [simpl; lia|].
           split; [constructor; [split; [lia | assumption] | constructor]|].
           split; [reflexivity|]. split; [simpl; lia|].
           split; [intros k Hk; exact Hk|].
           constructor; [|constructor]. exists t. simpl. auto.
Qed.

(** Lines 72-86, over a whole run: the addresses requested are those of
    identifiers in strictly increasing order, all past the cursor the run
    began with and none stored then; so no address is requested twice, and
    an identifier whose retrieval failed is not tried again. *)
Theorem requests_go_up_the_archive (n : nat) (st : state) :
  exists ks,
    fetches (trace (snd (iterate n st)))
    = rev (map url_of ks) ++ fetches (trace st)
    /\ ascending (start st) ks
    /\ Forall (fun k => k <= start (snd (iterate n st))
                        /\ ~ In k (ids (messages st))) ks
    /\ NoDup (rev (map url_of ks))
    /\ start (snd (iterate n st)) <= start st + Z.of_nat n
    /\ (fst (iterate n st) = Continue ->
        start (snd (iterate n st)) = start st + Z.of_nat n).
Proof.
  destruct (run_summary n st) as (_ & ks & added & F & K & B & _).
  destruct (iterate_cursor n st) as [C1 C2].
  exists ks. repeat split; auto; [|lia].
  apply NoDup_rev. apply NoDup_addresses. now apply (ascending_NoDup ks (start st)).
Qed.

(** Lines 72-78 and 157-159, over a whole run: the rows stored before stay
    as they are, in their places; the rows added carry identifiers in
    strictly increasing order, past the cursor, none of them stored before
    and each of them requested in this run; so a table without two rows of
    one identifier stays one. *)
Theorem a_run_appends_rows_with_fresh_identifiers (n : nat) (st : state) :
  exists ks added,
    messages (snd (iterate n st)) = messages st ++ added
    /\ fetches (trace (snd (iterate n st)))
       = rev (map url_of ks) ++ fetches (trace st)
    /\ incl (ids added) ks
    /\ ascending (start st) (ids added)
    /\ Forall (fun k => ~ In k (ids (messages st))) (ids added)
    /\ (NoDup (ids (messages st)) ->
        NoDup (ids (messages (snd (iterate n st))))).
Proof.
  destruct (run_summary n st) as (_ & ks & added & F & K & B & M & I & J & _).
  exists ks, added.
  assert (Fresh : Forall (fun k => ~ In k (ids (messages st))) (ids added)).
  { rewrite Forall_forall in B |- *. intros k Hk. now apply (B k), J. }
  repeat split; auto.
  intros Hnd. rewrite M. unfold ids. rewrite map_app. apply NoDup_app.
  - exact Hnd.
  - now apply (ascending_NoDup _ (start st)).
  - intros k Hk Hin. rewrite Forall_forall in Fresh. now apply (Fresh k).
Qed.

(** Lines 86-88 and 105-159, over a whole run: every row added is the
    message the archive served at the row's address with status 200, cut at
    its first blank line, with the fields the script reads from the header
    block. *)
Theorem every_row_added_is_the_message_served (n : nat) (st : state) :
  exists added,
    messages (snd (iterate n st)) = messages st ++ added
    /\ Forall (fun r =>
         exists text,
           archive (url_of (id r)) = Answer 200 (Some text)
           /\ split_message text = Split (headers r) (body r)
           /\ email r = extract_email (headers r)
           /\ extract_sent_at (headers r) = Returns (sent_at r)
           /\ subject r = extract_subject (headers r)) added.
Proof.
  destruct (run_summary n st) as (_ & ks & added & _ & _ & _ & M & _ & _ & P).
  now exists added.
Qed.

(** Lines 49-60 with 72-86 and 157-159: a run that resumes from a table
    requests and stores only identifiers above every identifier the table
    held, so an identifier missing below the largest one is never asked for
    again. *)
Theorem a_resumed_run_works_past_the_largest_identifier
    (tbl : list message) (console : list str) (n : nat) :
  (forall u,
      In u (fetches (trace (snd (iterate n (startup tbl console))))) ->
      exists k, u = url_of k
                /\ initial_start (select_max_id tbl) < k
                /\ forall j, In j (ids tbl) -> j < k)
  /\ exists added,
       messages (snd (iterate n (startup tbl console))) = tbl ++ added
       /\ forall r, In r added -> forall j, In j (ids tbl) -> j < id r.
Proof.
  destruct (run_summary n (startup tbl console))
    as (_ & ks & added & F & K & _ & M & I & J & _).
  change (start (startup tbl console))
    with (initial_start (select_max_id tbl)) in K, I.
  change (messages (startup tbl console)) with tbl in M.
  change (fetches (trace (startup tbl console))) with (@nil str) in F.
  rewrite app_nil_r in F.
  assert (Above : forall k, initial_start (select_max_id tbl) < k ->
                    forall j, In j (ids tbl) -> j < k).
  { intros k Hk j Hj. destruct tbl as [|r tbl]; [contradiction|].
    destruct (initial_start_max (r :: tbl)) as [_ Hmax]; [discriminate|].
    specialize (Hmax j Hj). lia. }
  pose proof (ascending_above _ _ K) as Kabove.
  rewrite Forall_forall in Kabove.
  split.
  - intros u Hu. rewrite F in Hu. apply in_rev in Hu.
    apply in_map_iff in Hu. destruct Hu as (k & <- & Hk).
    exists k. split; [reflexivity|]. split; [now apply Kabove|].
    apply Above. now apply Kabove.
  - exists added. split; [assumption|]. intros r Hr. apply Above.
    apply Kabove. apply J. unfold ids. now apply in_map.
Qed.

(* ================================================================== *)
(** ** Commits *)

Lemma pass_commits (st st' : state) (c : control) :
  iteration st = (c, st') ->
  (exists added, messages st' = messages st ++ added)
  /\ (committed st' = committed st \/ committed st' = messages st
      \/ committed st' = messages st')
  /\ (c = Uncaught -> committed st' = messages st').
Proof.
  intros H. destruct (iteration_cases _ _ _ H) as (c1 & st1 & A & Cases).
  destruct (ask_budget_keeps _ _ _ A) as (_ & _ & _ & A4 & _).
  assert (B : committed st1 = committed st \/ committed st1 = messages st).
  { destruct (ask_budget_committed _ _ _ A) as [[_ B]|B]; auto. }
  assert (Same : forall s,
             messages s = messages st1 -> committed s = committed st1 ->
             c <> Uncaught ->
             (exists added, messages s = messages st ++ added)
             /\ (committed s = committed st \/ committed s = messages st
                 \/ committed s = messages s)
             /\ (c = Uncaught -> committed s = messages s)).
  { intros s Hm Hc Hn. rewrite Hm, Hc, A4. split; [|split].
    - exists []. now rewrite app_nil_r.
    - destruct B as [->| ->]; auto.
    - intros E. contradiction. }
  destruct Cases as [(N & -> & ->)|[(_ & _ & -> & ->)|(_ & _ & Cases)]].
  - rewrite A4. split; [|split].
    + exists []. now rewrite app_nil_r.
    + destruct B as [->| ->]; auto.
    + intros ->. destruct (ask_budget_committed _ _ _ A) as [[E _]|E];
        [discriminate E | assumption].
  - apply Same; auto. discriminate.
  - destruct Cases
      as [(_ & -> & ->)|[(s & t & _ & _ & -> & ->)|[(_ & Hc & ->)|(t & _ & P)]]].
    + apply Same; auto. discriminate.
    + apply Same; auto. discriminate.
    + apply Same; auto. rewrite Hc. destruct (fail st + 1 >? 5); discriminate.
    + apply process_cases in P.
      destruct P as [(Hc & ->)|(hdr & bdy & sent & _ & _ & -> & ->)].
      * apply Same; auto. rewrite Hc.
        destruct (fail (retrieving st1) + 1 >? 5); discriminate.
      * match goal with |- context [housekeeping ?s] =>
          destruct (housekeeping_fields s) as (_ & _ & _ & _ & K5 & _ & _ & K8)
        end.
        rewrite K5. destruct K8 as [K8|K8]; rewrite K8; look; rewrite A4.
        -- split; [eexists; reflexivity|]. split; [|discriminate].
           destruct B as [->| ->]; auto.
        -- split; [eexists; reflexivity|]. split; [|discriminate]. auto.
Qed.

Lemma iterate_uncaught (n : nat) :
  forall st,
    fst (iterate n st) = Uncaught ->
    committed (snd (iterate n st)) = messages (snd (iterate n st)).
Proof.
  induction n as [|n IH]; intros st; cbn [iterate]; [discriminate|].
  destruct (iteration st) as [c1 st1] eqn:E. apply pass_commits in E.
  destruct c1; cbn [fst snd]; [apply IH | discriminate |].
  intros _. now apply E.
Qed.

(** Lines 67, 160 and 163, over a whole run that starts with the last commit
    a front part of the table: what was committed stays committed, each
    commit holds a front part of the table, a run that dies at the prompt
    has nothing uncommitted, and after the last line neither has a run that
    leaves the loop. *)
Theorem commits_keep_up_with_the_table (n : nat) (st : state) :
  (exists l, messages st = committed st ++ l) ->
  (exists k, committed (snd (iterate n st)) = committed st ++ k)
  /\ (exists l, messages (snd (iterate n st))
                = committed (snd (iterate n st)) ++ l)
  /\ (fst (iterate n st) = Uncaught ->
      committed (snd (iterate n st)) = messages (snd (iterate n st)))
  /\ committed (shutdown (snd (iterate n st)))
     = messages (snd (iterate n st)).
Proof.
  intros Hpre.
  assert (G : (exists added, messages (snd (iterate n st)) = messages st ++ added)
              /\ ((exists l, messages st = committed st ++ l) ->
                  (exists k, committed (snd (iterate n st)) = committed st ++ k)
                  /\ (exists l, messages (snd (iterate n st))
                                = committed (snd (iterate n st)) ++ l))).
  { revert st Hpre. intros st _. revert st.
    apply (iterate_rel (fun a b =>
      (exists added, messages b = messages a ++ added)
      /\ ((exists l, messages a = committed a ++ l) ->
          (exists k, committed b = committed a ++ k)
          /\ (exists l, messages b = committed b ++ l)))).
    - intros a. split; [exists []; now rewrite app_nil_r|].
      intros Ha. split; [exists []; now rewrite app_nil_r | assumption].
    - intros a b c [[ad1 M1] I1] [[ad2 M2] I2]. split.
      + exists (ad1 ++ ad2). rewrite M2, M1. now rewrite app_assoc.
      + intros Ha. destruct (I1 Ha) as [[k1 C1] Hb].
        destruct (I2 Hb) as [[k2 C2] Hc]. split; [|assumption].
        exists (k1 ++ k2). rewrite C2, C1. now rewrite app_assoc.
    - intros a c b H. apply pass_commits in H.
      destruct H as ([added M] & C & _). split; [now exists added|].
      intros [l Ha]. destruct C as [C|[C|C]]; rewrite C.
      + split; [exists []; now rewrite app_nil_r|].
        exists (l ++ added). rewrite M, Ha. now rewrite app_assoc.
      + split; [now exists l | now exists added].
      + split; [|exists []; now rewrite app_nil_r].
        exists (l ++ added). rewrite M, Ha. now rewrite app_assoc. }
  destruct G as [_ G]. destruct (G Hpre) as [G1 G2].
  split; [assumption|]. split; [assumption|].
  split; [apply iterate_uncaught | reflexivity].
Qed.

(** Lines 102-161 for one document: a document that gives no row commits
    nothing and waits for nothing, also when the count of documents reaches
    a multiple of 50; a document that gives a row is followed by a commit
    when the count is a multiple of 50, and by the commit and then the
    one-second wait when it is a multiple of 100. *)
Theorem commit_and_wait_follow_stored_rows_only (st : state) (text : str) :
  count (snd (process st text)) = count st + 1
  /\ ((messages (snd (process st text)) = messages st
       /\ committed (snd (process st text)) = committed st
       /\ trace (snd (process st text)) = trace st)
      \/ (exists r,
            messages (snd (process st text)) = messages st ++ [r]
            /\ committed (snd (process st text))
               = (if (count st + 1) mod 50 =? 0 then messages st ++ [r]
                  else committed st)
            /\ trace (snd (process st text))
               = (if (count st + 1) mod 100 =? 0
                  then EvSleep :: EvCommit :: trace st
                  else if (count st + 1) mod 50 =? 0
                       then EvCommit :: trace st
                       else trace st))).
Proof.
  destruct (process st text) as [c st'] eqn:P. cbn [snd].
  apply process_cases in P.
  destruct P as [(_ & ->)|(hdr & bdy & sent & _ & _ & _ & ->)].
  - look. split; [reflexivity|]. left. auto.
  - rewrite housekeeping_eq. look.
    destruct (Z.eqb_spec ((count st + 1) mod 100) 0) as [H100|H100].
    + assert (H50 : (count st + 1) mod 50 = 0).
      { apply Z.mod_divide; [lia|]. apply Z.mod_divide in H100; [|lia].
        apply Z.divide_trans with 100; [now exists 2 | assumption]. }
      rewrite H50. look. split; [reflexivity|]. right. eexists.
      repeat split; reflexivity.
    + destruct ((count st + 1) mod 50 =? 0); look;
        (split; [reflexivity|]); right; eexists; repeat split; reflexivity.
Qed.

(* ================================================================== *)
(** ** The prompt and the ways out of the loop *)

Lemma py_int_needs_text (sval : str) (n : Z) :
  py_int sval = Some n -> sval <> [].
Proof. intros H ->. discriminate H. Qed.

(** Lines 66-70 on a console that is closed or gives a line that is no
    number: the pass ends the run before anything is requested or stored,
    with the table committed; an empty line leaves the loop, a closed
    console and any other line that [int] rejects are uncaught errors. *)
Theorem a_reply_that_is_no_number_ends_the_run (st : state) :
  many st < 1 ->
  stdin st = []
  \/ (exists sval rest, stdin st = sval :: rest /\ py_int sval = None) ->
  fst (iteration st) <> Continue
  /\ (fst (iteration st) = Break <-> exists rest, stdin st = [] :: rest)
  /\ start (snd (iteration st)) = start st
  /\ messages (snd (iteration st)) = messages st
  /\ committed (snd (iteration st)) = messages st
  /\ fetches (trace (snd (iteration st))) = fetches (trace st).
Proof.
  intros Hm Hin. unfold iteration.
  destruct (ask_budget st) as [c1 st1] eqn:A. apply ask_budget_cases in A.
  destruct A as [(Hge & _)|(_ & [(E & -> & ->)|(sval & rest & E & A)])];
    [lia | |].
  - cbn [fst snd]. look. repeat split; auto; try discriminate.
    intros [rest Er]. rewrite E in Er. discriminate Er.
  - assert (Hnone : py_int sval = None).
    { destruct Hin as [Hin|(s' & r' & Hin & Hn)]; rewrite E in Hin;
        [discriminate Hin | now injection Hin as -> _]. }
    destruct A as [(-> & -> & ->)|[(Hne & _ & -> & ->)|(_ & n & Hn & _)]].
    + cbn [fst snd]. look. repeat split; auto; try discriminate.
      intros _. now exists rest.
    + cbn [fst snd]. look. repeat split; auto; try discriminate.
      intros [r' Er]. rewrite E in Er. injection Er as -> _.
      exfalso. now apply Hne.
    + rewrite Hnone in Hn. discriminate Hn.
Qed.

(** Lines 66-80 on a reply of zero or less, of a length [int] reads under
    every version of the interpreter: the budget is tested before it is
    read, so the pass goes past the prompt all the same: the cursor moves
    on by one, the identifier under it is requested unless it is stored,
    and the budget is below 1 again, so that the next pass, where there is
    one, asks again. *)
Theorem a_budget_of_zero_or_less_buys_one_pass
    (st : state) (sval : str) (rest : list str) (n : Z) :
  many st < 1 -> stdin st = sval :: rest -> py_int sval = Some n -> n <= 0 ->
  (List.length sval <= 4300)%nat ->
  start (snd (iteration st)) = start st + 1
  /\ many (snd (iteration st)) < 1
  /\ stdin (snd (iteration st)) = rest
  /\ (In (start st + 1) (ids (messages st)) ->
      fst (iteration st) = Continue
      /\ fetches (trace (snd (iteration st))) = fetches (trace st))
  /\ (~ In (start st + 1) (ids (messages st)) ->
      fetches (trace (snd (iteration st)))
      = url_of (start st + 1) :: fetches (trace st)).
Proof.
  intros Hm E Hn Hle _.
  assert (A : ask_budget st
              = (Continue,
                 set_many (emit (set_stdin (commit st) rest) EvPrompt) n)).
  { unfold ask_budget. destruct (Z.ltb_spec (many st) 1); [|lia]. cbv zeta.
    change (stdin (commit st)) with (stdin st). rewrite E.
    destruct sval as [|a sval]; [discriminate Hn|].
    cbn [List.length Nat.ltb Nat.leb]. now rewrite Hn. }
  set (st1 := set_many (emit (set_stdin (commit st) rest) EvPrompt) n) in A.
  unfold iteration. rewrite A.
  destruct (in_ids_dec (start st + 1) (messages st)) as [Hin|Hout].
  - rewrite (advance_skips st1 Hin). cbn [fst snd]. unfold st1. look.
    repeat split; auto; try lia; contradiction.
  - rewrite (advance_attempts st1 Hout).
    destruct (attempt (set_start st1 (start st1 + 1))) as [c st'] eqn:T.
    apply attempt_effect in T. cbn [fst snd].
    destruct T as (T0 & T1 & T2 & T3 & T4 & _).
    rewrite T1, T2, T3, T4. unfold st1. look.
    repeat split; auto; try lia; contradiction.
Qed.

(** Lines 66-161: a pass leaves the loop for one of four reasons: an empty
    reply at the prompt, an interrupt during the request, a document handed
    back with a status other than 200, or a failure that lifts the counter
    above 5. *)
Theorem the_loop_is_left_for_four_reasons (st : state) :
  fst (iteration st) = Break ->
  (many st < 1 /\ exists rest, stdin st = [] :: rest)
  \/ (~ In (start st + 1) (ids (messages st))
      /\ (archive (url_of (start st + 1)) = Interrupt
          \/ (exists status text,
                archive (url_of (start st + 1)) = Answer status (Some text)
                /\ 200 < status < 300)
          \/ (5 <= fail st /\ fail (snd (iteration st)) = fail st + 1))).
Proof.
  destruct (iteration st) as [c st'] eqn:H. cbn [fst snd]. intros ->.
  destruct (iteration_cases _ _ _ H) as (c1 & st1 & A & Cases).
  destruct (ask_budget_keeps _ _ _ A) as (_ & _ & A3 & _).
  assert (Six : Break = (if fail st + 1 >? 5 then Break else Continue) ->
                5 <= fail st).
  { destruct (Z.gtb_spec (fail st + 1) 5); [intros _; lia | discriminate]. }
  destruct Cases as [(N & <- & ->)|[(_ & _ & E & _)|(_ & Hout & Cases)]].
  - apply ask_budget_cases in A.
    destruct A as [(_ & E & _)|(Hm & [(_ & E & _)|(sval & rest & Es & A)])];
      try discriminate E.
    destruct A as [(-> & _)|[(_ & _ & E & _)|(_ & n & _ & E & _)]];
      try discriminate E.
    left. split; [assumption|]. now exists rest.
  - discriminate E.
  - right. split; [assumption|].
    destruct Cases
      as [(Ha & _)|[(s & t & Ha & Hs & _)|[(_ & Hc & ->)|(t & _ & P)]]].
    + now left.
    + right. left. now exists s, t.
    + right. right. split; [now apply Six | reflexivity].
    + apply process_cases in P.
      destruct P as [(Hc & ->)|(hdr & bdy & sent & _ & _ & E & _)];
        [|discriminate E].
      cbn [fail retrieving emit set_many set_start] in Hc. rewrite A3 in Hc.
      right. right. split; [now apply Six|]. look. now rewrite A3.
Qed.

End Harvester.

(* ================================================================== *)
(** ** The insert, the sender and the subject *)

(** C1, at the input where the code parts from it. On the table the script
    creates, the INSERT never meets a conflict: [id] carries no unique index,
    so the statement adds its row whether or not the identifier is stored,
    and the same identifier inserted twice is stored twice. *)
Theorem insert_twice_stores_two_rows :
  (forall tbl r, execute_insert tbl r = tbl ++ [r])
  /\ (forall tbl r,
        rows_with_id (id r) (execute_insert (execute_insert tbl r) r)
        = S (S (rows_with_id (id r) tbl)))
  /\ execute_insert
       (execute_insert [] (mkMessage 1 None None None (py "From a") (py "b")))
       (mkMessage 1 None None None (py "From a") (py "b"))
     = [ mkMessage 1 None None None (py "From a") (py "b");
         mkMessage 1 None None None (py "From a") (py "b") ].
Proof.
  split; [exact execute_insert_appends|]. split; [|reflexivity].
  intros tbl r. rewrite !execute_insert_appends, !rows_with_id_app.
  unfold rows_with_id at 2 3. simpl. rewrite Z.eqb_refl. simpl. lia.
Qed.

(** C5, at the input where the code parts from it. A message whose header
    block ends with its [From: Name <addr@host>] line has no email: the cut
    at the blank line leaves the line without the line feed both patterns
    ask for. The same line followed by another header line yields the
    address in lower case. *)
Theorem sender_on_last_header_line_is_lost :
  split_message (py "From x\nFrom: Name <Addr@Host>\n\nbody")
  = Split (py "From x\nFrom: Name <Addr@Host>") (py "body")
  /\ findall "\nFrom: .* <(\S+@\S+)>\n" (py "From x\nFrom: Name <Addr@Host>") = []
  /\ findall "\nFrom: (\S+@\S+)\n" (py "From x\nFrom: Name <Addr@Host>") = []
  /\ extract_email (py "From x\nFrom: Name <Addr@Host>") = None
  /\ split_message (py "From x\nFrom: Name <Addr@Host>\nTo: you\n\nbody")
     = Split (py "From x\nFrom: Name <Addr@Host>\nTo: you") (py "body")
  /\ extract_email (py "From x\nFrom: Name <Addr@Host>\nTo: you")
     = Some (py "addr@host").
Proof. repeat split; vm_compute; reflexivity. Qed.

(** A [?ubject: ] line that ends the header block, whatever it holds, gives
    no subject. *)
Lemma last_subject_line_gives_no_subject (pre v : str) (c : ascii) :
  ~ In LF v ->
  occurrences subject_key (pre ++ c :: subject_key ++ v)
  = [S (List.length pre)] ->
  extract_subject (pre ++ c :: subject_key ++ v) = None.
Proof.
  intros Hv Hocc.
  pose proof (occurrences_only subject_key _ _ ltac:(discriminate) Hocc) as Only.
  unfold extract_subject, findall. rewrite scan_all_miss; [reflexivity|].
  intros i. rewrite subject_pattern_eq.
  destruct (Nat.eq_dec i (List.length pre)) as [->|Hne].
  - rewrite skipn_app, skipn_all, Nat.sub_diag. cbn [skipn app].
    apply match_here_fails. intros res Hm. cbn [Matches] in Hm.
    destruct Hm as (a & s' & E & _ & Hm).
    apply cons_eq in E. destruct E as [_ <-].
    apply Matches_lits in Hm. destruct Hm as (s'' & E & Hm).
    apply app_inv_head in E. subst s''.
    apply Matches_rest_of_line in Hm. destruct Hm as (v' & post & -> & _).
    apply Hv. apply in_or_app. right. now left.
  - apply re_match_needs_lits_after. rewrite skipn_skipn. apply Only. lia.
Qed.

(** C6, at the inputs where the code parts from it. A message whose header
    block ends with its [Subject:] line has no subject: the cut at the blank
    line leaves the line without the line feed the pattern asks for, and
    this is so for every such line. The same line followed by another
    header line yields its value, trimmed and in lower case. The pattern
    reads its first two characters as the class of characters that are no
    blanks: a block with the line [Xubject: Hi] and no [Subject:] line has
    the subject [hi], and a block with one [Subject:] line and an
    [X-Subject:] line has two matches and so no subject. *)
Theorem subject_on_last_header_line_is_lost :
  split_message (py "From x\nSubject: Hello World\n\nbody")
  = Split (py "From x\nSubject: Hello World") (py "body")
  /\ findall "\Subject: (.*)\n" (py "From x\nSubject: Hello World") = []
  /\ extract_subject (py "From x\nSubject: Hello World") = None
  /\ (forall pre v c,
        ~ In LF v ->
        occurrences subject_key (pre ++ c :: subject_key ++ v)
        = [S (List.length pre)] ->
        extract_subject (pre ++ c :: subject_key ++ v) = None)
  /\ extract_subject (py "From x\nSubject: Hello World\nTo: you")
     = Some (py "hello world")
  /\ extract_subject (py "From x\nXubject: Hi\nTo: you") = Some (py "hi")
  /\ findall "\Subject: (.*)\n" (py "From x\nSubject: a\nX-Subject: b\nTo: y")
     = [py "a"; py "b"]
  /\ extract_subject (py "From x\nSubject: a\nX-Subject: b\nTo: y") = None.
Proof.
  split; [vm_compute; reflexivity|]. split; [vm_compute; reflexivity|].
  split; [vm_compute; reflexivity|].
  split; [exact last_subject_line_gives_no_subject|].
  repeat split; vm_compute; reflexivity.
Qed.

(** C4, at the inputs where the code parts from it. A message whose header
    block ends with its [Date:] line has no timestamp: the cut at the blank
    line leaves the line without the line feed the pattern asks for, so
    that its value reaches no parser. The same line followed by another
    header line yields its value, cut to 26 characters, for the parsers.
    The pattern reads its first two characters as the class of characters
    that are no digits: a block with the line [X-Rate: a, b] and no [Date:]
    line hands [b] to the parsers and counts a failure when they reject it;
    and a block with a [Date:] and a [Resent-Date:] line has two matches, so
    that nothing is parsed and nothing raised, though the parsers reject
    the [Date:] line when it stands alone. *)
Theorem date_on_last_header_line_is_lost :
  split_message
    (py "From x\nDate: Thu, 5 Jan 2006 12:00:00 -0500 (EST)\n\nbody")
  = Split (py "From x\nDate: Thu, 5 Jan 2006 12:00:00 -0500 (EST)") (py "body")
  /\ findall "\Date: .*, (.*)\n"
       (py "From x\nDate: Thu, 5 Jan 2006 12:00:00 -0500 (EST)") = []
  /\ extract_tdate (py "From x\nDate: Thu, 5 Jan 2006 12:00:00 -0500 (EST)")
     = None
  /\ extract_sent_at dateutil_accepts datecompat_rejects
       (py "From x\nDate: Thu, 5 Jan 2006 12:00:00 -0500 (EST)")
     = Returns None
  /\ extract_sent_at dateutil_accepts datecompat_rejects
       (py "From x\nDate: Thu, 5 Jan 2006 12:00:00 -0500 (EST)\nTo: you")
     = Returns (Some (py "5 Jan 2006 12:00:00 -0500 "))
  /\ extract_tdate (py "From x\nX-Rate: a, b\nTo: y") = Some (py "b")
  /\ process dateutil_rejects datecompat_rejects (session_of [] "9")
       (py "From x\nX-Rate: a, b\nTo: y\n\nbody")
     = (Continue, set_fail (set_count (session_of [] "9") 1) 1)
  /\ findall "\Date: .*, (.*)\n"
       (py "From x\nDate: Thu, 5 Jan 2006 12:00:00 -0500\nResent-Date: Fri, 6 Jan 2006 12:00:00 -0500\nTo: y")
     = [py "5 Jan 2006 12:00:00 -0500"; py "6 Jan 2006 12:00:00 -0500"]
  /\ extract_sent_at dateutil_rejects datecompat_rejects
       (py "From x\nDate: Thu, 5 Jan 2006 12:00:00 -0500\nResent-Date: Fri, 6 Jan 2006 12:00:00 -0500\nTo: y")
     = Returns None
  /\ extract_sent_at dateutil_rejects datecompat_rejects
       (py "From x\nDate: Thu, 5 Jan 2006 12:00:00 -0500\nTo: y")
     = Raises.
Proof. repeat split; vm_compute; reflexivity. Qed.

(** A header block whose only [From: ] line reads [Name <local@domain>], with
    another line after it, yields the address: in lower case, and without
    any [<] it held. *)
Theorem named_sender_is_extracted :
  forall pre name local domain post,
    within CDot name = true ->
    (1 <= List.length local)%nat -> (1 <= List.length domain)%nat ->
    within CNonSpace local = true -> within CNonSpace domain = true ->
    occurrences from_key
      (pre ++ from_key ++ name ++ chars " <" ++ (local ++ "@"%char :: domain)
       ++ ">"%char :: LF :: post)
    = [List.length pre] ->
    extract_email
      (pre ++ from_key ++ name ++ chars " <" ++ (local ++ "@"%char :: domain)
       ++ ">"%char :: LF :: post)
    = Some (filter (fun a => negb (Ascii.eqb a "<"))
                   (lower (local ++ "@"%char :: domain)))
    /\ (has "<" (local ++ "@"%char :: domain) = false ->
        extract_email
          (pre ++ from_key ++ name ++ chars " <"
           ++ (local ++ "@"%char :: domain) ++ ">"%char :: LF :: post)
        = Some (lower (local ++ "@"%char :: domain))).
Proof.
  intros pre name local domain post Hn Hl Hd Al Ad Hocc.
  apply within_all_in in Hn, Al, Ad. apply nonempty_length in Hl, Hd.
  pose proof (address_nonspace _ _ Al Ad) as Aa.
  assert (E : extract_email
                (pre ++ from_key ++ name ++ chars " <"
                 ++ (local ++ "@"%char :: domain) ++ ">"%char :: LF :: post)
              = Some (clean_address (local ++ "@"%char :: domain))).
  { unfold extract_email.
    now rewrite (findall_named_line _ _ _ _ _ Hn Hl Hd Al Ad Hocc). }
  rewrite E. split.
  - now rewrite clean_address_nonspace.
  - intros Hx. rewrite clean_address_plain; auto.
    unfold has in Hx. rewrite forallb_forall. intros a Ha.
    destruct (Ascii.eqb_spec a "<") as [->|]; [|reflexivity].
    exfalso. revert Ha. now apply has_not_in.
Qed.

(** A header block whose only [From: ] line reads [local@domain], with
    another line after it: the first pattern has no match, the second has
    one, the address, and the email is that address in lower case without
    any [<] it held. *)
Theorem bare_sender_is_extracted :
  forall pre local domain post,
    (1 <= List.length local)%nat -> (1 <= List.length domain)%nat ->
    within CNonSpace local = true -> within CNonSpace domain = true ->
    occurrences from_key
      (pre ++ from_key ++ (local ++ "@"%char :: domain) ++ LF :: post)
    = [List.length pre] ->
    findall "\nFrom: .* <(\S+@\S+)>\n"
      (pre ++ from_key ++ (local ++ "@"%char :: domain) ++ LF :: post) = []
    /\ findall "\nFrom: (\S+@\S+)\n"
         (pre ++ from_key ++ (local ++ "@"%char :: domain) ++ LF :: post)
       = [local ++ "@"%char :: domain]
    /\ extract_email
         (pre ++ from_key ++ (local ++ "@"%char :: domain) ++ LF :: post)
       = Some (filter (fun a => negb (Ascii.eqb a "<"))
                      (lower (local ++ "@"%char :: domain))).
Proof.
  intros pre local domain post Hl Hd Al Ad Hocc.
  apply within_all_in in Al, Ad. apply nonempty_length in Hl, Hd.
  destruct (findall_bare_line _ _ _ _ Hl Hd Al Ad Hocc) as [E1 E2].
  split; [assumption|]. split; [assumption|].
  unfold extract_email. rewrite E1, E2.
  now rewrite clean_address_nonspace by now apply address_nonspace.
Qed.

(** A [From: ] line that ends the header block, whatever it holds, gives no
    email. *)
Theorem last_from_line_gives_no_email :
  forall pre t,
    has LF t = false ->
    occurrences from_key (pre ++ from_key ++ t) = [List.length pre] ->
    extract_email (pre ++ from_key ++ t) = None.
Proof.
  intros pre t Ht Hocc. apply has_not_in in Ht.
  destruct (from_line_needs_newline t Ht) as [M1 M2].
  unfold extract_email, findall.
  rewrite (scan_nowhere _ from_key pre (from_key ++ t));
    auto using from_key_nonempty, named_needs_key.
  rewrite (scan_nowhere _ from_key pre (from_key ++ t));
    auto using from_key_nonempty, bare_needs_key.
Qed.

(* ================================================================== *)
(** ** The claims at concrete inputs *)

(** C2 fails as stated: an archive that answers with status 204 and an
    empty body ends the run at the first request, with nothing counted and
    no further identifier tried. *)
Lemma returned_status_204_ends_the_run :
  fst (iteration archive_no_content dateutil_rejects datecompat_rejects
         (startup [] [py "3"])) = Break
  /\ fail (snd (iteration archive_no_content dateutil_rejects
                  datecompat_rejects (startup [] [py "3"]))) = 0
  /\ fst (iterate archive_no_content dateutil_rejects datecompat_rejects 3
            (startup [] [py "3"])) = Break
  /\ fetches (trace (snd (iterate archive_no_content dateutil_rejects
                            datecompat_rejects 3 (startup [] [py "3"]))))
     = [url_of 1].
Proof. repeat split; vm_compute; reflexivity. Qed.

Lemma failed_status_witness :
  ask_budget (startup [] [py "3"]) = (Continue, session_of [] "3")
  /\ iteration archive_not_found dateutil_rejects datecompat_rejects
       (startup [] [py "3"])
     = (Continue, set_fail (retrieving (session_of [] "3")) 1)
  /\ iteration archive_down dateutil_rejects datecompat_rejects
       (startup [] [py "3"])
     = (Continue, set_fail (retrieving (session_of [] "3")) 1)
  /\ iteration archive_no_content dateutil_rejects datecompat_rejects
       (startup [] [py "3"]) = (Break, retrieving (session_of [] "3"))
  /\ iteration archive_garbled dateutil_rejects datecompat_rejects
       (startup [] [py "3"])
     = (Continue, set_fail (retrieving (session_of [] "3")) 1).
Proof.
  assert (A : ask_budget (startup [] [py "3"]) = (Continue, session_of [] "3"))
    by reflexivity.
  assert (O : ~ In (start (startup [] [py "3"]) + 1)
                (ids (messages (startup [] [py "3"])))) by (intros []).
  split; [exact A|]. split; [|split; [|split]].
  - apply (proj1 (failed_status_is_counted_odd_status_ends_run
                    archive_not_found dateutil_rejects datecompat_rejects
                    _ _ A O) 404 (Some (py "Not Found")));
      [reflexivity | right; lia].
  - apply (proj1 (proj2 (failed_status_is_counted_odd_status_ends_run
                           archive_down dateutil_rejects datecompat_rejects
                           _ _ A O))).
    reflexivity.
  - apply (proj1 (proj2 (proj2 (failed_status_is_counted_odd_status_ends_run
                                  archive_no_content dateutil_rejects
                                  datecompat_rejects _ _ A O))) 204 []);
      [reflexivity | lia].
  - apply (proj2 (proj2 (proj2 (failed_status_is_counted_odd_status_ends_run
                                  archive_garbled dateutil_rejects
                                  datecompat_rejects _ _ A O))) 204).
    reflexivity.
Defined.

(** C3 fails as stated: after five retrievals in a row that raised an error
    the loop is still running with the counter at 5; the sixth pass requests
    address 6; when that one succeeds the run goes on with the counter at 0,
    and when it fails the run ends with six requests made. *)
Lemma five_failures_do_not_end_the_run :
  fst (iterate archive_back_at_6 dateutil_accepts datecompat_rejects 5
         (session_of [] "9")) = Continue
  /\ fail (snd (iterate archive_back_at_6 dateutil_accepts datecompat_rejects 5
                  (session_of [] "9"))) = 5
  /\ fetches (trace (snd (iterate archive_back_at_6 dateutil_accepts
                            datecompat_rejects 5 (session_of [] "9"))))
     = [url_of 5; url_of 4; url_of 3; url_of 2; url_of 1]
  /\ fst (iterate archive_back_at_6 dateutil_accepts datecompat_rejects 6
            (session_of [] "9")) = Continue
  /\ fail (snd (iterate archive_back_at_6 dateutil_accepts datecompat_rejects 6
                  (session_of [] "9"))) = 0
  /\ ids (messages (snd (iterate archive_back_at_6 dateutil_accepts
                           datecompat_rejects 6 (session_of [] "9")))) = [6]
  /\ fetches (trace (snd (iterate archive_back_at_6 dateutil_accepts
                            datecompat_rejects 6 (session_of [] "9"))))
     = [url_of 6; url_of 5; url_of 4; url_of 3; url_of 2; url_of 1]
  /\ fst (iterate archive_down dateutil_accepts datecompat_rejects 5
            (session_of [] "9")) = Continue
  /\ fst (iterate archive_down dateutil_accepts datecompat_rejects 6
            (session_of [] "9")) = Break
  /\ fetches (trace (snd (iterate archive_down dateutil_accepts
                            datecompat_rejects 6 (session_of [] "9"))))
     = [url_of 6; url_of 5; url_of 4; url_of 3; url_of 2; url_of 1].
Proof. repeat split; vm_compute; reflexivity. Qed.

Lemma failure_counter_witness :
  iterate archive_down dateutil_rejects datecompat_rejects 5 (session_of [] "9")
  = (Continue, failed 5 (session_of [] "9"))
  /\ fail (failed 5 (session_of [] "9")) = 5
  /\ iterate archive_down dateutil_rejects datecompat_rejects 6
       (session_of [] "9")
     = (Break, failed 6 (session_of [] "9"))
  /\ fail (failed 6 (session_of [] "9")) = 6.
Proof.
  destruct (proj2 (proj2 (failure_counter_and_threshold archive_down
                            dateutil_rejects datecompat_rejects))
              (session_of [] "9"))
    as (H1 & H2 & _ & _ & H5 & _).
  - reflexivity.
  - vm_compute. discriminate.
  - intros k _ [].
  - intros k _. reflexivity.
  - destruct (H5 eq_refl) as [H6 H7].
    exact (conj H1 (conj H2 (conj H6 H7))).
Defined.

(** C8 fails as stated: an archive that answers with a page that is no
    message is counted five times with the loop going on, and the sixth
    such page ends the run. *)
Lemma sixth_malformed_text_ends_the_run :
  startswith (py "<html>busy</html>") (py "From ") = false
  /\ fst (iterate archive_busy dateutil_rejects datecompat_rejects 5
            (session_of [] "9")) = Continue
  /\ fail (snd (iterate archive_busy dateutil_rejects datecompat_rejects 5
                  (session_of [] "9"))) = 5
  /\ fst (process dateutil_rejects datecompat_rejects
            (retrieving (snd (iterate archive_busy dateutil_rejects
                                datecompat_rejects 5 (session_of [] "9"))))
            (py "<html>busy</html>")) = Break
  /\ fst (iterate archive_busy dateutil_rejects datecompat_rejects 6
            (session_of [] "9")) = Break.
Proof. repeat split; vm_compute; reflexivity. Qed.

Lemma malformed_text_witness :
  process dateutil_rejects datecompat_rejects (session_of [] "9")
          (py "<html>busy</html>")
  = (Continue, set_fail (set_count (session_of [] "9") 1) 1)
  /\ messages (snd (process dateutil_rejects datecompat_rejects
                      (session_of [] "9") (py "<html>busy</html>"))) = []
  /\ process dateutil_rejects datecompat_rejects (session_of [] "9")
             (py "From x\nno blank line")
     = (Continue, set_fail (set_count (session_of [] "9") 1) 1).
Proof.
  split; [|split].
  - apply (proj1 (malformed_text_is_counted archive_busy dateutil_rejects
                    datecompat_rejects)
             (session_of [] "9") (py "<html>busy</html>")).
    left. reflexivity.
  - apply (proj1 (malformed_text_is_counted archive_busy dateutil_rejects
                    datecompat_rejects)
             (session_of [] "9") (py "<html>busy</html>")).
    left. reflexivity.
  - apply (proj1 (malformed_text_is_counted archive_busy dateutil_rejects
                    datecompat_rejects)
             (session_of [] "9") (py "From x\nno blank line")).
    right. reflexivity.
Defined.

(** C10 fails as stated: with a budget of 2 and a first retrieval stopped
    from the keyboard the run is over after one retrieval. *)
Lemma budget_of_two_one_retrieval :
  many (session_of [] "2") = 2
  /\ fst (iterate archive_interrupted dateutil_rejects datecompat_rejects 1
            (session_of [] "2")) = Break
  /\ attempts (snd (iterate archive_interrupted dateutil_rejects
                      datecompat_rejects 1 (session_of [] "2")))
     - attempts (session_of [] "2") = 1
  /\ fst (iterate archive_interrupted dateutil_rejects datecompat_rejects 10
            (startup [] [py "2"])) = Break
  /\ attempts (snd (iterate archive_interrupted dateutil_rejects
                      datecompat_rejects 10 (startup [] [py "2"]))) = 1.
Proof. repeat split; vm_compute; reflexivity. Qed.

Lemma resume_witness :
  (1 <= List.length (py "1"))%nat
  /\ py_int (py "1") = Some 1
  /\ initial_start (select_max_id [stored 5; stored 2]) = 5
  /\ fetches (trace (snd (iteration archive_up dateutil_accepts
                            datecompat_rejects
                            (startup [stored 5; stored 2] [py "1"]))))
     = [url_of (initial_start (select_max_id [stored 5; stored 2]) + 1)].
Proof.
  assert (Hl : (1 <= List.length (py "1"))%nat) by (vm_compute; lia).
  assert (Hi : py_int (py "1") = Some 1) by reflexivity.
  destruct (a_failing_query_is_uncaught_and_the_cursor_resumes archive_up
              dateutil_accepts datecompat_rejects)
    as (_ & _ & _ & _ & _ & _ & _ & _ & _ & _ & _ & H & _).
  exact (conj Hl (conj Hi (conj eq_refl (H _ _ [] _ Hl Hi)))).
Defined.

Lemma skipped_witness :
  In 1 (ids (messages behind_the_table))
  /\ iteration archive_up dateutil_accepts datecompat_rejects behind_the_table
     = (Continue, set_start behind_the_table 1)
  /\ rows_with_id 1
       (messages (snd (iterate archive_up dateutil_accepts datecompat_rejects
                         4 behind_the_table)))
     = rows_with_id 1 (messages behind_the_table)
  /\ exists new,
       fetches (trace (snd (iterate archive_up dateutil_accepts
                              datecompat_rejects 4 behind_the_table)))
       = new ++ fetches (trace behind_the_table)
       /\ ~ In (url_of 1) new.
Proof.
  assert (Hin : In 1 (ids (messages behind_the_table))) by (left; reflexivity).
  destruct (stored_identifiers_are_skipped archive_up dateutil_accepts
              datecompat_rejects) as [S1 S2].
  destruct (iteration archive_up dateutil_accepts datecompat_rejects
              behind_the_table) as [c st'] eqn:E.
  destruct (S1 behind_the_table st' c Hin E) as (_ & _ & _ & H4).
  destruct H4 as [-> ->]; [vm_compute; discriminate|].
  destruct (iterate archive_up dateutil_accepts datecompat_rejects 4
              behind_the_table) as [c4 st4] eqn:E4.
  destruct (S2 4%nat behind_the_table st4 c4 1 Hin E4) as [R N].
  exact (conj Hin (conj eq_refl (conj R N))).
Defined.

Lemma budget_witness :
  advance archive_up dateutil_accepts datecompat_rejects behind_the_table
  = (Continue, set_start behind_the_table 1)
  /\ many (snd (iterate archive_up dateutil_accepts datecompat_rejects 4
                  behind_the_table)) = 0
  /\ attempts (snd (iterate archive_up dateutil_accepts datecompat_rejects 4
                      behind_the_table))
     - attempts behind_the_table
     = many behind_the_table
       - many (snd (iterate archive_up dateutil_accepts datecompat_rejects 4
                      behind_the_table)).
Proof.
  destruct (skipping_is_free_and_budget_pays_retrievals archive_up
              dateutil_accepts datecompat_rejects) as (B1 & _ & B3 & _).
  assert (Hin : In (start behind_the_table + 1)
                  (ids (messages behind_the_table))) by (left; reflexivity).
  assert (Hm : 1 <= many behind_the_table) by (vm_compute; discriminate).
  assert (Hp : prompts (trace (snd (iterate archive_up dateutil_accepts
                                      datecompat_rejects 4 behind_the_table)))
               = prompts (trace behind_the_table))
    by (vm_compute; reflexivity).
  assert (H0 : many (snd (iterate archive_up dateutil_accepts
                            datecompat_rejects 4 behind_the_table)) = 0)
    by (vm_compute; reflexivity).
  destruct (B3 4%nat _ _ _ Hm (surjective_pairing _) Hp) as (_ & A & _).
  exact (conj (proj1 (B1 _ Hin)) (conj H0 A)).
Defined.

Lemma named_sender_witness :
  occurrences from_key
    (py "From x" ++ from_key ++ py "Name" ++ chars " <"
     ++ (py "Addr" ++ "@"%char :: py "Host") ++ ">"%char :: LF :: py "To: you")
  = [List.length (py "From x")]
  /\ extract_email
       (py "From x" ++ from_key ++ py "Name" ++ chars " <"
        ++ (py "Addr" ++ "@"%char :: py "Host") ++ ">"%char :: LF :: py "To: you")
     = Some (lower (py "Addr" ++ "@"%char :: py "Host"))
  /\ lower (py "Addr" ++ "@"%char :: py "Host") = py "addr@host".
Proof.
  assert (Ho : occurrences from_key
                 (py "From x" ++ from_key ++ py "Name" ++ chars " <"
                  ++ (py "Addr" ++ "@"%char :: py "Host")
                  ++ ">"%char :: LF :: py "To: you")
               = [List.length (py "From x")]) by (vm_compute; reflexivity).
  assert (L1 : (1 <= List.length (py "Addr"))%nat) by (vm_compute; lia).
  assert (L2 : (1 <= List.length (py "Host"))%nat) by (vm_compute; lia).
  exact (conj Ho
           (conj (proj2 (named_sender_is_extracted (py "From x") (py "Name")
                           (py "Addr") (py "Host") (py "To: you")
                           eq_refl L1 L2 eq_refl eq_refl Ho) eq_refl)
                 eq_refl)).
Defined.

Lemma bare_sender_witness :
  occurrences from_key
    (py "From x" ++ from_key ++ (py "Addr" ++ "@"%char :: py "Host")
     ++ LF :: py "To: you")
  = [List.length (py "From x")]
  /\ findall "\nFrom: .* <(\S+@\S+)>\n"
       (py "From x" ++ from_key ++ (py "Addr" ++ "@"%char :: py "Host")
        ++ LF :: py "To: you") = []
  /\ findall "\nFrom: (\S+@\S+)\n"
       (py "From x" ++ from_key ++ (py "Addr" ++ "@"%char :: py "Host")
        ++ LF :: py "To: you")
     = [py "Addr" ++ "@"%char :: py "Host"]
  /\ extract_email
       (py "From x" ++ from_key ++ (py "Addr" ++ "@"%char :: py "Host")
        ++ LF :: py "To: you")
     = Some (filter (fun a => negb (Ascii.eqb a "<"))
                    (lower (py "Addr" ++ "@"%char :: py "Host"))).
Proof.
  assert (Ho : occurrences from_key
                 (py "From x" ++ from_key
                  ++ (py "Addr" ++ "@"%char :: py "Host") ++ LF :: py "To: you")
               = [List.length (py "From x")]) by (vm_compute; reflexivity).
  assert (L1 : (1 <= List.length (py "Addr"))%nat) by (vm_compute; lia).
  assert (L2 : (1 <= List.length (py "Host"))%nat) by (vm_compute; lia).
  exact (conj Ho (bare_sender_is_extracted (py "From x") (py "Addr") (py "Host")
                    (py "To: you") L1 L2 eq_refl eq_refl Ho)).
Defined.

Lemma last_from_line_witness :
  has LF (py "Name <Addr@Host>") = false
  /\ extract_email (py "From x" ++ from_key ++ py "Name <Addr@Host>") = None.
Proof.
  assert (Ho : occurrences from_key
                 (py "From x" ++ from_key ++ py "Name <Addr@Host>")
               = [List.length (py "From x")]) by (vm_compute; reflexivity).
  exact (conj eq_refl
           (last_from_line_gives_no_email (py "From x") (py "Name <Addr@Host>")
              eq_refl Ho)).
Defined.

Lemma subject_shape_witness :
  extract_subject sample_hdr = Some (py "hello world")
  /\ strip (py "hello world") = py "hello world"
  /\ lower (py "hello world") = py "hello world".
Proof.
  assert (E : extract_subject sample_hdr = Some (py "hello world"))
    by (vm_compute; reflexivity).
  destruct (a_subject_is_one_trimmed_line_in_lower_case sample_hdr _ E)
    as (_ & S1 & S2 & _).
  exact (conj E (conj S1 S2)).
Defined.

Lemma email_shape_witness :
  extract_email sample_hdr = Some (py "addr@host")
  /\ In "@"%char (py "addr@host")
  /\ lower (py "addr@host") = py "addr@host".
Proof.
  assert (E : extract_email sample_hdr = Some (py "addr@host"))
    by (vm_compute; reflexivity).
  destruct (an_email_is_a_lower_case_address sample_hdr _ E)
    as (S1 & _ & _ & S2).
  exact (conj E (conj S1 S2)).
Defined.

Lemma date_text_witness :
  extract_tdate sample_hdr = Some (py "5 Jan 2006 12:00:00 -0500 ")
  /\ (List.length (py "5 Jan 2006 12:00:00 -0500 ") <= 26)%nat
  /\ ~ In LF (py "5 Jan 2006 12:00:00 -0500 ").
Proof.
  assert (E : extract_tdate sample_hdr = Some (py "5 Jan 2006 12:00:00 -0500 "))
    by (vm_compute; reflexivity).
  destruct (a_date_text_is_short_and_follows_the_last_comma sample_hdr _ E)
    as (S1 & S2 & _).
  exact (conj E (conj S1 S2)).
Defined.

Lemma distinct_addresses_witness : 1 <> 2 /\ url_of 1 <> url_of 2.
Proof.
  assert (N : 1 <> 2) by discriminate.
  exact (conj N (distinct_identifiers_have_distinct_addresses 1 2 N)).
Defined.

Lemma failure_bounds_witness :
  0 <= fail (session_of [] "9") <= 5
  /\ 0 <= fail (snd (iterate archive_down dateutil_rejects datecompat_rejects 6
                       (session_of [] "9"))) <= 6.
Proof.
  assert (F : fail (session_of [] "9") = 0) by (vm_compute; reflexivity).
  assert (H : 0 <= fail (session_of [] "9") <= 5) by (rewrite F; lia).
  exact (conj H (proj1 (failure_counter_stays_in_bounds archive_down
                          dateutil_rejects datecompat_rejects 6 _ H))).
Defined.

Lemma commits_witness :
  (exists l, messages (startup [] [py "1"])
             = committed (startup [] [py "1"]) ++ l)
  /\ committed (shutdown (snd (iterate archive_up dateutil_accepts
                                 datecompat_rejects 3 (startup [] [py "1"]))))
     = messages (snd (iterate archive_up dateutil_accepts datecompat_rejects 3
                        (startup [] [py "1"]))).
Proof.
  assert (H : exists l, messages (startup [] [py "1"])
                        = committed (startup [] [py "1"]) ++ l)
    by (exists []; reflexivity).
  destruct (commits_keep_up_with_the_table archive_up dateutil_accepts
              datecompat_rejects 3 _ H) as (_ & _ & _ & S).
  exact (conj H S).
Defined.

Lemma reply_no_number_witness :
  many (startup [] [py "ten"]) < 1
  /\ py_int (py "ten") = None
  /\ fst (iteration archive_up dateutil_accepts datecompat_rejects
            (startup [] [py "ten"])) <> Continue
  /\ fetches (trace (snd (iteration archive_up dateutil_accepts
                            datecompat_rejects (startup [] [py "ten"])))) = [].
Proof.
  assert (Hm : many (startup [] [py "ten"]) < 1) by reflexivity.
  assert (Hn : py_int (py "ten") = None) by (vm_compute; reflexivity).
  destruct (a_reply_that_is_no_number_ends_the_run archive_up dateutil_accepts
              datecompat_rejects (startup [] [py "ten"]) Hm
              (or_intror (ex_intro _ (py "ten")
                            (ex_intro _ [] (conj eq_refl Hn)))))
    as (S1 & _ & _ & _ & _ & S2).
  exact (conj Hm (conj Hn (conj S1 S2))).
Defined.

Lemma budget_of_zero_witness :
  many (startup [] [py "0"]) < 1
  /\ py_int (py "0") = Some 0
  /\ start (snd (iteration archive_up dateutil_accepts datecompat_rejects
                   (startup [] [py "0"]))) = 1
  /\ many (snd (iteration archive_up dateutil_accepts datecompat_rejects
                  (startup [] [py "0"]))) < 1.
Proof.
  assert (Hm : many (startup [] [py "0"]) < 1) by reflexivity.
  assert (Hn : py_int (py "0") = Some 0) by (vm_compute; reflexivity).
  assert (Hl : (List.length (py "0") <= 4300)%nat) by (vm_compute; lia).
  destruct (a_budget_of_zero_or_less_buys_one_pass archive_up dateutil_accepts
              datecompat_rejects (startup [] [py "0"]) (py "0") [] 0
              Hm eq_refl Hn (Z.le_refl 0) Hl)
    as (S1 & S2 & _).
  exact (conj Hm (conj Hn (conj S1 S2))).
Defined.

Lemma date_without_comma_witness :
  occurrences (chars ", ") (py "From x\nDate: 2006-01-05 12:00\nX: y") = []
  /\ extract_tdate (py "From x\nDate: 2006-01-05 12:00\nX: y") = None.
Proof.
  assert (H : occurrences (chars ", ")
                (py "From x\nDate: 2006-01-05 12:00\nX: y") = [])
    by (vm_compute; reflexivity).
  exact (conj H (proj1 (proj2 (a_date_without_a_comma_gives_no_timestamp
                                 dateutil_accepts datecompat_rejects _ H)))).
Defined.

Lemma four_reasons_witness :
  fst (iteration archive_interrupted dateutil_rejects datecompat_rejects
         (session_of [] "2")) = Break
  /\ ((many (session_of [] "2") < 1
       /\ exists rest, stdin (session_of [] "2") = [] :: rest)
      \/ (~ In (start (session_of [] "2") + 1)
               (ids (messages (session_of [] "2")))
          /\ (archive_interrupted (url_of (start (session_of [] "2") + 1))
              = Interrupt
              \/ (exists status text,
                    archive_interrupted (url_of (start (session_of [] "2") + 1))
                    = Answer status (Some text)
                    /\ 200 < status < 300)
              \/ (5 <= fail (session_of [] "2")
                  /\ fail (snd (iteration archive_interrupted dateutil_rejects
                                  datecompat_rejects (session_of [] "2")))
                     = fail (session_of [] "2") + 1)))).
Proof.
  assert (B : fst (iteration archive_interrupted dateutil_rejects
                     datecompat_rejects (session_of [] "2")) = Break)
    by (vm_compute; reflexivity).
  exact (conj B (the_loop_is_left_for_four_reasons archive_interrupted
                   dateutil_rejects datecompat_rejects _ B)).
Defined.
